(** * OAuth2 credential lifecycle of the QuickBooks integration

    A shallow embedding of [server/routes/oauth.js], of the [/callback]
    route of the server entry point and of
    [server/services/oauthTokenManager.js].

    The handlers are asynchronous JavaScript functions over two
    process-wide [Map]s.  They are embedded as terms of a small free
    monad [Proc] whose operations are the effects the source performs:
    reading the clock, reading and writing the two maps, allocating and
    mutating the token objects the map holds *by reference*, throwing,
    and the two kinds of [await] (on [fetch] and on [response.json()]).
    Two interpreters give the terms a meaning: [exec] runs one handler
    to completion against a network oracle, [run_sync] runs one
    synchronous segment up to the next [await], which is what the
    JavaScript event loop interleaves.

    Conventions.
    - Times and lifetimes are integers ([Date.now()] is an integer
      number of milliseconds, far below 2^53), so JavaScript's number
      arithmetic on them is arithmetic on [Z].
    - The clock does not move within a synchronous segment.
    - A response body that parses has an [access_token] and an
      [expires_in]; the two fields the source itself tests for
      presence are optional.
    - What is only logged ([console.error]) is left out.
    - The network oracle stands for [fetch] as a whole, node-fetch with
      the provider behind it, and answers every call.  That node-fetch
      rejects a call without a URL is a property of the oracle,
      [node_fetch], which the theorems that rest on it assume. *)

From stdpp Require Import gmap strings list fin_maps pretty.

Local Open Scope Z_scope.
Local Set Warnings "-register-all".

(* ===================================================================== *)
(** ** JavaScript values used by the handlers *)

(** [if (s)] on a string: the empty string is falsy. *)
Definition truthy (s : string) : bool := negb (String.eqb s "").

(** [if (o)] on a possibly-undefined string (a query parameter, a body
    field, an environment variable, a JSON field). *)
Definition truthy_opt (o : option string) : bool :=
  match o with Some s => truthy s | None => false end.

(** [a || d] where [a] is a possibly-undefined string. *)
Definition or_default (a : option string) (d : string) : string :=
  match a with
  | Some s => if truthy s then s else d
  | None => d
  end.

(** [a || b] where both sides may be undefined. *)
Definition or_else (a b : option string) : option string :=
  if truthy_opt a then a else b.

(** Template-literal interpolation of a possibly-undefined value. *)
Definition interpolate (o : option string) : string :=
  match o with Some s => s | None => "undefined" end.

(** Numbers are integer milliseconds or seconds, so [Z]; a number that
    the source can compute from an absent field is [NaN], written
    [None].  Every comparison with [NaN] is false. *)
Definition js_num := option Z.

Definition js_ge (a : Z) (b : js_num) : bool :=
  match b with Some b' => b' <=? a | None => false end.

(* ===================================================================== *)
(** ** Data model *)

(** The object stored in [tokenStore] under a realm id.  [isRefreshing]
    is absent ([None]) on the objects the callback and [/refresh]
    create.  The fields live in a module so that the handlers can keep
    the source's local names ([realmId], [environment], ...). *)
Module Token.
Record t := {
  accessToken : string;
  refreshToken : option string;
  expiresAt : Z;
  refreshTokenExpiresAt : js_num;
  realmId : string;
  environment : string;
  updatedAt : Z;
  isRefreshing : option bool
}.
End Token.
Abbreviation TokenData := Token.t.

(** [tokenData.isRefreshing = b]: every other field is left as it is. *)
Definition set_isRefreshing (b : bool) (t : TokenData) : TokenData :=
  {| Token.accessToken := Token.accessToken t;
     Token.refreshToken := Token.refreshToken t;
     Token.expiresAt := Token.expiresAt t;
     Token.refreshTokenExpiresAt := Token.refreshTokenExpiresAt t;
     Token.realmId := Token.realmId t;
     Token.environment := Token.environment t;
     Token.updatedAt := Token.updatedAt t;
     Token.isRefreshing := Some b |}.

(** [tokenData.isRefreshing] as a condition: absent and [false] are
    both falsy. *)
Definition flag_set (t : TokenData) : bool :=
  match Token.isRefreshing t with Some b => b | None => false end.

#[global] Instance TokenData_inhabited : Inhabited TokenData :=
  populate {| Token.accessToken := ""; Token.refreshToken := None;
              Token.expiresAt := 0; Token.refreshTokenExpiresAt := None;
              Token.realmId := ""; Token.environment := "";
              Token.updatedAt := 0; Token.isRefreshing := None |}.

(** The value stored in [oauthStateStore] under a state string. *)
Module OAuthState.
Record t := {
  createdAt : Z;
  redirectUri : string
}.
End OAuthState.
Abbreviation StateData := OAuthState.t.

(** References to token objects. *)
Abbreviation loc := nat.

(** Modelled from the spec: [services/tokenStore.js], which declares
    the [tokenStore] both files import, is not among the sources.  The
    spec describes it as a map from tenant identifier to token record
    with [set], [get] and [delete], living as long as the process;
    that is a [Map] like [oauthStateStore], and the handlers use it as
    one.  A [Map] holds objects by reference. *)
Abbreviation TokenStore := (gmap string nat).

(** The process state: the JavaScript heap of token objects and the two
    module-level maps; [nextLoc] is the next unused reference. *)
Record State := {
  heap : gmap nat TokenData;
  nextLoc : nat;
  tokenStore : TokenStore;
  oauthStateStore : gmap string StateData
}.

Definition initial_state : State :=
  {| heap := ∅; nextLoc := 0%nat; tokenStore := ∅; oauthStateStore := ∅ |}.

(** The record a realm id resolves to, through the reference. *)
Definition record_of (st : State) (realm : string) : option TokenData :=
  l ← tokenStore st !! realm; heap st !! l.

(* ===================================================================== *)
(** ** The provider *)

(** The JSON body of a token-endpoint response.  [refresh_token] and
    [x_refresh_token_expires_in] are the fields the source tests for
    presence; [error] is read on failures. *)
Module Json.
Record t := {
  access_token : string;
  refresh_token : option string;
  expires_in : Z;
  x_refresh_token_expires_in : option Z;
  error : option string
}.
End Json.
Abbreviation TokenJson := Json.t.

(** A [fetch] response; [json] is [None] when [response.json()]
    rejects.  [ok] is derived from the status as [fetch] does. *)
Record Response := {
  status : Z;
  statusText : string;
  json : option TokenJson
}.

Definition ok (r : Response) : bool := (200 <=? status r) && (status r <=? 299).

(** [fetch] resolves to a response or rejects (network error, timeout). *)
Inductive FetchResult :=
| FetchResponse (r : Response)
| FetchRejects (message : string).

(** What a route hands to [fetch] or to [new URL] as the URL: a string,
    or [undefined] when the object it reads the URL from has no such
    field. *)
Inductive Url :=
| Href (href : string)
| Undefined.

Coercion Href : string >-> Url.

(** The three calls of [fetch] the handlers make, with the client
    credentials of the Basic authorization header.  A call whose URL is
    [Undefined] sends nothing: [fetch] rejects it (see [node_fetch]). *)
Inductive FetchReq :=
| ExchangeCode (url : Url) (clientId clientSecret : option string)
               (code redirect_uri : string)
| RefreshGrant (url : Url) (clientId clientSecret : option string)
               (refresh_token : option string)
| RevokeToken (url : Url) (clientId clientSecret : option string)
              (token : option string).

Definition url_of (req : FetchReq) : Url :=
  match req with
  | ExchangeCode url _ _ _ _ => url
  | RefreshGrant url _ _ _ => url
  | RevokeToken url _ _ _ => url
  end.

(** What [fetch] does with a call is left to the function that answers
    it, [net]: it stands for node-fetch with the provider behind it.
    node-fetch itself rejects a call without a URL, with a [TypeError]
    whose text is the library's. *)
Definition node_fetch (net : FetchReq → FetchResult) : Prop :=
  ∀ req, url_of req = Undefined → ∃ message, net req = FetchRejects message.

(* ===================================================================== *)
(** ** Effects *)

(** The synchronous effects. *)
Inductive Op : Type → Type :=
| DateNow : Op Z
| TokenGet (key : string) : Op (option loc)
| TokenSet (key : string) (l : loc) : Op unit
| TokenDelete (key : string) : Op unit
| NewObject (o : TokenData) : Op loc
| ReadObject (l : loc) : Op TokenData
| WriteIsRefreshing (l : loc) (b : bool) : Op unit
| StateGet (key : string) : Op (option StateData)
| StateSet (key : string) (v : StateData) : Op unit
| StateDelete (key : string) : Op unit
| StateEntries : Op (list (string * StateData)).

(** A handler: a tree of effects.  [AwaitFetch] and [AwaitJson] are the
    points where the function suspends. *)
Inductive Proc (A : Type) : Type :=
| Ret (a : A)
| Throw (e : string)
| Do {X : Type} (op : Op X) (k : X → Proc A)
| AwaitFetch (req : FetchReq) (k : FetchResult → Proc A)
| AwaitJson (resp : Response) (k : option TokenJson → Proc A).

Arguments Ret {A} a.
Arguments Throw {A} e.
Arguments Do {A X} op k.
Arguments AwaitFetch {A} req k.
Arguments AwaitJson {A} resp k.

Fixpoint bind {A B} (p : Proc A) (f : A → Proc B) : Proc B :=
  match p with
  | Ret a => f a
  | Throw e => Throw e
  | Do op k => Do op (λ x, bind (k x) f)
  | AwaitFetch req k => AwaitFetch req (λ r, bind (k r) f)
  | AwaitJson resp k => AwaitJson resp (λ j, bind (k j) f)
  end.

#[global] Instance Proc_ret : MRet Proc := @Ret.
#[global] Instance Proc_bind : MBind Proc := λ A B f p, bind p f.
#[global] Instance Proc_fmap : FMap Proc := λ A B f p, bind p (λ a, Ret (f a)).

(** [try { body } catch (error) { handler(error.message) }]. *)
Fixpoint try_catch {A} (body : Proc A) (handler : string → Proc A) : Proc A :=
  match body with
  | Ret a => Ret a
  | Throw e => handler e
  | Do op k => Do op (λ x, try_catch (k x) handler)
  | AwaitFetch req k => AwaitFetch req (λ r, try_catch (k r) handler)
  | AwaitJson resp k => AwaitJson resp (λ j, try_catch (k j) handler)
  end.

Definition do {X} (op : Op X) : Proc X := Do op Ret.
Definition fetch (req : FetchReq) : Proc FetchResult := AwaitFetch req Ret.

(** [await fetch(...)]: a rejection is thrown at the [await]. *)
Definition await_fetch (req : FetchReq) : Proc Response :=
  r ← fetch req;
  match r with
  | FetchResponse resp => Ret resp
  | FetchRejects m => Throw m
  end.

(** [await response.json()]: throws when the body does not parse. *)
Definition await_json (resp : Response) : Proc TokenJson :=
  AwaitJson resp (λ j,
    match j with
    | Some body => Ret body
    | None => Throw "invalid json response body"
    end).

(** [await response.json().catch(() => ({}))], then [.error]. *)
Definition await_json_error (resp : Response) : Proc (option string) :=
  AwaitJson resp (λ j,
    match j with
    | Some body => Ret (Json.error body)
    | None => Ret None
    end).

(** [for (const [key, value] of entries) body(key, value)]. *)
Fixpoint for_each {X} (l : list X) (body : X → Proc unit) : Proc unit :=
  match l with
  | [] => Ret tt
  | x :: l' => body x;; for_each l' body
  end.

(* ===================================================================== *)
(** ** Interpreters *)

(** One synchronous effect at time [now].  A reference comes from
    [NewObject] or out of the store, so [ReadObject] always finds its
    object; the default of [!!!] is never what is read. *)
Definition perform {X} (op : Op X) (now : Z) (st : State) : State * X :=
  match op in Op X return State * X with
  | DateNow => (st, now)
  | TokenGet key => (st, tokenStore st !! key)
  | TokenSet key l =>
      ({| heap := heap st; nextLoc := nextLoc st;
          tokenStore := <[key := l]> (tokenStore st);
          oauthStateStore := oauthStateStore st |}, tt)
  | TokenDelete key =>
      ({| heap := heap st; nextLoc := nextLoc st;
          tokenStore := delete key (tokenStore st);
          oauthStateStore := oauthStateStore st |}, tt)
  | NewObject o =>
      ({| heap := <[nextLoc st := o]> (heap st); nextLoc := S (nextLoc st);
          tokenStore := tokenStore st;
          oauthStateStore := oauthStateStore st |}, nextLoc st)
  | ReadObject l => (st, heap st !!! l)
  | WriteIsRefreshing l b =>
      ({| heap := alter (set_isRefreshing b) l (heap st); nextLoc := nextLoc st;
          tokenStore := tokenStore st;
          oauthStateStore := oauthStateStore st |}, tt)
  | StateGet key => (st, oauthStateStore st !! key)
  | StateSet key v =>
      ({| heap := heap st; nextLoc := nextLoc st;
          tokenStore := tokenStore st;
          oauthStateStore := <[key := v]> (oauthStateStore st) |}, tt)
  | StateDelete key =>
      ({| heap := heap st; nextLoc := nextLoc st;
          tokenStore := tokenStore st;
          oauthStateStore := delete key (oauthStateStore st) |}, tt)
  | StateEntries => (st, map_to_list (oauthStateStore st))
  end.

(** How a handler ends: it returns, or an exception escapes it. *)
Inductive Result (A : Type) :=
| Returned (a : A)
| Threw (e : string).
Arguments Returned {A} a.
Arguments Threw {A} e.

(** A complete run: final state, result, and the calls of [fetch] made,
    in order: the requests sent to the provider, and the calls without
    a URL, which send nothing. *)
Record Run (A : Type) := {
  final : State;
  result : Result A;
  requests : list FetchReq
}.
Arguments final {A} r.
Arguments result {A} r.
Arguments requests {A} r.

Definition sent {A} (req : FetchReq) (r : Run A) : Run A :=
  {| final := final r; result := result r; requests := req :: requests r |}.

(** [exec p net clock i st] runs [p] alone to completion: nothing else
    touches the state while it is suspended.  [net] answers the
    requests, [clock n] is the time during the [n]-th synchronous
    segment, and [i] is the current segment. *)
Fixpoint exec {A} (p : Proc A) (net : FetchReq → FetchResult)
    (clock : nat → Z) (i : nat) (st : State) : Run A :=
  match p with
  | Ret a => {| final := st; result := Returned a; requests := [] |}
  | Throw e => {| final := st; result := Threw e; requests := [] |}
  | Do op k => exec (k (perform op (clock i) st).2) net clock i
                    (perform op (clock i) st).1
  | AwaitFetch req k => sent req (exec (k (net req)) net clock (S i) st)
  | AwaitJson resp k => exec (k (json resp)) net clock (S i) st
  end.

(** Where a handler stands after a synchronous segment. *)
Inductive Suspended (A : Type) :=
| Finished (r : Result A)
| OnFetch (req : FetchReq) (k : FetchResult → Proc A)
| OnJson (resp : Response) (k : option TokenJson → Proc A).
Arguments Finished {A} r.
Arguments OnFetch {A} req k.
Arguments OnJson {A} resp k.

(** [run_sync p now st] runs [p] up to its next [await]. *)
Fixpoint run_sync {A} (p : Proc A) (now : Z) (st : State) : State * Suspended A :=
  match p with
  | Ret a => (st, Finished (Returned a))
  | Throw e => (st, Finished (Threw e))
  | Do op k => run_sync (k (perform op now st).2) now (perform op now st).1
  | AwaitFetch req k => (st, OnFetch req k)
  | AwaitJson resp k => (st, OnJson resp k)
  end.

(* ===================================================================== *)
(** ** Configuration and replies *)

(** The variables read from [process.env]; absent ones are [None]. *)
Record ProcessEnv := {
  QUICKBOOKS_CLIENT_ID : option string;
  QUICKBOOKS_CLIENT_SECRET : option string;
  QUICKBOOKS_REDIRECT_URI : option string;
  QUICKBOOKS_ENVIRONMENT : option string;
  QUICKBOOKS_SCOPE : option string;
  FRONTEND_URL : option string
}.

(** What [OAUTH_CONFIG[environment] || OAUTH_CONFIG.sandbox] evaluates
    to, as far as the routes read it: its [authUrl], [tokenUrl] and
    [revokeUrl]. *)
Record Endpoints := {
  authUrl : Url;
  tokenUrl : Url;
  revokeUrl : Url
}.

Definition OAUTH_CONFIG_sandbox : Endpoints :=
  {| authUrl := "https://appcenter.intuit.com/connect/oauth2";
     tokenUrl := "https://oauth.platform.intuit.com/oauth2/v1/tokens/bearer";
     revokeUrl := "https://developer.api.intuit.com/v2/oauth2/tokens/revoke" |}.

Definition OAUTH_CONFIG_production : Endpoints :=
  {| authUrl := "https://appcenter.intuit.com/connect/oauth2";
     tokenUrl := "https://oauth.platform.intuit.com/oauth2/v1/tokens/bearer";
     revokeUrl := "https://developer.api.intuit.com/v2/oauth2/tokens/revoke" |}.

(** The property names every object literal inherits from
    [Object.prototype]. *)
Definition Object_prototype : list string :=
  ["constructor"; "__defineGetter__"; "__defineSetter__"; "hasOwnProperty";
   "__lookupGetter__"; "__lookupSetter__"; "isPrototypeOf";
   "propertyIsEnumerable"; "toString"; "valueOf"; "__proto__";
   "toLocaleString"].

Definition inherited (name : string) : bool :=
  existsb (String.eqb name) Object_prototype.
Arguments inherited : simpl never.

(** [OAUTH_CONFIG[environment] || OAUTH_CONFIG.sandbox].  [OAUTH_CONFIG]
    is an object literal, so the lookup also finds what the literal
    inherits: for an inherited name it yields a function (for
    [__proto__], the prototype), which is truthy, so that [||] does not
    fall back to the sandbox, and which has none of the three URLs. *)
Definition OAUTH_CONFIG (environment : string) : Endpoints :=
  if String.eqb environment "sandbox" then OAUTH_CONFIG_sandbox
  else if String.eqb environment "production" then OAUTH_CONFIG_production
  else if inherited environment then
    {| authUrl := Undefined; tokenUrl := Undefined; revokeUrl := Undefined |}
  else OAUTH_CONFIG_sandbox.

(** The values a reply carries.  A URL is kept as its base and its
    query parameters, before percent-encoding. *)
Inductive jval :=
| JBool (b : bool)
| JStr (s : string)
| JNum (z : Z)
| JUrl (base : string) (query : list (string * string)).

(** What a route sends: [res.status(s).json(body)], or
    [res.redirect(url)].  [Redirect base query] is a redirect to [base]
    with query parameters whose values the route passes through
    [encodeURIComponent]; [RedirectTo location] is a redirect to a
    location the route puts together as it is, without encoding what it
    interpolates. *)
Inductive Reply :=
| SendJson (status : Z) (body : list (string * jval))
| Redirect (base : string) (query : list (string * string))
| RedirectTo (location : string).

(** The value of a field of a JSON reply. *)
Fixpoint assoc {V} (key : string) (l : list (string * V)) : option V :=
  match l with
  | [] => None
  | (k, v) :: l' => if String.eqb k key then Some v else assoc key l'
  end.

Definition field (key : string) (r : Reply) : option jval :=
  match r with
  | SendJson _ body => assoc key body
  | Redirect _ _ => None
  | RedirectTo _ => None
  end.

(** The value of a field of the JSON reply a route ended with. *)
Definition answered (key : string) (r : Result Reply) : option jval :=
  match r with
  | Returned reply => field key reply
  | Threw _ => None
  end.

(** What [getAccessToken] resolves to. *)
Module Granted.
Record t := {
  accessToken : string;
  realmId : string
}.
End Granted.

(** [newTokenData.x_refresh_token_expires_in ? ... : ...]: absent and 0
    are falsy. *)
Definition truthy_num (o : option Z) : bool :=
  match o with Some z => negb (z =? 0) | None => false end.

(** [Date.now() + (seconds * 1000)] when [seconds] may be absent. *)
Definition plus_seconds (now : Z) (seconds : option Z) : js_num :=
  match seconds with Some s => Some (now + s * 1000) | None => None end.

(* ===================================================================== *)
(** ** The handlers *)

(** A request parameter ([req.query.x], [req.body.x]) is a string; the
    handlers only test it for truthiness, which does not tell a missing
    parameter from an empty one, so the empty string stands for both. *)

Section Handlers.

Variable env : ProcessEnv.

(** [process.env.QUICKBOOKS_ENVIRONMENT || 'sandbox'], read by every
    handler. *)
Definition configured_environment : string :=
  or_default (QUICKBOOKS_ENVIRONMENT env) "sandbox".

(** [GET /api/oauth/authorize]; [randomState] is the value of
    [crypto.randomBytes(32).toString('hex')], [protocol] and [host] are
    [req.protocol] and [req.get('host')].  [new URL(config.authUrl)]
    throws a [TypeError], whose message is [Invalid URL], when the
    configuration has no [authUrl]; by then the state has been stored. *)
Definition authorize (protocol host randomState : string) : Proc Reply :=
  try_catch
    (let clientId := QUICKBOOKS_CLIENT_ID env in
     let clientSecret := QUICKBOOKS_CLIENT_SECRET env in
     let redirectUri :=
       or_default (QUICKBOOKS_REDIRECT_URI env)
                  (protocol +:+ "://" +:+ host +:+ "/api/oauth/callback") in
     let environment := configured_environment in
     let scope := or_default (QUICKBOOKS_SCOPE env)
                             "com.intuit.quickbooks.accounting" in
     if negb (truthy_opt clientId) || negb (truthy_opt clientSecret) then
       Ret (SendJson 500
         [("success", JBool false);
          ("error", JStr "QuickBooks OAuth credentials not configured. Please set QUICKBOOKS_CLIENT_ID and QUICKBOOKS_CLIENT_SECRET in your .env file.")])
     else
       let state := randomState in
       created ← do DateNow;
       do (StateSet state {| OAuthState.createdAt := created;
                             OAuthState.redirectUri := redirectUri |});;
       now ← do DateNow;
       let tenMinutesAgo := now - 10 * 60 * 1000 in
       entries ← do StateEntries;
       for_each entries (λ '(key, value),
         if OAuthState.createdAt value <? tenMinutesAgo
         then do (StateDelete key) else Ret tt);;
       let config := OAUTH_CONFIG environment in
       match authUrl config with
       | Undefined => Throw "Invalid URL"
       | Href base =>
           Ret (SendJson 200
             [("success", JBool true);
              ("authUrl", JUrl base
                 [("client_id", interpolate clientId);
                  ("response_type", "code");
                  ("scope", scope);
                  ("redirect_uri", redirectUri);
                  ("state", state)]);
              ("state", JStr state)])
       end)
    (λ message,
       Ret (SendJson 500
         [("success", JBool false);
          ("error", JStr ("Failed to generate authorization URL: " +:+ message))])).

(** The two callback routes have the same body; they differ in the
    base of the error redirects ([errorBase]) and in where the token
    URL comes from ([tokenUrl]).  The error redirects encode their
    message; the success redirect interpolates [realmId] as it came. *)
Definition callback_body (errorBase : string) (tokenUrl : Url)
    (code state realmId error : string) : Proc Reply :=
  try_catch
    (if truthy error then
       Ret (Redirect errorBase [("oauth_error", error)])
     else if negb (truthy code) || negb (truthy state) then
       Ret (Redirect errorBase
              [("oauth_error", "Missing authorization code or state")])
     else
       stateData ← do (StateGet state);
       match stateData with
       | None =>
           Ret (Redirect errorBase
                  [("oauth_error", "Invalid or expired state parameter")])
       | Some stateData =>
           do (StateDelete state);;
           let clientId := QUICKBOOKS_CLIENT_ID env in
           let clientSecret := QUICKBOOKS_CLIENT_SECRET env in
           let redirectUri := OAuthState.redirectUri stateData in
           let environment := configured_environment in
           tokenResponse ← await_fetch
             (ExchangeCode tokenUrl clientId clientSecret code redirectUri);
           if negb (ok tokenResponse) then
             await_json_error tokenResponse;;
             Ret (Redirect errorBase
                    [("oauth_error",
                      "Failed to exchange authorization code for tokens")])
           else
             tokenData ← await_json tokenResponse;
             (if truthy realmId then
                t1 ← do DateNow;
                t2 ← do DateNow;
                t3 ← do DateNow;
                stored ← do (NewObject
                  {| Token.accessToken := Json.access_token tokenData;
                     Token.refreshToken := Json.refresh_token tokenData;
                     Token.expiresAt := t1 + Json.expires_in tokenData * 1000;
                     Token.refreshTokenExpiresAt :=
                       plus_seconds t2 (Json.x_refresh_token_expires_in tokenData);
                     Token.realmId := realmId;
                     Token.environment := environment;
                     Token.updatedAt := t3;
                     Token.isRefreshing := None |});
                do (TokenSet realmId stored)
              else Ret tt);;
             let frontendUrl :=
               or_default (FRONTEND_URL env) "http://localhost:5173" in
             Ret (RedirectTo
                    (frontendUrl +:+ "/?oauth_success=true&realmId=" +:+
                     realmId))
       end)
    (λ message,
       Ret (Redirect errorBase
              [("oauth_error", "OAuth callback failed: " +:+ message)])).

(** [router.get('/callback')], mounted at [/api/oauth/callback]: errors
    redirect to [/], the token URL is [config.tokenUrl]. *)
Definition router_callback (code state realmId error : string) : Proc Reply :=
  callback_body "/" (tokenUrl (OAUTH_CONFIG configured_environment))
                code state realmId error.

(** [app.get('/callback')] of the server entry point: errors redirect to
    the front end, the token URL is a literal. *)
Definition app_callback (code state realmId error : string) : Proc Reply :=
  callback_body (or_default (FRONTEND_URL env) "http://localhost:5173" +:+ "/")
                "https://oauth.platform.intuit.com/oauth2/v1/tokens/bearer"
                code state realmId error.

(** [GET /api/oauth/status]. *)
Definition get_status (realmId : string) : Proc Reply :=
  try_catch
    (if negb (truthy realmId) then
       Ret (SendJson 200
         [("success", JBool true); ("connected", JBool false);
          ("message", JStr "No realmId provided")])
     else
       tokenData ← do (TokenGet realmId);
       match tokenData with
       | None =>
           Ret (SendJson 200
             [("success", JBool true); ("connected", JBool false);
              ("message", JStr "No tokens found for this realmId")])
       | Some tokenData =>
           tokenData ← do (ReadObject tokenData);
           t1 ← do DateNow;
           let isExpired := Token.expiresAt tokenData <=? t1 in
           t2 ← do DateNow;
           let needsRefresh :=
             Token.expiresAt tokenData - 5 * 60 * 1000 <=? t2 in
           t3 ← do DateNow;
           Ret (SendJson 200
             [("success", JBool true); ("connected", JBool true);
              ("realmId", JStr (Token.realmId tokenData));
              ("environment", JStr (Token.environment tokenData));
              ("expiresAt", JNum (Token.expiresAt tokenData));
              ("expiresIn",
               JNum (Z.max 0 ((Token.expiresAt tokenData - t3) `div` 1000)));
              ("needsRefresh", JBool needsRefresh);
              ("isExpired", JBool isExpired)])
       end)
    (λ message,
       Ret (SendJson 500
         [("success", JBool false);
          ("error", JStr ("Failed to get OAuth status: " +:+ message))])).

(** [POST /api/oauth/refresh]. *)
Definition refresh (realmId : string) : Proc Reply :=
  try_catch
    (if negb (truthy realmId) then
       Ret (SendJson 400
         [("success", JBool false); ("error", JStr "realmId is required")])
     else
       tokenData ← do (TokenGet realmId);
       match tokenData with
       | None =>
           Ret (SendJson 404
             [("success", JBool false);
              ("error", JStr "No refresh token found for this realmId")])
       | Some tokenData =>
           current ← do (ReadObject tokenData);
           if negb (truthy_opt (Token.refreshToken current)) then
             Ret (SendJson 404
               [("success", JBool false);
                ("error", JStr "No refresh token found for this realmId")])
           else
             now ← do DateNow;
             if js_ge now (Token.refreshTokenExpiresAt current) then
               do (TokenDelete realmId);;
               Ret (SendJson 401
                 [("success", JBool false);
                  ("error", JStr "Refresh token has expired. Please reconnect your QuickBooks account.");
                  ("requiresReconnect", JBool true)])
             else
               let clientId := QUICKBOOKS_CLIENT_ID env in
               let clientSecret := QUICKBOOKS_CLIENT_SECRET env in
               let environment := configured_environment in
               let config := OAUTH_CONFIG environment in
               tokenResponse ← await_fetch
                 (RefreshGrant (tokenUrl config) clientId clientSecret
                               (Token.refreshToken current));
               if negb (ok tokenResponse) then
                 errorData ← await_json_error tokenResponse;
                 do (TokenDelete realmId);;
                 Ret (SendJson (status tokenResponse)
                   [("success", JBool false);
                    ("error", JStr ("Failed to refresh token: " +:+
                       or_default errorData (statusText tokenResponse)));
                    ("requiresReconnect", JBool true)])
               else
                 newTokenData ← await_json tokenResponse;
                 old ← do (ReadObject tokenData);
                 t1 ← do DateNow;
                 t2 ← do DateNow;
                 t3 ← do DateNow;
                 stored ← do (NewObject
                   {| Token.accessToken := Json.access_token newTokenData;
                      Token.refreshToken :=
                        or_else (Json.refresh_token newTokenData)
                                (Token.refreshToken old);
                      Token.expiresAt :=
                        t1 + Json.expires_in newTokenData * 1000;
                      Token.refreshTokenExpiresAt :=
                        if truthy_num (Json.x_refresh_token_expires_in newTokenData)
                        then plus_seconds t2
                               (Json.x_refresh_token_expires_in newTokenData)
                        else Token.refreshTokenExpiresAt old;
                      Token.realmId := realmId;
                      Token.environment := environment;
                      Token.updatedAt := t3;
                      Token.isRefreshing := None |});
                 do (TokenSet realmId stored);;
                 Ret (SendJson 200
                   [("success", JBool true);
                    ("message", JStr "Token refreshed successfully");
                    ("expiresIn", JNum (Json.expires_in newTokenData))])
       end)
    (λ message,
       Ret (SendJson 500
         [("success", JBool false);
          ("error", JStr ("Failed to refresh token: " +:+ message))])).

(** [GET /api/oauth/token].  The [return] inside the inner [try] leaves
    the route, so the refresh block yields either a reply ([inl]) or the
    reference [tokenData] now denotes ([inr]). *)
Definition get_token (realmId : string) : Proc Reply :=
  try_catch
    (if negb (truthy realmId) then
       Ret (SendJson 400
         [("success", JBool false); ("error", JStr "realmId is required")])
     else
       tokenData ← do (TokenGet realmId);
       match tokenData with
       | None =>
           Ret (SendJson 404
             [("success", JBool false);
              ("error", JStr "No tokens found for this realmId. Please connect your QuickBooks account.");
              ("requiresAuth", JBool true)])
       | Some tokenData =>
           now ← do DateNow;
           current ← do (ReadObject tokenData);
           let needsRefresh :=
             Token.expiresAt current - 5 * 60 * 1000 <=? now in
           block ←
             (if needsRefresh && negb (flag_set current) then
                do (WriteIsRefreshing tokenData true);;
                do (TokenSet realmId tokenData);;
                try_catch
                  (let clientId := QUICKBOOKS_CLIENT_ID env in
                   let clientSecret := QUICKBOOKS_CLIENT_SECRET env in
                   let environment := configured_environment in
                   let config := OAUTH_CONFIG environment in
                   sending ← do (ReadObject tokenData);
                   tokenResponse ← await_fetch
                     (RefreshGrant (tokenUrl config) clientId clientSecret
                                   (Token.refreshToken sending));
                   if ok tokenResponse then
                     newTokenData ← await_json tokenResponse;
                     old ← do (ReadObject tokenData);
                     t1 ← do DateNow;
                     t2 ← do DateNow;
                     t3 ← do DateNow;
                     stored ← do (NewObject
                       {| Token.accessToken := Json.access_token newTokenData;
                          Token.refreshToken :=
                            or_else (Json.refresh_token newTokenData)
                                    (Token.refreshToken old);
                          Token.expiresAt :=
                            t1 + Json.expires_in newTokenData * 1000;
                          Token.refreshTokenExpiresAt :=
                            if truthy_num
                                 (Json.x_refresh_token_expires_in newTokenData)
                            then plus_seconds t2
                                   (Json.x_refresh_token_expires_in newTokenData)
                            else Token.refreshTokenExpiresAt old;
                          Token.realmId := realmId;
                          Token.environment := environment;
                          Token.updatedAt := t3;
                          Token.isRefreshing := Some false |});
                     do (TokenSet realmId stored);;
                     Ret (inr stored)
                   else
                     do (WriteIsRefreshing tokenData false);;
                     Ret (inl (SendJson 401
                       [("success", JBool false);
                        ("error", JStr "Failed to refresh token. Please reconnect your QuickBooks account.");
                        ("requiresReconnect", JBool true)])))
                  (λ refreshError,
                     do (WriteIsRefreshing tokenData false);;
                     do (TokenSet realmId tokenData);;
                     Throw refreshError)
              else Ret (inr tokenData));
           match block with
           | inl reply => Ret reply
           | inr tokenData =>
               tokenData ← do (ReadObject tokenData);
               t ← do DateNow;
               Ret (SendJson 200
                 [("success", JBool true);
                  ("accessToken", JStr (Token.accessToken tokenData));
                  ("realmId", JStr (Token.realmId tokenData));
                  ("expiresAt", JNum (Token.expiresAt tokenData));
                  ("expiresIn",
                   JNum (Z.max 0 ((Token.expiresAt tokenData - t) `div` 1000)))])
           end
       end)
    (λ message,
       Ret (SendJson 500
         [("success", JBool false);
          ("error", JStr ("Failed to get token: " +:+ message))])).

(** [POST /api/oauth/revoke]. *)
Definition revoke (realmId : string) : Proc Reply :=
  try_catch
    (if negb (truthy realmId) then
       Ret (SendJson 400
         [("success", JBool false); ("error", JStr "realmId is required")])
     else
       tokenData ← do (TokenGet realmId);
       match tokenData with
       | None =>
           Ret (SendJson 200
             [("success", JBool true);
              ("message", JStr "No tokens found to revoke")])
       | Some tokenData =>
           let clientId := QUICKBOOKS_CLIENT_ID env in
           let clientSecret := QUICKBOOKS_CLIENT_SECRET env in
           let environment := configured_environment in
           let config := OAUTH_CONFIG environment in
           current ← do (ReadObject tokenData);
           try_catch
             (await_fetch
                (RevokeToken (revokeUrl config) clientId clientSecret
                             (Token.refreshToken current));;
              Ret tt)
             (λ revokeError, Ret tt);;
           do (TokenDelete realmId);;
           Ret (SendJson 200
             [("success", JBool true);
              ("message", JStr "Tokens revoked successfully")])
       end)
    (λ message,
       Ret (SendJson 500
         [("success", JBool false);
          ("error", JStr ("Failed to revoke token: " +:+ message))])).

(** [getAccessToken(realmId)] of the token manager. *)
Definition getAccessToken (realmId : string) : Proc Granted.t :=
  if negb (truthy realmId) then Throw "realmId is required"
  else
    tokenData ← do (TokenGet realmId);
    match tokenData with
    | None =>
        Throw "No OAuth tokens found for this realmId. Please connect your QuickBooks account via OAuth."
    | Some tokenData =>
        now ← do DateNow;
        current ← do (ReadObject tokenData);
        let needsRefresh := Token.expiresAt current - 5 * 60 * 1000 <=? now in
        tokenData ←
          (if needsRefresh && negb (flag_set current) then
             do (WriteIsRefreshing tokenData true);;
             do (TokenSet realmId tokenData);;
             try_catch
               (let clientId := QUICKBOOKS_CLIENT_ID env in
                let clientSecret := QUICKBOOKS_CLIENT_SECRET env in
                let environment := configured_environment in
                let tokenUrl :=
                  if String.eqb environment "production"
                  then "https://oauth.platform.intuit.com/oauth2/v1/tokens/bearer"
                  else "https://oauth.platform.intuit.com/oauth2/v1/tokens/bearer" in
                sending ← do (ReadObject tokenData);
                tokenResponse ← await_fetch
                  (RefreshGrant tokenUrl clientId clientSecret
                                (Token.refreshToken sending));
                if negb (ok tokenResponse) then
                  do (WriteIsRefreshing tokenData false);;
                  errorData ← await_json_error tokenResponse;
                  Throw ("Failed to refresh token: " +:+
                         or_default errorData (statusText tokenResponse))
                else
                  newTokenData ← await_json tokenResponse;
                  old ← do (ReadObject tokenData);
                  t1 ← do DateNow;
                  t2 ← do DateNow;
                  t3 ← do DateNow;
                  stored ← do (NewObject
                    {| Token.accessToken := Json.access_token newTokenData;
                       Token.refreshToken :=
                         or_else (Json.refresh_token newTokenData)
                                 (Token.refreshToken old);
                       Token.expiresAt :=
                         t1 + Json.expires_in newTokenData * 1000;
                       Token.refreshTokenExpiresAt :=
                         if truthy_num
                              (Json.x_refresh_token_expires_in newTokenData)
                         then plus_seconds t2
                                (Json.x_refresh_token_expires_in newTokenData)
                         else Token.refreshTokenExpiresAt old;
                       Token.realmId := realmId;
                       Token.environment := environment;
                       Token.updatedAt := t3;
                       Token.isRefreshing := Some false |});
                  do (TokenSet realmId stored);;
                  Ret stored)
               (λ refreshError,
                  do (WriteIsRefreshing tokenData false);;
                  do (TokenSet realmId tokenData);;
                  Throw refreshError)
           else Ret tokenData);
        tokenData ← do (ReadObject tokenData);
        Ret {| Granted.accessToken := Token.accessToken tokenData;
               Granted.realmId := Token.realmId tokenData |}
    end.

End Handlers.

(** The provider's token endpoint, the same in every configuration
    that has one. *)
Definition TOKEN_URL : string :=
  "https://oauth.platform.intuit.com/oauth2/v1/tokens/bearer".

(** Where the front end lives: [process.env.FRONTEND_URL ||
    'http://localhost:5173'], followed by [/]. *)
Definition frontend (env : ProcessEnv) : string :=
  or_default (FRONTEND_URL env) "http://localhost:5173" +:+ "/".

(** Where a successful callback redirects to:
    [`${frontendUrl}/?oauth_success=true&realmId=${realmId || ''}`]. *)
Definition success_location (env : ProcessEnv) (realmId : string) : string :=
  or_default (FRONTEND_URL env) "http://localhost:5173" +:+
  "/?oauth_success=true&realmId=" +:+ realmId.

(** The two callback routes, each with the base of its error
    redirects. *)
Definition callback_routes (env : ProcessEnv)
    : list (string * (string → string → string → string → Proc Reply)) :=
  [("/", router_callback env); (frontend env, app_callback env)].

(** The state in which the object at [l] is [td] with its flag raised
    and nothing else differs from [st]. *)
Definition flag_raised (st : State) (l : loc) (td : TokenData) : State :=
  {| heap := <[l := set_isRefreshing true td]> (heap st);
     nextLoc := nextLoc st;
     tokenStore := tokenStore st;
     oauthStateStore := oauthStateStore st |}.

(** The state in which the object at [l] is [td] with its flag cleared
    and nothing else differs from [st]. *)
Definition flag_cleared (st : State) (l : loc) (td : TokenData) : State :=
  {| heap := <[l := set_isRefreshing false td]> (heap st);
     nextLoc := nextLoc st;
     tokenStore := tokenStore st;
     oauthStateStore := oauthStateStore st |}.

(** The message [getAccessToken] and [POST /refresh] build from a
    non-ok response: [errorData.error || tokenResponse.statusText]. *)
Definition refusal (resp : Response) : string :=
  "Failed to refresh token: " +:+
  or_default (json resp ≫= Json.error) (statusText resp).

(* ===================================================================== *)
(** ** The event loop *)

(** What a caller can see of a suspended invocation. *)
Inductive Observed (A : Type) :=
| Resolved (r : Result A)
| AwaitingFetch (req : FetchReq)
| AwaitingJson.
Arguments Resolved {A} r.
Arguments AwaitingFetch {A} req.
Arguments AwaitingJson {A}.

Definition observe {A} (s : Suspended A) : Observed A :=
  match s with
  | Finished r => Resolved r
  | OnFetch req _ => AwaitingFetch req
  | OnJson _ _ => AwaitingJson
  end.

(** The provider answers a pending [fetch]: the invocation runs its
    next synchronous segment at time [now], on the state as it is then. *)
Definition resume_fetch {A} (s : Suspended A) (r : FetchResult)
    (now : Z) (st : State) : State * Suspended A :=
  match s with
  | OnFetch _ k => run_sync (k r) now st
  | _ => (st, s)
  end.

(** A pending [response.json()] settles. *)
Definition resume_json {A} (s : Suspended A) (now : Z) (st : State)
    : State * Suspended A :=
  match s with
  | OnJson resp k => run_sync (k (json resp)) now st
  | _ => (st, s)
  end.


(** The invocations the process serves. *)
Inductive Call :=
| CallAuthorize (protocol host randomState : string)
| CallRouterCallback (code state realmId error : string)
| CallAppCallback (code state realmId error : string)
| CallStatus (realmId : string)
| CallRefresh (realmId : string)
| CallToken (realmId : string)
| CallRevoke (realmId : string)
| CallGetAccessToken (realmId : string).

Definition program (env : ProcessEnv) (c : Call) : Proc (Reply + Granted.t) :=
  match c with
  | CallAuthorize protocol host randomState =>
      inl <$> authorize env protocol host randomState
  | CallRouterCallback code state realmId error =>
      inl <$> router_callback env code state realmId error
  | CallAppCallback code state realmId error =>
      inl <$> app_callback env code state realmId error
  | CallStatus realmId => inl <$> get_status realmId
  | CallRefresh realmId => inl <$> refresh env realmId
  | CallToken realmId => inl <$> get_token env realmId
  | CallRevoke realmId => inl <$> revoke env realmId
  | CallGetAccessToken realmId => inr <$> getAccessToken env realmId
  end.

(** The running process: the shared state and the invocations in
    flight. *)
Record System := {
  store : State;
  tasks : list (Suspended (Reply + Granted.t))
}.

Definition boot : System := {| store := initial_state; tasks := [] |}.

(** A new invocation arrives at time [now] and runs its first
    segment. *)
Definition enter (env : ProcessEnv) (c : Call) (now : Z) (sys : System)
    : System :=
  {| store := (run_sync (program env c) now (store sys)).1;
     tasks := (run_sync (program env c) now (store sys)).2 :: tasks sys |}.

(** The provider answers the [fetch] the [n]-th invocation waits on. *)
Definition answer (n : nat) (r : FetchResult) (now : Z) (sys : System)
    : System :=
  match tasks sys !! n with
  | Some s =>
      {| store := (resume_fetch s r now (store sys)).1;
         tasks := <[n := (resume_fetch s r now (store sys)).2]> (tasks sys) |}
  | None => sys
  end.

(** The [response.json()] the [n]-th invocation waits on settles. *)
Definition settle (n : nat) (now : Z) (sys : System) : System :=
  match tasks sys !! n with
  | Some s =>
      {| store := (resume_json s now (store sys)).1;
         tasks := <[n := (resume_json s now (store sys)).2]> (tasks sys) |}
  | None => sys
  end.

(** One turn of the event loop.  Which invocation runs, when, and what
    the provider answers are arbitrary. *)
Inductive step (env : ProcessEnv) : System → System → Prop :=
| step_enter (sys : System) (c : Call) (now : Z) :
    step env sys (enter env c now sys)
| step_answer (sys : System) (n : nat) (r : FetchResult) (now : Z) :
    step env sys (answer n r now sys)
| step_settle (sys : System) (n : nat) (now : Z) :
    step env sys (settle n now sys).

(** The states the process can be in. *)
Inductive reachable (env : ProcessEnv) : System → Prop :=
| reachable_boot : reachable env boot
| reachable_step (sys sys' : System) :
    reachable env sys → step env sys sys' → reachable env sys'.

(** Every token object carries environment [E]. *)
Definition heap_in (E : string) (st : State) : Prop :=
  ∀ l td, heap st !! l = Some td → Token.environment td = E.

(** Every object a handler may still allocate carries environment [E]. *)
Fixpoint allocates_in (E : string) {A} (p : Proc A) : Prop :=
  match p with
  | Ret _ => True
  | Throw _ => True
  | Do op k =>
      match op with
      | NewObject o => Token.environment o = E
      | _ => True
      end ∧ ∀ x, allocates_in E (k x)
  | AwaitFetch _ k => ∀ r, allocates_in E (k r)
  | AwaitJson _ k => ∀ j, allocates_in E (k j)
  end.

Definition suspended_in (E : string) {A} (s : Suspended A) : Prop :=
  match s with
  | Finished _ => True
  | OnFetch _ k => ∀ r, allocates_in E (k r)
  | OnJson _ k => ∀ j, allocates_in E (k j)
  end.

(** The invariant of the running process. *)
Definition consistent (E : string) (sys : System) : Prop :=
  heap_in E (store sys) ∧ Forall (suspended_in E) (tasks sys).

(** The object a granted refresh stores in place of [old]: the literal
    the three refresh paths share, built at time [now] from the
    provider's answer.  [POST /refresh] omits [isRefreshing], the other
    two set it to [false]. *)
Definition refreshed_record (old : TokenData) (newTokenData : TokenJson)
    (realmId environment : string) (now : Z) (isRefreshing : option bool)
    : TokenData :=
  {| Token.accessToken := Json.access_token newTokenData;
     Token.refreshToken :=
       or_else (Json.refresh_token newTokenData) (Token.refreshToken old);
     Token.expiresAt := now + Json.expires_in newTokenData * 1000;
     Token.refreshTokenExpiresAt :=
       if truthy_num (Json.x_refresh_token_expires_in newTokenData)
       then plus_seconds now (Json.x_refresh_token_expires_in newTokenData)
       else Token.refreshTokenExpiresAt old;
     Token.realmId := realmId;
     Token.environment := environment;
     Token.updatedAt := now;
     Token.isRefreshing := isRefreshing |}.

(** The sweep of [GET /authorize] over the entries it enumerates:
    every entry created before [threshold] is deleted. *)
Definition swept (threshold : Z) (entries : list (string * StateData))
    (m : gmap string StateData) : gmap string StateData :=
  foldl (λ m '(key, value),
           if OAuthState.createdAt value <? threshold then delete key m else m)
        m entries.

(* ===================================================================== *)
(** ** The token-injecting middleware *)

(** What [injectOAuthToken] leaves behind: it calls [next()], with
    [req.body.accessToken] as it then is, or it answers itself. *)
Inductive Middleware :=
| Next (accessToken : string)
| Respond (reply : Reply).

(** [injectOAuthToken(req, res, next)] of the token manager, on
    [req.body.realmId] and [req.body.accessToken].  The [.then] and
    [.catch] callbacks touch nothing but the request and the reply. *)
Definition injectOAuthToken (env : ProcessEnv) (realmId accessToken : string)
    : Proc Middleware :=
  if truthy accessToken then Ret (Next accessToken)
  else if truthy realmId && negb (truthy accessToken) then
    try_catch
      (granted ← getAccessToken env realmId;
       let oauthToken := Granted.accessToken granted in
       Ret (Next oauthToken))
      (λ message,
         Ret (Respond (SendJson 401
           [("success", JBool false);
            ("error", JStr message);
            ("requiresOAuth", JBool true)])))
  else Ret (Next accessToken).

(* ===================================================================== *)
(** ** Field paths of a QuickBooks record *)

(** A parsed JSON value.  The fields of an object are listed in the
    order [for ... in] enumerates them; the magnitude of a number plays
    no part in what follows. *)
Inductive Value :=
| VNull
| VBool (b : bool)
| VNumber (n : Z)
| VString (s : string)
| VArray (items : list Value)
| VObject (fields : list (string * Value)).

(** [typeof v === 'object']: true of objects, arrays and [null]. *)
Definition typeof_object (v : Value) : bool :=
  match v with
  | VNull | VArray _ | VObject _ => true
  | _ => false
  end.

(** [prefix ? `${prefix}.${key}` : key]. *)
Definition join (prefix key : string) : string :=
  if truthy prefix then prefix +:+ "." +:+ key else key.

(** The body of the loop of [extractFieldPaths], for one [value] at
    [path]; [extract] is the function itself. *)
Definition visit (extract : Value → string → list string)
    (value : Value) (path : string) : list string :=
  match value with
  | VObject _ => extract value path
  | VArray (first :: _) =>
      if typeof_object first then extract first path else [path]
  | _ => [path]
  end.

(** [extractFieldPaths(obj, prefix)].  [for (const key in obj)] runs
    over the fields of an object, over the indices of an array or of a
    string, and over nothing for [null], a number or a boolean. *)
Fixpoint extractFieldPaths (obj : Value) (prefix : string) : list string :=
  match obj with
  | VObject fields =>
      (fix each (fields : list (string * Value)) : list string :=
         match fields with
         | [] => []
         | (key, value) :: rest =>
             visit extractFieldPaths value (join prefix key) ++ each rest
         end) fields
  | VArray items =>
      (fix each (i : nat) (items : list Value) : list string :=
         match items with
         | [] => []
         | value :: rest =>
             visit extractFieldPaths value (join prefix (pretty i))
               ++ each (S i) rest
         end) 0%nat items
  | VString s =>
      (fix each (i : nat) (s : string) : list string :=
         match s with
         | EmptyString => []
         | String _ rest => join prefix (pretty i) :: each (S i) rest
         end) 0%nat s
  | _ => []
  end.

(** The values for which the loop takes its last branch and records
    the path itself: everything but an object and an array whose first
    element is an object, an array or [null]. *)
Definition is_leaf (value : Value) : bool :=
  match value with
  | VObject _ => false
  | VArray (first :: _) => negb (typeof_object first)
  | _ => true
  end.

(* ===================================================================== *)
(** ** Credentials kept by the browser *)

(** [QuickBooksCredentials]. *)
Module Credentials.
Record t := {
  realmId : string;
  accessToken : string;
  entity : string;
  oauthConnected : option bool
}.
End Credentials.

(** [localStorage], as far as the one key [quickbooks_credentials]
    goes.  [JSON.parse] gives back what [JSON.stringify] was given, so
    the item is kept as the object it encodes.  When the storage is not
    [usable], every access throws. *)
Record LocalStorage := {
  usable : bool;
  item : option Credentials.t
}.

Module QuickBooksStorage.

(** [saveCredentials]: a storage that throws is left as it is. *)
Definition saveCredentials (credentials : Credentials.t) (ls : LocalStorage)
    : LocalStorage :=
  if usable ls then {| usable := true; item := Some credentials |} else ls.

(** [loadCredentials]. *)
Definition loadCredentials (ls : LocalStorage) : option Credentials.t :=
  if usable ls then
    match item ls with
    | None => None
    | Some credentials =>
        if truthy (Credentials.realmId credentials) then
          if negb (truthy (Credentials.entity credentials)) then
            Some {| Credentials.realmId := Credentials.realmId credentials;
                    Credentials.accessToken := Credentials.accessToken credentials;
                    Credentials.entity := "Expense";
                    Credentials.oauthConnected :=
                      Credentials.oauthConnected credentials |}
          else Some credentials
        else None
    end
  else None.

(** The field and value of [updateCredential(field, value)]. *)
Inductive Update :=
| SetRealmId (value : string)
| SetAccessToken (value : string)
| SetEntity (value : string)
| SetOauthConnected (value : option bool).

(** [current[field] = value]. *)
Definition assign (u : Update) (current : Credentials.t) : Credentials.t :=
  match u with
  | SetRealmId value =>
      {| Credentials.realmId := value;
         Credentials.accessToken := Credentials.accessToken current;
         Credentials.entity := Credentials.entity current;
         Credentials.oauthConnected := Credentials.oauthConnected current |}
  | SetAccessToken value =>
      {| Credentials.realmId := Credentials.realmId current;
         Credentials.accessToken := value;
         Credentials.entity := Credentials.entity current;
         Credentials.oauthConnected := Credentials.oauthConnected current |}
  | SetEntity value =>
      {| Credentials.realmId := Credentials.realmId current;
         Credentials.accessToken := Credentials.accessToken current;
         Credentials.entity := value;
         Credentials.oauthConnected := Credentials.oauthConnected current |}
  | SetOauthConnected value =>
      {| Credentials.realmId := Credentials.realmId current;
         Credentials.accessToken := Credentials.accessToken current;
         Credentials.entity := Credentials.entity current;
         Credentials.oauthConnected := value |}
  end.

(** [updateCredential]. *)
Definition updateCredential (u : Update) (ls : LocalStorage) : LocalStorage :=
  let current :=
    default {| Credentials.realmId := ""; Credentials.accessToken := "";
               Credentials.entity := "Expense";
               Credentials.oauthConnected := None |}
            (loadCredentials ls) in
  saveCredentials (assign u current) ls.

(** [clearCredentials]. *)
Definition clearCredentials (ls : LocalStorage) : LocalStorage :=
  if usable ls then {| usable := true; item := None |} else ls.

(** [hasCredentials]. *)
Definition hasCredentials (ls : LocalStorage) : bool :=
  bool_decide (is_Some (loadCredentials ls)).

(** [saveOAuthConnection(realmId, entity = 'Expense')]; an omitted
    [entity] is [None]. *)
Definition saveOAuthConnection (realmId : string) (entity : option string)
    (ls : LocalStorage) : LocalStorage :=
  let entity := default "Expense" entity in
  let current :=
    default {| Credentials.realmId := ""; Credentials.accessToken := "";
               Credentials.entity := "Expense";
               Credentials.oauthConnected := Some false |}
            (loadCredentials ls) in
  saveCredentials
    {| Credentials.realmId := realmId;
       Credentials.accessToken := Credentials.accessToken current;
       Credentials.entity := entity;
       Credentials.oauthConnected := Some true |}
    ls.

(** [isOAuthConnected]: [credentials?.oauthConnected === true &&
    !!credentials.realmId]. *)
Definition isOAuthConnected (ls : LocalStorage) : bool :=
  match loadCredentials ls with
  | Some credentials =>
      bool_decide (Credentials.oauthConnected credentials = Some true)
      && truthy (Credentials.realmId credentials)
  | None => false
  end.

End QuickBooksStorage.

(* ===================================================================== *)
(** ** Selecting rules *)

(** [prev.includes(ruleId)]. *)
Definition includes (ruleId : string) (prev : list string) : bool :=
  existsb (String.eqb ruleId) prev.

(** The update [handleRuleSelection(ruleId)] applies to the list of
    selected rules. *)
Definition handleRuleSelection (ruleId : string) (prev : list string)
    : list string :=
  if includes ruleId prev
  then List.filter (λ id, negb (String.eqb id ruleId)) prev
  else prev ++ [ruleId].

(* ===================================================================== *)
(** ** Tenants and their records *)

(** The object at [l] belongs to tenant [key]. *)
Definition has_realm (h : gmap nat TokenData) (l : loc) (key : string) : Prop :=
  ∃ td, h !! l = Some td ∧ Token.realmId td = key.

(** Every entry of the token store refers to an object of the tenant
    it is filed under, and every object lies below [nextLoc]. *)
Definition realm_ok (st : State) : Prop :=
  (∀ k l, tokenStore st !! k = Some l → has_realm (heap st) l k)
  ∧ (∀ l td, heap st !! l = Some td → (l < nextLoc st)%nat).

(** Objects stay, and stay with their tenant. *)
Definition extends (st st' : State) : Prop :=
  ∀ l k, has_realm (heap st) l k → has_realm (heap st') l k.

(** Apart from tenant [T], the records are the same. *)
Definition same_elsewhere (T : string) (st st' : State) : Prop :=
  ∀ other, other ≠ T → record_of st' other = record_of st other.

(** An effect that stays with tenant [T]: it files only objects of [T]
    under [T], deletes only the entry of [T], and writes only to
    objects of [T]. *)
Definition confined_op (T : string) {X} (op : Op X) (st : State) : Prop :=
  match op with
  | TokenSet key l => key = T ∧ has_realm (heap st) l T
  | TokenDelete key => key = T
  | WriteIsRefreshing l _ => has_realm (heap st) l T
  | _ => True
  end.

(** A handler that stays with tenant [T] from state [st] on, whatever
    happens to the state while it is suspended, as long as objects stay
    with their tenant. *)
Fixpoint confined (T : string) {A} (p : Proc A) (st : State) : Prop :=
  match p with
  | Ret _ => True
  | Throw _ => True
  | Do op k =>
      confined_op T op st
      ∧ ∀ now, confined T (k (perform op now st).2) (perform op now st).1
  | AwaitFetch _ k =>
      ∀ r st', extends st st' → realm_ok st' → confined T (k r) st'
  | AwaitJson _ k =>
      ∀ j st', extends st st' → realm_ok st' → confined T (k j) st'
  end.

(** A handler that never writes to the token store and never creates
    or changes a token object. *)
Fixpoint quiet {A} (p : Proc A) : Prop :=
  match p with
  | Ret _ => True
  | Throw _ => True
  | Do op k =>
      match op with
      | TokenSet _ _ => False
      | NewObject _ => False
      | TokenDelete _ => False
      | WriteIsRefreshing _ _ => False
      | _ => True
      end ∧ ∀ x, quiet (k x)
  | AwaitFetch _ k => ∀ r, quiet (k r)
  | AwaitJson _ k => ∀ j, quiet (k j)
  end.

Definition suspended_confined (T : string) {A} (s : Suspended A) (st : State)
    : Prop :=
  match s with
  | Finished _ => True
  | OnFetch _ k =>
      ∀ r st', extends st st' → realm_ok st' → confined T (k r) st'
  | OnJson _ k =>
      ∀ j st', extends st st' → realm_ok st' → confined T (k j) st'
  end.

(** The tenant an invocation is for. *)
Definition realm_of_call (c : Call) : string :=
  match c with
  | CallAuthorize _ _ _ => ""
  | CallRouterCallback _ _ realmId _ => realmId
  | CallAppCallback _ _ realmId _ => realmId
  | CallStatus realmId => realmId
  | CallRefresh realmId => realmId
  | CallToken realmId => realmId
  | CallRevoke realmId => realmId
  | CallGetAccessToken realmId => realmId
  end.

(** The invariant of the running process: the store is in order, and
    every invocation in flight stays with some tenant from a state the
    present one extends. *)
Definition orderly (sys : System) : Prop :=
  realm_ok (store sys)
  ∧ Forall (λ s, ∃ T st0, extends st0 (store sys)
                           ∧ suspended_confined T s st0)
           (tasks sys).

(** Under [P], the paths at [P.Q] are the paths at [Q], each behind
    [P.]. *)
Definition relocates (P : string) (v : Value) : Prop :=
  ∀ Q, truthy Q = true →
    extractFieldPaths v (P +:+ "." +:+ Q)
    = (λ q, P +:+ "." +:+ q) <$> extractFieldPaths v Q.

(* ===================================================================== *)
(** ** A concrete deployment, used to run the handlers *)

Module Demo.

Definition env : ProcessEnv :=
  {| QUICKBOOKS_CLIENT_ID := Some "client-id";
     QUICKBOOKS_CLIENT_SECRET := Some "client-secret";
     QUICKBOOKS_REDIRECT_URI := None;
     QUICKBOOKS_ENVIRONMENT := None;
     QUICKBOOKS_SCOPE := None;
     FRONTEND_URL := None |}.

(** The same deployment with [QUICKBOOKS_ENVIRONMENT=constructor]. *)
Definition misconfigured : ProcessEnv :=
  {| QUICKBOOKS_CLIENT_ID := Some "client-id";
     QUICKBOOKS_CLIENT_SECRET := Some "client-secret";
     QUICKBOOKS_REDIRECT_URI := None;
     QUICKBOOKS_ENVIRONMENT := Some "constructor";
     QUICKBOOKS_SCOPE := None;
     FRONTEND_URL := None |}.

(** The provider's answer to the code exchange ... *)
Definition first_grant : TokenJson :=
  {| Json.access_token := "access-1";
     Json.refresh_token := Some "refresh-1";
     Json.expires_in := 3600;
     Json.x_refresh_token_expires_in := Some 8726400;
     Json.error := None |}.

(** ... and to a refresh. *)
Definition second_grant : TokenJson :=
  {| Json.access_token := "access-2";
     Json.refresh_token := Some "refresh-2";
     Json.expires_in := 3600;
     Json.x_refresh_token_expires_in := Some 8726400;
     Json.error := None |}.

Definition invalid_grant : TokenJson :=
  {| Json.access_token := "";
     Json.refresh_token := None;
     Json.expires_in := 0;
     Json.x_refresh_token_expires_in := None;
     Json.error := Some "invalid_grant" |}.

Definition granted (body : TokenJson) : Response :=
  {| status := 200; statusText := "OK"; json := Some body |}.

Definition rejected : Response :=
  {| status := 400; statusText := "Bad Request"; json := Some invalid_grant |}.

(** A provider that accepts every request. *)
Definition provider (req : FetchReq) : FetchResult :=
  match req with
  | ExchangeCode _ _ _ _ _ => FetchResponse (granted first_grant)
  | RefreshGrant _ _ _ _ => FetchResponse (granted second_grant)
  | RevokeToken _ _ _ _ => FetchResponse (granted second_grant)
  end.

(** A provider that rejects every request. *)
Definition rejecting (req : FetchReq) : FetchResult := FetchResponse rejected.

(** A provider that cannot be reached. *)
Definition unreachable (req : FetchReq) : FetchResult :=
  FetchRejects "network timeout".

Definition at_time (t : Z) : nat → Z := λ _, t.

(** The authorization URL was requested at time 0; the state
    ["state-1"] is in the state store. *)
Definition authorizing : State :=
  final (exec (authorize env "http" "localhost:3001" "state-1")
              provider (at_time 0) 0 initial_state).

(** The callback for tenant ["co-1"] arrived one second later: the
    tenant is connected, its access token expires at 3601000. *)
Definition connected : State :=
  final (exec (router_callback env "code-1" "state-1" "co-1" "")
              provider (at_time 1000) 0 authorizing).

(** The record the callback stored. *)
Definition first_record : TokenData :=
  {| Token.accessToken := "access-1";
     Token.refreshToken := Some "refresh-1";
     Token.expiresAt := 3601000;
     Token.refreshTokenExpiresAt := Some 8726401000;
     Token.realmId := "co-1";
     Token.environment := "sandbox";
     Token.updatedAt := 1000;
     Token.isRefreshing := None |}.

(** A time within five minutes of the access token's expiry. *)
Definition stale_time : Z := 3401000.

(** The same history as turns of the event loop: the authorization
    request, the callback, the provider's answer, its body. *)
Definition running : System :=
  settle 0 1000
    (answer 0 (FetchResponse (granted first_grant)) 1000
       (enter env (CallRouterCallback "code-1" "state-1" "co-1" "") 1000
          (enter env (CallAuthorize "http" "localhost:3001" "state-1") 0
             boot))).

End Demo.

(* ===================================================================== *)
(** ** General facts about the interpreters *)

Lemma read_object (st : State) (l : loc) (td : TokenData) :
  heap st !! l = Some td → heap st !!! l = td.
Proof. apply lookup_total_correct. Qed.

(** Writing the flag of an allocated object replaces the object by the
    same object with the flag changed. *)
Lemma alter_flag (h : gmap nat TokenData) (l : loc) (td : TokenData) (b : bool) :
  h !! l = Some td →
  alter (set_isRefreshing b) l h = <[l := set_isRefreshing b td]> h.
Proof.
  intros Hl. apply map_eq. intros l'.
  destruct (decide (l = l')) as [<-|Hne].
  - rewrite lookup_alter_eq, lookup_insert_eq, Hl. reflexivity.
  - rewrite lookup_alter_ne, lookup_insert_ne by done. reflexivity.
Qed.

(** [exec] is the event loop with nothing else running: a handler runs
    a segment, and when it suspends it is resumed on the state it left,
    with the provider's answer, at the next reading of the clock. *)
Lemma exec_run_sync {A} (p : Proc A) (net : FetchReq → FetchResult)
    (clock : nat → Z) (i : nat) (st : State) :
  exec p net clock i st =
    match (run_sync p (clock i) st).2 with
    | Finished r =>
        {| final := (run_sync p (clock i) st).1; result := r; requests := [] |}
    | OnFetch req k =>
        sent req (exec (k (net req)) net clock (S i) (run_sync p (clock i) st).1)
    | OnJson resp k =>
        exec (k (json resp)) net clock (S i) (run_sync p (clock i) st).1
    end.
Proof.
  revert st. induction p as [a|e|X op k IH|req k IH|resp k IH];
    intros st; cbn; try reflexivity.
  apply IH.
Qed.

(** The demo states, as the handlers computed them. *)
Lemma demo_authorizing_store : tokenStore Demo.authorizing !! "co-1" = None.
Proof. vm_compute. reflexivity. Qed.

Lemma demo_authorizing_state :
  oauthStateStore Demo.authorizing !! "state-1" =
    Some {| OAuthState.createdAt := 0;
            OAuthState.redirectUri := "http://localhost:3001/api/oauth/callback" |}.
Proof. vm_compute. reflexivity. Qed.

Lemma demo_connected_store : tokenStore Demo.connected !! "co-1" = Some 0%nat.
Proof. vm_compute. reflexivity. Qed.

Lemma demo_connected_heap : heap Demo.connected !! 0%nat = Some Demo.first_record.
Proof. vm_compute. reflexivity. Qed.

Lemma demo_connected_record :
  record_of Demo.connected "co-1" = Some Demo.first_record.
Proof. vm_compute. reflexivity. Qed.

(* ===================================================================== *)
(** ** Tenants without a record *)

(** C7: for a tenant with no token record, [getAccessToken] fails with
    the not-connected error, [GET /token] answers 404 with
    [requiresAuth], and [GET /status] answers [connected: false]; none
    of the three sends a request or changes the state. *)
Theorem C7_unknown_tenant_is_not_connected (env : ProcessEnv)
    (realmId : string) (st : State)
    (net : FetchReq → FetchResult) (clock : nat → Z) (i : nat) :
  truthy realmId = true →
  tokenStore st !! realmId = None →
  exec (getAccessToken env realmId) net clock i st =
    {| final := st;
       result := Threw "No OAuth tokens found for this realmId. Please connect your QuickBooks account via OAuth.";
       requests := [] |}
  ∧ exec (get_token env realmId) net clock i st =
    {| final := st;
       result := Returned (SendJson 404
         [("success", JBool false);
          ("error", JStr "No tokens found for this realmId. Please connect your QuickBooks account.");
          ("requiresAuth", JBool true)]);
       requests := [] |}
  ∧ exec (get_status realmId) net clock i st =
    {| final := st;
       result := Returned (SendJson 200
         [("success", JBool true); ("connected", JBool false);
          ("message", JStr "No tokens found for this realmId")]);
       requests := [] |}.
Proof.
  intros Htruthy Hnone. repeat split.
  - unfold getAccessToken. rewrite Htruthy. cbn. rewrite Hnone. reflexivity.
  - unfold get_token. rewrite Htruthy. cbn. rewrite Hnone. reflexivity.
  - unfold get_status. rewrite Htruthy. cbn. rewrite Hnone. reflexivity.
Qed.

Lemma C7_unknown_tenant_witness :
  truthy "co-1" = true
  ∧ tokenStore Demo.authorizing !! "co-1" = None
  ∧ exec (getAccessToken Demo.env "co-1") Demo.provider
         (Demo.at_time 500) 0 Demo.authorizing =
    {| final := Demo.authorizing;
       result := Threw "No OAuth tokens found for this realmId. Please connect your QuickBooks account via OAuth.";
       requests := [] |}.
Proof.
  split; [reflexivity|]. split; [exact demo_authorizing_store|].
  exact (proj1 (C7_unknown_tenant_is_not_connected Demo.env "co-1"
                  Demo.authorizing Demo.provider (Demo.at_time 500) 0
                  eq_refl demo_authorizing_store)).
Defined.

(* ===================================================================== *)
(** ** Explicit refresh with an expired refresh token *)

(** C6: when the refresh token's expiry has passed, [POST /refresh]
    answers 401 with [requiresReconnect], sends nothing to the provider
    and deletes the tenant's record, so that [GET /status] then answers
    [connected: false]. *)
Theorem C6_expired_refresh_token_disconnects (env : ProcessEnv)
    (realmId : string) (st : State) (l : loc) (td : TokenData) (e : Z)
    (net : FetchReq → FetchResult) (clock : nat → Z) (i : nat) :
  truthy realmId = true →
  tokenStore st !! realmId = Some l →
  heap st !! l = Some td →
  truthy_opt (Token.refreshToken td) = true →
  Token.refreshTokenExpiresAt td = Some e →
  e ≤ clock i →
  let r := exec (refresh env realmId) net clock i st in
  result r = Returned (SendJson 401
      [("success", JBool false);
       ("error", JStr "Refresh token has expired. Please reconnect your QuickBooks account.");
       ("requiresReconnect", JBool true)])
  ∧ requests r = []
  ∧ final r = {| heap := heap st; nextLoc := nextLoc st;
                 tokenStore := delete realmId (tokenStore st);
                 oauthStateStore := oauthStateStore st |}
  ∧ ∀ net' clock' j,
      exec (get_status realmId) net' clock' j (final r) =
        {| final := final r;
           result := Returned (SendJson 200
             [("success", JBool true); ("connected", JBool false);
              ("message", JStr "No tokens found for this realmId")]);
           requests := [] |}.
Proof.
  intros Htruthy Hstore Hheap Hrefresh Hexpiry Hpassed r. subst r.
  unfold refresh. rewrite Htruthy. cbn. rewrite Hstore. cbn.
  rewrite (read_object _ _ _ Hheap), Hrefresh. cbn. rewrite Hexpiry. cbn.
  replace (e <=? clock i) with true by (symmetry; apply Z.leb_le; done).
  cbn. repeat split.
  intros net' clock' j. unfold get_status. rewrite Htruthy. cbn.
  rewrite lookup_delete_eq. reflexivity.
Qed.

Lemma C6_expired_refresh_token_witness :
  record_of Demo.connected "co-1" = Some Demo.first_record
  ∧ Token.refreshTokenExpiresAt Demo.first_record = Some 8726401000
  ∧ tokenStore
      (final (exec (refresh Demo.env "co-1") Demo.provider
                   (Demo.at_time 8726401000) 0 Demo.connected)) !! "co-1"
    = None.
Proof.
  split; [exact demo_connected_record|]. split; [reflexivity|].
  destruct (C6_expired_refresh_token_disconnects Demo.env "co-1"
              Demo.connected 0%nat Demo.first_record
              8726401000 Demo.provider (Demo.at_time 8726401000) 0
              eq_refl demo_connected_store demo_connected_heap
              eq_refl eq_refl (Z.le_refl _))
    as (_ & _ & Hfinal & _).
  rewrite Hfinal. apply lookup_delete_eq.
Defined.

(* ===================================================================== *)
(** ** Revocation *)

(** C8: whatever the provider does with the revoke request (an answer
    of any status, a network error, a timeout) and whether or not the
    tenant has a record, [POST /revoke] answers [success: true] and
    leaves the tenant without a record, so that [GET /status] then
    answers [connected: false]. *)
Theorem C8_revoke_always_disconnects (env : ProcessEnv) (realmId : string)
    (st : State) (net : FetchReq → FetchResult) (clock : nat → Z) (i : nat) :
  truthy realmId = true →
  let r := exec (revoke env realmId) net clock i st in
  (∃ message,
      result r = Returned (SendJson 200
        [("success", JBool true); ("message", JStr message)]))
  ∧ final r = {| heap := heap st; nextLoc := nextLoc st;
                 tokenStore := delete realmId (tokenStore st);
                 oauthStateStore := oauthStateStore st |}
  ∧ ∀ net' clock' j,
      exec (get_status realmId) net' clock' j (final r) =
        {| final := final r;
           result := Returned (SendJson 200
             [("success", JBool true); ("connected", JBool false);
              ("message", JStr "No tokens found for this realmId")]);
           requests := [] |}.
Proof.
  intros Htruthy r.
  assert (Hfinal : final r = {| heap := heap st; nextLoc := nextLoc st;
                               tokenStore := delete realmId (tokenStore st);
                               oauthStateStore := oauthStateStore st |}
                   ∧ ∃ message,
                     result r = Returned (SendJson 200
                       [("success", JBool true); ("message", JStr message)])).
  { subst r. unfold revoke. rewrite Htruthy. cbn.
    destruct (tokenStore st !! realmId) as [l|] eqn:Hstore; cbn.
    - destruct (net _) as [resp|message]; cbn; split; eauto.
    - rewrite delete_id by done. destruct st; cbn. split; eauto. }
  destruct Hfinal as [Hfinal Hresult]. split; [exact Hresult|].
  split; [exact Hfinal|].
  intros net' clock' j. rewrite Hfinal. unfold get_status.
  rewrite Htruthy. cbn. rewrite lookup_delete_eq. reflexivity.
Qed.

Lemma C8_revoke_witness :
  truthy "co-1" = true
  ∧ record_of Demo.connected "co-1" = Some Demo.first_record
  ∧ tokenStore
      (final (exec (revoke Demo.env "co-1") Demo.unreachable
                   (Demo.at_time 5000) 0 Demo.connected)) !! "co-1" = None.
Proof.
  split; [reflexivity|]. split; [exact demo_connected_record|].
  destruct (C8_revoke_always_disconnects Demo.env "co-1" Demo.connected
              Demo.unreachable (Demo.at_time 5000) 0 eq_refl)
    as (_ & Hfinal & _).
  rewrite Hfinal. apply lookup_delete_eq.
Defined.

(* ===================================================================== *)
(** ** The authorization callback *)

(** The configuration has its URLs unless the environment names a
    property it inherits; then it has none of them. *)
Lemma config_cases (environment : string) :
  OAUTH_CONFIG environment =
    if inherited environment
    then {| authUrl := Undefined; tokenUrl := Undefined;
            revokeUrl := Undefined |}
    else OAUTH_CONFIG_sandbox.
Proof.
  unfold OAUTH_CONFIG.
  destruct (String.eqb environment "sandbox") eqn:Hsandbox.
  { apply String.eqb_eq in Hsandbox as ->. reflexivity. }
  destruct (String.eqb environment "production") eqn:Hproduction.
  { apply String.eqb_eq in Hproduction as ->. reflexivity. }
  reflexivity.
Qed.

Lemma token_url_fixed (environment : string) :
  inherited environment = false →
  tokenUrl (OAUTH_CONFIG environment) = TOKEN_URL.
Proof. intros Hown. rewrite config_cases, Hown. reflexivity. Qed.

Lemma token_url_missing (environment : string) :
  inherited environment = true →
  tokenUrl (OAUTH_CONFIG environment) = Undefined.
Proof. intros Hinherited. rewrite config_cases, Hinherited. reflexivity. Qed.

(** Both routes are [callback_body] at their own base and some URL. *)
Lemma callback_routes_body (env : ProcessEnv) (errorBase : string)
    (route : string → string → string → string → Proc Reply) :
  (errorBase, route) ∈ callback_routes env →
  ∃ url, route = callback_body env errorBase url.
Proof.
  unfold callback_routes. intros Hin.
  apply elem_of_cons in Hin as [[= -> ->]|Hin].
  - eexists. reflexivity.
  - apply elem_of_cons in Hin as [[= -> ->]|Hin].
    + eexists. reflexivity.
    + apply elem_of_nil in Hin. destruct Hin.
Qed.

(** The URL is the one token URL, for the router's route as long as
    its configuration has one. *)
Lemma callback_routes_url (env : ProcessEnv) (errorBase : string)
    (route : string → string → string → string → Proc Reply) :
  (errorBase, route) ∈ callback_routes env →
  (route = router_callback env →
   inherited (configured_environment env) = false) →
  route = callback_body env errorBase TOKEN_URL.
Proof.
  unfold callback_routes. intros Hin Hown.
  apply elem_of_cons in Hin as [[= -> ->]|Hin].
  - unfold router_callback. rewrite (token_url_fixed _ (Hown eq_refl)).
    reflexivity.
  - apply elem_of_cons in Hin as [[= -> ->]|Hin].
    + reflexivity.
    + apply elem_of_nil in Hin. destruct Hin.
Qed.

(** A well-formed callback deletes the state it presents in its first
    segment, before the exchange is sent ... *)
Lemma callback_body_consumes_first (env : ProcessEnv) (errorBase : string)
    (url : Url)
    (code state realmId : string) (sd : StateData) (st : State) (now : Z) :
  truthy code = true → truthy state = true →
  oauthStateStore st !! state = Some sd →
  (run_sync (callback_body env errorBase url code state realmId "") now st).1
  = {| heap := heap st; nextLoc := nextLoc st; tokenStore := tokenStore st;
       oauthStateStore := delete state (oauthStateStore st) |}.
Proof.
  intros Hcode Hstate Hsd. unfold callback_body. cbn.
  rewrite Hcode, Hstate. cbn. rewrite Hsd. reflexivity.
Qed.

(** ... and the state stays deleted whatever the exchange then does. *)
Lemma callback_body_consumes (env : ProcessEnv) (errorBase : string)
    (url : Url)
    (code state realmId : string) (sd : StateData) (st : State)
    (net : FetchReq → FetchResult) (clock : nat → Z) (i : nat) :
  truthy code = true → truthy state = true →
  oauthStateStore st !! state = Some sd →
  oauthStateStore
    (final (exec (callback_body env errorBase url code state realmId "")
                 net clock i st))
  = delete state (oauthStateStore st).
Proof.
  intros Hcode Hstate Hsd. unfold callback_body. cbn.
  rewrite Hcode, Hstate. cbn. rewrite Hsd. cbn.
  destruct (net _) as [resp|message]; cbn; [|reflexivity].
  destruct (ok resp); cbn; [|destruct (json resp); reflexivity].
  destruct (json resp) as [body|]; cbn; [|reflexivity].
  destruct (truthy realmId); reflexivity.
Qed.

(** A callback whose state is not in the store is turned away before
    anything is sent or changed. *)
Lemma callback_body_unknown_state (env : ProcessEnv) (errorBase : string)
    (url : Url)
    (code state realmId : string) (st : State)
    (net : FetchReq → FetchResult) (clock : nat → Z) (i : nat) :
  truthy code = true → truthy state = true →
  oauthStateStore st !! state = None →
  exec (callback_body env errorBase url code state realmId "") net clock i st
  = {| final := st;
       result := Returned (Redirect errorBase
         [("oauth_error", "Invalid or expired state parameter")]);
       requests := [] |}.
Proof.
  intros Hcode Hstate Hnone. unfold callback_body. cbn.
  rewrite Hcode, Hstate. cbn. rewrite Hnone. reflexivity.
Qed.

(** C5: a well-formed callback (code and state present, no provider
    error) whose state is in the state store deletes exactly that state
    record, and does so in its first segment, before the code exchange
    is sent.  Replaying the same callback afterwards is answered with
    the invalid-or-expired-state redirect, and the replay sends nothing
    and changes nothing.  This holds for both callback routes. *)
Theorem C5_state_is_single_use (env : ProcessEnv) (errorBase : string)
    (route : string → string → string → string → Proc Reply)
    (code state realmId : string) (sd : StateData) (st : State)
    (net : FetchReq → FetchResult) (clock : nat → Z) (i : nat) :
  (errorBase, route) ∈ callback_routes env →
  truthy code = true → truthy state = true →
  oauthStateStore st !! state = Some sd →
  let first := exec (route code state realmId "") net clock i st in
  oauthStateStore (run_sync (route code state realmId "") (clock i) st).1
    = delete state (oauthStateStore st)
  ∧ oauthStateStore (final first) = delete state (oauthStateStore st)
  ∧ ∀ net' clock' j,
      exec (route code state realmId "") net' clock' j (final first) =
        {| final := final first;
           result := Returned (Redirect errorBase
             [("oauth_error", "Invalid or expired state parameter")]);
           requests := [] |}.
Proof.
  intros Hroute Hcode Hstate Hsd first. subst first.
  destruct (callback_routes_body _ _ _ Hroute) as [url ->].
  pose proof (callback_body_consumes env errorBase url code state
                realmId sd st net clock i Hcode Hstate Hsd) as Hconsumed.
  split.
  { rewrite (callback_body_consumes_first env errorBase url code state
               realmId sd st (clock i) Hcode Hstate Hsd). reflexivity. }
  split; [exact Hconsumed|].
  intros net' clock' j. apply callback_body_unknown_state; [done..|].
  rewrite Hconsumed. apply lookup_delete_eq.
Qed.

Lemma C5_state_is_single_use_witness :
  oauthStateStore Demo.authorizing !! "state-1" ≠ None
  ∧ result (exec (router_callback Demo.env "code-1" "state-1" "co-1" "")
                 Demo.provider (Demo.at_time 2000) 0 Demo.connected)
    = Returned (Redirect "/"
        [("oauth_error", "Invalid or expired state parameter")]).
Proof.
  split; [rewrite demo_authorizing_state; discriminate|].
  destruct (C5_state_is_single_use Demo.env "/" (router_callback Demo.env)
              "code-1" "state-1" "co-1" _ Demo.authorizing
              Demo.provider (Demo.at_time 1000) 0
              ltac:(left) eq_refl eq_refl demo_authorizing_state)
    as (_ & _ & Hreplay).
  exact (f_equal result (Hreplay Demo.provider (Demo.at_time 2000) 0%nat)).
Defined.

(** The object the callback stores for [realmId] at time [now]. *)
Lemma callback_body_exchanged (env : ProcessEnv) (errorBase : string)
    (url : Url)
    (code state realmId : string) (sd : StateData) (st : State)
    (net : FetchReq → FetchResult) (clock : nat → Z) (i : nat)
    (resp : Response) (body : TokenJson) :
  truthy code = true → truthy state = true →
  oauthStateStore st !! state = Some sd →
  net (ExchangeCode url (QUICKBOOKS_CLIENT_ID env)
         (QUICKBOOKS_CLIENT_SECRET env) code (OAuthState.redirectUri sd))
    = FetchResponse resp →
  ok resp = true → json resp = Some body →
  exec (callback_body env errorBase url code state realmId "") net clock i st
  = {| final :=
         if truthy realmId then
           {| heap :=
                <[nextLoc st :=
                    {| Token.accessToken := Json.access_token body;
                       Token.refreshToken := Json.refresh_token body;
                       Token.expiresAt :=
                         clock (S (S i)) + Json.expires_in body * 1000;
                       Token.refreshTokenExpiresAt :=
                         plus_seconds (clock (S (S i)))
                           (Json.x_refresh_token_expires_in body);
                       Token.realmId := realmId;
                       Token.environment := configured_environment env;
                       Token.updatedAt := clock (S (S i));
                       Token.isRefreshing := None |}]> (heap st);
              nextLoc := S (nextLoc st);
              tokenStore := <[realmId := nextLoc st]> (tokenStore st);
              oauthStateStore := delete state (oauthStateStore st) |}
         else
           {| heap := heap st; nextLoc := nextLoc st;
              tokenStore := tokenStore st;
              oauthStateStore := delete state (oauthStateStore st) |};
       result := Returned (RedirectTo (success_location env realmId));
       requests :=
         [ExchangeCode url (QUICKBOOKS_CLIENT_ID env)
            (QUICKBOOKS_CLIENT_SECRET env) code (OAuthState.redirectUri sd)] |}.
Proof.
  intros Hcode Hstate Hsd Hnet Hok Hjson. unfold callback_body. cbn.
  rewrite Hcode, Hstate. cbn. rewrite Hsd. cbn. rewrite Hnet. cbn.
  rewrite Hok. cbn. rewrite Hjson. cbn.
  destruct (truthy realmId); reflexivity.
Qed.

(** C4, as the code has it: a well-formed callback whose state is in
    the state store and whose code exchange succeeds always yields the
    success redirect, to the front end with the tenant id as it came,
    not encoded.  When the callback presents a tenant id, a fresh
    record for that tenant is stored, its two expiries being the time of
    storing plus the provider's lifetimes (in seconds) times 1000; when
    the tenant id is missing or empty, nothing is stored and the success
    redirect is sent all the same.  The router's route reads the token
    URL from [OAUTH_CONFIG]: for it, [QUICKBOOKS_ENVIRONMENT] is taken
    not to name a property the configuration object inherits. *)
Theorem C4_successful_exchange (env : ProcessEnv) (errorBase : string)
    (route : string → string → string → string → Proc Reply)
    (code state realmId : string) (sd : StateData) (st : State)
    (net : FetchReq → FetchResult) (clock : nat → Z) (i : nat)
    (resp : Response) (body : TokenJson) :
  (errorBase, route) ∈ callback_routes env →
  (route = router_callback env →
   inherited (configured_environment env) = false) →
  truthy code = true → truthy state = true →
  oauthStateStore st !! state = Some sd →
  net (ExchangeCode TOKEN_URL (QUICKBOOKS_CLIENT_ID env)
         (QUICKBOOKS_CLIENT_SECRET env) code (OAuthState.redirectUri sd))
    = FetchResponse resp →
  ok resp = true → json resp = Some body →
  let r := exec (route code state realmId "") net clock i st in
  let now := clock (S (S i)) in
  result r = Returned (RedirectTo (success_location env realmId))
  ∧ (truthy realmId = true →
       record_of (final r) realmId =
         Some {| Token.accessToken := Json.access_token body;
                 Token.refreshToken := Json.refresh_token body;
                 Token.expiresAt := now + Json.expires_in body * 1000;
                 Token.refreshTokenExpiresAt :=
                   plus_seconds now (Json.x_refresh_token_expires_in body);
                 Token.realmId := realmId;
                 Token.environment := configured_environment env;
                 Token.updatedAt := now;
                 Token.isRefreshing := None |}
       ∧ ∀ other, other ≠ realmId →
           tokenStore (final r) !! other = tokenStore st !! other)
  ∧ (truthy realmId = false →
       tokenStore (final r) = tokenStore st ∧ heap (final r) = heap st).
Proof.
  intros Hroute Hown Hcode Hstate Hsd Hnet Hok Hjson r now. subst r now.
  rewrite (callback_routes_url _ _ _ Hroute Hown).
  rewrite (callback_body_exchanged env errorBase TOKEN_URL code state realmId
             sd st net clock i resp body Hcode Hstate Hsd Hnet Hok Hjson).
  cbn. split; [reflexivity|]. split.
  - intros ->. cbn. split.
    + unfold record_of. cbn. rewrite lookup_insert_eq. cbn.
      apply lookup_insert_eq.
    + intros other Hother. apply lookup_insert_ne. congruence.
  - intros ->. cbn. split; reflexivity.
Qed.

Lemma C4_successful_exchange_witness :
  oauthStateStore Demo.authorizing !! "state-1" ≠ None
  ∧ record_of Demo.connected "co-1" = Some Demo.first_record.
Proof.
  split; [rewrite demo_authorizing_state; discriminate|].
  destruct (C4_successful_exchange Demo.env "/" (router_callback Demo.env)
              "code-1" "state-1" "co-1" _ Demo.authorizing
              Demo.provider (Demo.at_time 1000) 0
              (Demo.granted Demo.first_grant) Demo.first_grant
              ltac:(left) (λ _, eq_refl) eq_refl eq_refl
              demo_authorizing_state eq_refl eq_refl eq_refl)
    as (_ & Hstored & _).
  exact (proj1 (Hstored eq_refl)).
Defined.

(** C4 as stated fails: a callback with a valid state and a successful
    exchange but no tenant id is answered with the success redirect
    although no record has been stored. *)
Lemma C4_success_without_record :
  let r := exec (router_callback Demo.env "code-1" "state-1" "" "")
                Demo.provider (Demo.at_time 1000) 0 Demo.authorizing in
  result r = Returned (RedirectTo
               "http://localhost:5173/?oauth_success=true&realmId=")
  ∧ requests r =
      [ExchangeCode TOKEN_URL (Some "client-id") (Some "client-secret")
         "code-1" "http://localhost:3001/api/oauth/callback"]
  ∧ tokenStore (final r) = ∅
  ∧ heap (final r) = ∅.
Proof. vm_compute. repeat split. Qed.

(* ===================================================================== *)
(** ** Age of a state record *)

(** C2 fails on the code: the callback looks the state up and never
    reads [createdAt].  A state issued at time 0 and presented eleven
    minutes later, with no [/authorize] request in between to sweep it,
    is accepted by both routes: the code is exchanged and the tenant is
    connected. *)
Theorem C2_state_older_than_ttl_is_accepted :
  OAuthState.createdAt <$> oauthStateStore Demo.authorizing !! "state-1"
    = Some 0
  ∧ (let r := exec (router_callback Demo.env "code-1" "state-1" "co-1" "")
                   Demo.provider (Demo.at_time 660000) 0 Demo.authorizing in
     result r = Returned (RedirectTo
                  "http://localhost:5173/?oauth_success=true&realmId=co-1")
     ∧ requests r =
         [ExchangeCode TOKEN_URL (Some "client-id") (Some "client-secret")
            "code-1" "http://localhost:3001/api/oauth/callback"]
     ∧ Token.accessToken <$> record_of (final r) "co-1" = Some "access-1")
  ∧ (let r := exec (app_callback Demo.env "code-1" "state-1" "co-1" "")
                   Demo.provider (Demo.at_time 660000) 0 Demo.authorizing in
     result r = Returned (RedirectTo
                  "http://localhost:5173/?oauth_success=true&realmId=co-1")
     ∧ Token.accessToken <$> record_of (final r) "co-1" = Some "access-1").
Proof. vm_compute. repeat split. Qed.

(* ===================================================================== *)
(** ** Refreshes the provider does not grant *)

(** [GET /status] reads the token store and nothing else. *)
Lemma status_connected (realmId : string) (st : State) (l : loc)
    (net : FetchReq → FetchResult) (clock : nat → Z) (i : nat) :
  truthy realmId = true →
  tokenStore st !! realmId = Some l →
  ∃ reply,
    exec (get_status realmId) net clock i st =
      {| final := st; result := Returned reply; requests := [] |}
    ∧ field "connected" reply = Some (JBool true).
Proof.
  intros Htruthy Hstore. unfold get_status. rewrite Htruthy. cbn.
  rewrite Hstore. cbn. eexists. split; reflexivity.
Qed.

Lemma status_not_connected (realmId : string) (st : State)
    (net : FetchReq → FetchResult) (clock : nat → Z) (i : nat) :
  truthy realmId = true →
  tokenStore st !! realmId = None →
  ∃ reply,
    exec (get_status realmId) net clock i st =
      {| final := st; result := Returned reply; requests := [] |}
    ∧ field "connected" reply = Some (JBool false).
Proof.
  intros Htruthy Hstore. unfold get_status. rewrite Htruthy. cbn.
  rewrite Hstore. cbn. eexists. split; reflexivity.
Qed.

(** [getAccessToken] on a stale record nobody is refreshing, when the
    refresh is not granted. *)
Lemma getAccessToken_not_granted (env : ProcessEnv) (realmId : string)
    (st : State) (l : loc) (td : TokenData)
    (net : FetchReq → FetchResult) (clock : nat → Z) (i : nat) :
  let req := RefreshGrant TOKEN_URL (QUICKBOOKS_CLIENT_ID env)
               (QUICKBOOKS_CLIENT_SECRET env) (Token.refreshToken td) in
  truthy realmId = true →
  tokenStore st !! realmId = Some l →
  heap st !! l = Some td →
  Token.expiresAt td - 5 * 60 * 1000 ≤ clock i →
  flag_set td = false →
  match net req with
  | FetchResponse resp => ok resp = false
  | FetchRejects _ => True
  end →
  exec (getAccessToken env realmId) net clock i st =
    {| final := flag_cleared st l td;
       result := Threw match net req with
                       | FetchResponse resp => refusal resp
                       | FetchRejects message => message
                       end;
       requests := [req] |}.
Proof.
  intros req Htruthy Hstore Hheap Hstale Hflag Hfails. subst req.
  unfold getAccessToken. rewrite Htruthy. cbn. rewrite Hstore. cbn.
  rewrite (read_object _ _ _ Hheap), Hflag.
  replace (Token.expiresAt td - 5 * 60 * 1000 <=? clock i) with true
    by (symmetry; apply Z.leb_le; done).
  cbn. rewrite (alter_flag _ _ _ _ Hheap), lookup_total_insert_eq. cbn.
  replace (if String.eqb (configured_environment env) "production"
           then "https://oauth.platform.intuit.com/oauth2/v1/tokens/bearer"
           else "https://oauth.platform.intuit.com/oauth2/v1/tokens/bearer")
    with TOKEN_URL by (destruct (String.eqb _ _); reflexivity).
  unfold flag_cleared.
  destruct (net _) as [resp|message]; cbn.
  - rewrite Hfails. cbn. unfold refusal.
    destruct (json resp); cbn;
      rewrite !alter_insert_eq, !(insert_id _ _ _ Hstore); reflexivity.
  - rewrite !alter_insert_eq, !(insert_id _ _ _ Hstore). reflexivity.
Qed.

(** C10: when [getAccessToken] attempts a refresh and the provider
    answers with a non-ok status, or the request itself fails, the
    failure reaches the caller, and the tenant still has its record:
    the same object, in which only [isRefreshing] has been written (to
    [false]); access token, refresh token and both expiries are as they
    were, and nothing else in the state has changed. *)
Theorem C10_failed_refresh_keeps_record (env : ProcessEnv) (realmId : string)
    (st : State) (l : loc) (td : TokenData)
    (net : FetchReq → FetchResult) (clock : nat → Z) (i : nat) :
  let req := RefreshGrant TOKEN_URL (QUICKBOOKS_CLIENT_ID env)
               (QUICKBOOKS_CLIENT_SECRET env) (Token.refreshToken td) in
  truthy realmId = true →
  tokenStore st !! realmId = Some l →
  heap st !! l = Some td →
  Token.expiresAt td - 5 * 60 * 1000 ≤ clock i →
  flag_set td = false →
  match net req with
  | FetchResponse resp => ok resp = false
  | FetchRejects _ => True
  end →
  let r := exec (getAccessToken env realmId) net clock i st in
  (∃ e, result r = Threw e)
  ∧ requests r = [req]
  ∧ final r = flag_cleared st l td
  ∧ ∃ td',
      record_of (final r) realmId = Some td'
      ∧ Token.isRefreshing td' = Some false
      ∧ Token.accessToken td' = Token.accessToken td
      ∧ Token.refreshToken td' = Token.refreshToken td
      ∧ Token.expiresAt td' = Token.expiresAt td
      ∧ Token.refreshTokenExpiresAt td' = Token.refreshTokenExpiresAt td.
Proof.
  intros req Htruthy Hstore Hheap Hstale Hflag Hfails r. subst r.
  rewrite (getAccessToken_not_granted env realmId st l td net clock i
             Htruthy Hstore Hheap Hstale Hflag Hfails).
  cbn. split; [eauto|]. split; [reflexivity|]. split; [reflexivity|].
  exists (set_isRefreshing false td). split; [|repeat split].
  unfold record_of. cbn. rewrite Hstore. cbn. apply lookup_insert_eq.
Qed.

Lemma C10_failed_refresh_witness :
  record_of Demo.connected "co-1" = Some Demo.first_record
  ∧ record_of
      (final (exec (getAccessToken Demo.env "co-1") Demo.unreachable
                   (Demo.at_time Demo.stale_time) 0 Demo.connected)) "co-1"
    = Some (set_isRefreshing false Demo.first_record).
Proof.
  split; [exact demo_connected_record|].
  destruct (C10_failed_refresh_keeps_record Demo.env "co-1" Demo.connected
              0%nat Demo.first_record Demo.unreachable
              (Demo.at_time Demo.stale_time) 0
              eq_refl demo_connected_store demo_connected_heap
              ltac:(vm_compute; discriminate) eq_refl I)
    as (_ & _ & Hfinal & _).
  rewrite Hfinal. unfold record_of. cbn. rewrite demo_connected_store. cbn.
  apply lookup_insert_eq.
Defined.

(** [POST /refresh] when the provider answers with a non-ok status. *)
Lemma refresh_not_granted (env : ProcessEnv) (realmId : string)
    (st : State) (l : loc) (td : TokenData)
    (net : FetchReq → FetchResult) (clock : nat → Z) (i : nat)
    (resp : Response) :
  let req := RefreshGrant TOKEN_URL (QUICKBOOKS_CLIENT_ID env)
               (QUICKBOOKS_CLIENT_SECRET env) (Token.refreshToken td) in
  inherited (configured_environment env) = false →
  truthy realmId = true →
  tokenStore st !! realmId = Some l →
  heap st !! l = Some td →
  truthy_opt (Token.refreshToken td) = true →
  js_ge (clock i) (Token.refreshTokenExpiresAt td) = false →
  net req = FetchResponse resp →
  ok resp = false →
  exec (refresh env realmId) net clock i st =
    {| final := {| heap := heap st; nextLoc := nextLoc st;
                   tokenStore := delete realmId (tokenStore st);
                   oauthStateStore := oauthStateStore st |};
       result := Returned (SendJson (status resp)
         [("success", JBool false);
          ("error", JStr (refusal resp));
          ("requiresReconnect", JBool true)]);
       requests := [req] |}.
Proof.
  intros req Hown Htruthy Hstore Hheap Hrefresh Hvalid Hnet Hok. subst req.
  unfold refresh. rewrite Htruthy. cbn. rewrite Hstore. cbn.
  rewrite (read_object _ _ _ Hheap), Hrefresh. cbn. rewrite Hvalid. cbn.
  rewrite (token_url_fixed _ Hown), Hnet. cbn. rewrite Hok. cbn.
  unfold refusal. destruct (json resp); reflexivity.
Qed.

(** [GET /token] on a stale record nobody is refreshing, when the
    provider answers with a non-ok status. *)
Lemma get_token_not_granted (env : ProcessEnv) (realmId : string)
    (st : State) (l : loc) (td : TokenData)
    (net : FetchReq → FetchResult) (clock : nat → Z) (i : nat)
    (resp : Response) :
  let req := RefreshGrant TOKEN_URL (QUICKBOOKS_CLIENT_ID env)
               (QUICKBOOKS_CLIENT_SECRET env) (Token.refreshToken td) in
  inherited (configured_environment env) = false →
  truthy realmId = true →
  tokenStore st !! realmId = Some l →
  heap st !! l = Some td →
  Token.expiresAt td - 5 * 60 * 1000 ≤ clock i →
  flag_set td = false →
  net req = FetchResponse resp →
  ok resp = false →
  exec (get_token env realmId) net clock i st =
    {| final := flag_cleared st l td;
       result := Returned (SendJson 401
         [("success", JBool false);
          ("error", JStr "Failed to refresh token. Please reconnect your QuickBooks account.");
          ("requiresReconnect", JBool true)]);
       requests := [req] |}.
Proof.
  intros req Hown Htruthy Hstore Hheap Hstale Hflag Hnet Hok. subst req.
  unfold get_token. rewrite Htruthy. cbn. rewrite Hstore. cbn.
  rewrite (read_object _ _ _ Hheap), Hflag.
  replace (Token.expiresAt td - 5 * 60 * 1000 <=? clock i) with true
    by (symmetry; apply Z.leb_le; done).
  cbn. rewrite (alter_flag _ _ _ _ Hheap), lookup_total_insert_eq. cbn.
  rewrite (token_url_fixed _ Hown), Hnet. cbn. rewrite Hok. cbn.
  rewrite !alter_insert_eq, !(insert_id _ _ _ Hstore). reflexivity.
Qed.

(** C3, as the code has it.  When the provider answers a refresh with a
    non-ok status:
    - [POST /refresh] deletes the tenant's record and answers with the
      provider's status and [requiresReconnect], so that [GET /status]
      then answers [connected: false];
    - [getAccessToken] and [GET /token] fail too (an exception, a 401
      with [requiresReconnect]) but keep the record, with its
      [isRefreshing] flag cleared, so that [GET /status] still answers
      [connected: true].
    The two routes read the token URL from [OAUTH_CONFIG]; they reach
    the provider when [QUICKBOOKS_ENVIRONMENT] does not name a property
    the configuration object inherits.  [getAccessToken] has the URL
    as a literal. *)
Theorem C3_rejected_refresh (env : ProcessEnv) (realmId : string)
    (st : State) (l : loc) (td : TokenData)
    (net : FetchReq → FetchResult) (clock : nat → Z) (i : nat)
    (resp : Response) :
  truthy realmId = true →
  tokenStore st !! realmId = Some l →
  heap st !! l = Some td →
  net (RefreshGrant TOKEN_URL (QUICKBOOKS_CLIENT_ID env)
         (QUICKBOOKS_CLIENT_SECRET env) (Token.refreshToken td))
    = FetchResponse resp →
  ok resp = false →
  (inherited (configured_environment env) = false →
   truthy_opt (Token.refreshToken td) = true →
   js_ge (clock i) (Token.refreshTokenExpiresAt td) = false →
   let r := exec (refresh env realmId) net clock i st in
   result r = Returned (SendJson (status resp)
     [("success", JBool false);
      ("error", JStr (refusal resp));
      ("requiresReconnect", JBool true)])
   ∧ record_of (final r) realmId = None
   ∧ ∀ net' clock' j, ∃ reply,
       result (exec (get_status realmId) net' clock' j (final r))
         = Returned reply
       ∧ field "connected" reply = Some (JBool false))
  ∧ (Token.expiresAt td - 5 * 60 * 1000 ≤ clock i →
     flag_set td = false →
     let r := exec (getAccessToken env realmId) net clock i st in
     let r' := exec (get_token env realmId) net clock i st in
     result r = Threw (refusal resp)
     ∧ final r = flag_cleared st l td
     ∧ (inherited (configured_environment env) = false →
        result r' = Returned (SendJson 401
          [("success", JBool false);
           ("error", JStr "Failed to refresh token. Please reconnect your QuickBooks account.");
           ("requiresReconnect", JBool true)])
        ∧ final r' = flag_cleared st l td)
     ∧ record_of (flag_cleared st l td) realmId
         = Some (set_isRefreshing false td)
     ∧ ∀ net' clock' j, ∃ reply,
         result (exec (get_status realmId) net' clock' j
                      (flag_cleared st l td))
           = Returned reply
         ∧ field "connected" reply = Some (JBool true)).
Proof.
  intros Htruthy Hstore Hheap Hnet Hok. split.
  - intros Hown Hrefresh Hvalid r. subst r.
    rewrite (refresh_not_granted env realmId st l td net clock i resp
               Hown Htruthy Hstore Hheap Hrefresh Hvalid Hnet Hok).
    cbn. split; [reflexivity|]. split.
    + unfold record_of. cbn. rewrite lookup_delete_eq. reflexivity.
    + intros net' clock' j.
      destruct (status_not_connected realmId
                  {| heap := heap st; nextLoc := nextLoc st;
                     tokenStore := delete realmId (tokenStore st);
                     oauthStateStore := oauthStateStore st |}
                  net' clock' j Htruthy (lookup_delete_eq _ _))
        as (reply & Hrun & Hfield).
      exists reply. rewrite Hrun. split; [reflexivity|exact Hfield].
  - intros Hstale Hflag r r'. subst r r'.
    rewrite (getAccessToken_not_granted env realmId st l td net clock i
               Htruthy Hstore Hheap Hstale Hflag);
      [|rewrite Hnet; exact Hok].
    rewrite Hnet. cbn. split; [reflexivity|]. split; [reflexivity|].
    split; [|split].
    + intros Hown.
      rewrite (get_token_not_granted env realmId st l td net clock i resp
                 Hown Htruthy Hstore Hheap Hstale Hflag Hnet Hok).
      split; reflexivity.
    + unfold record_of. cbn. rewrite Hstore. cbn. apply lookup_insert_eq.
    + intros net' clock' j.
      destruct (status_connected realmId (flag_cleared st l td) l
                  net' clock' j Htruthy Hstore)
        as (reply & Hrun & Hfield).
      exists reply. rewrite Hrun. split; [reflexivity|exact Hfield].
Qed.

Lemma C3_rejected_refresh_witness :
  record_of Demo.connected "co-1" = Some Demo.first_record
  ∧ record_of
      (final (exec (refresh Demo.env "co-1") Demo.rejecting
                   (Demo.at_time Demo.stale_time) 0 Demo.connected)) "co-1"
    = None
  ∧ final (exec (getAccessToken Demo.env "co-1") Demo.rejecting
                (Demo.at_time Demo.stale_time) 0 Demo.connected)
    = flag_cleared Demo.connected 0%nat Demo.first_record.
Proof.
  split; [exact demo_connected_record|].
  destruct (C3_rejected_refresh Demo.env "co-1" Demo.connected 0%nat
              Demo.first_record Demo.rejecting
              (Demo.at_time Demo.stale_time) 0 Demo.rejected
              eq_refl demo_connected_store demo_connected_heap
              eq_refl eq_refl)
    as [Hexplicit Hlazy].
  split.
  - exact (proj1 (proj2 (Hexplicit eq_refl eq_refl eq_refl))).
  - exact (proj1 (proj2 (Hlazy ltac:(vm_compute; discriminate) eq_refl))).
Defined.

(** C3 as stated fails for the refresh inside [getAccessToken]: the
    provider rejects the refresh, the call fails, and the tenant is
    still reported as connected, with the record it had. *)
Lemma C3_rejected_auto_refresh_keeps_record :
  let r := exec (getAccessToken Demo.env "co-1") Demo.rejecting
                (Demo.at_time Demo.stale_time) 0 Demo.connected in
  result r = Threw "Failed to refresh token: invalid_grant"
  ∧ record_of (final r) "co-1"
      = Some (set_isRefreshing false Demo.first_record)
  ∧ answered "connected"
      (result (exec (get_status "co-1") Demo.rejecting
                    (Demo.at_time Demo.stale_time) 0 (final r)))
    = Some (JBool true).
Proof. vm_compute. repeat split. Qed.

(* ===================================================================== *)
(** ** The environment of a record *)

Lemma allocates_in_bind (E : string) {A B} (p : Proc A) (f : A → Proc B) :
  allocates_in E p → (∀ a, allocates_in E (f a)) → allocates_in E (bind p f).
Proof.
  intros Hp Hf. induction p as [a|e|X op k IH|req k IH|resp k IH]; cbn in *.
  - apply Hf.
  - exact I.
  - destruct Hp as [Hop Hk]. split; [exact Hop|]. intros x. apply IH, Hk.
  - intros r. apply IH, Hp.
  - intros j. apply IH, Hp.
Qed.

Lemma allocates_in_try_catch (E : string) {A} (p : Proc A)
    (handler : string → Proc A) :
  allocates_in E p → (∀ e, allocates_in E (handler e)) →
  allocates_in E (try_catch p handler).
Proof.
  intros Hp Hh. induction p as [a|e|X op k IH|req k IH|resp k IH]; cbn in *.
  - exact I.
  - apply Hh.
  - destruct Hp as [Hop Hk]. split; [exact Hop|]. intros x. apply IH, Hk.
  - intros r. apply IH, Hp.
  - intros j. apply IH, Hp.
Qed.

Lemma allocates_in_for_each (E : string) {X} (l : list X)
    (body : X → Proc unit) :
  (∀ x, allocates_in E (body x)) → allocates_in E (for_each l body).
Proof.
  intros Hbody. induction l as [|x l IH]; cbn; [exact I|].
  apply allocates_in_bind; [apply Hbody|]. intros _. exact IH.
Qed.

(** Walks through a handler whose shape is known up to the data it
    branches on. *)
Ltac allocation :=
  repeat first
    [ progress cbn
    | progress intros
    | split
    | reflexivity
    | exact I
    | case_match ].

(** Every handler gives the objects it creates the configured
    environment. *)
Lemma program_allocates (env : ProcessEnv) (c : Call) :
  allocates_in (configured_environment env) (program env c).
Proof.
  destruct c;
    unfold program, authorize, router_callback, app_callback, callback_body,
      get_status, refresh, get_token, revoke, getAccessToken;
    [|allocation..].
  apply allocates_in_bind; [|allocation].
  apply allocates_in_try_catch; [|allocation].
  cbn. case_match; [exact I|].
  allocation;
    (apply allocates_in_bind; [|allocation]);
    apply allocates_in_for_each; intros [key value]; allocation.
Qed.

Lemma perform_heap_in (E : string) {X} (op : Op X) (now : Z) (st : State) :
  heap_in E st →
  match op with
  | NewObject o => Token.environment o = E
  | _ => True
  end →
  heap_in E (perform op now st).1.
Proof.
  intros Hheap Hop. destruct op; cbn; try exact Hheap.
  - intros l' td Hl'. cbn in Hl'.
    apply lookup_insert_Some in Hl' as [[_ <-]|[_ Hl']]; [exact Hop|].
    exact (Hheap _ _ Hl').
  - intros l' td Hl'. cbn in Hl'.
    apply lookup_alter_Some in Hl' as [(_ & td0 & Htd0 & ->)|[_ Hl']].
    + exact (Hheap _ _ Htd0).
    + exact (Hheap _ _ Hl').
Qed.

Lemma run_sync_heap_in (E : string) {A} (p : Proc A) (now : Z) (st : State) :
  heap_in E st → allocates_in E p →
  heap_in E (run_sync p now st).1 ∧ suspended_in E (run_sync p now st).2.
Proof.
  revert st. induction p as [a|e|X op k IH|req k IH|resp k IH];
    intros st Hheap Hp; cbn in *.
  - split; [exact Hheap|exact I].
  - split; [exact Hheap|exact I].
  - destruct Hp as [Hop Hk]. apply IH; [|apply Hk].
    apply perform_heap_in; assumption.
  - split; [exact Hheap|exact Hp].
  - split; [exact Hheap|exact Hp].
Qed.

Lemma exec_heap_in (E : string) {A} (p : Proc A)
    (net : FetchReq → FetchResult) (clock : nat → Z) (i : nat) (st : State) :
  heap_in E st → allocates_in E p →
  heap_in E (final (exec p net clock i st)).
Proof.
  revert st i. induction p as [a|e|X op k IH|req k IH|resp k IH];
    intros st i Hheap Hp; cbn in *.
  - exact Hheap.
  - exact Hheap.
  - destruct Hp as [Hop Hk]. apply IH; [|apply Hk].
    apply perform_heap_in; assumption.
  - apply IH; [exact Hheap|apply Hp].
  - apply IH; [exact Hheap|apply Hp].
Qed.

(** Wrapping the result of a handler does not change what it does. *)
Lemma exec_fmap_final {A B} (f : A → B) (p : Proc A)
    (net : FetchReq → FetchResult) (clock : nat → Z) (i : nat) (st : State) :
  final (exec (f <$> p) net clock i st) = final (exec p net clock i st).
Proof.
  revert i st. induction p as [a|e|X op k IH|req k IH|resp k IH];
    intros i st; cbn; try reflexivity; apply IH.
Qed.

Lemma step_consistent (env : ProcessEnv) (sys sys' : System) :
  consistent (configured_environment env) sys →
  step env sys sys' →
  consistent (configured_environment env) sys'.
Proof.
  intros [Hheap Htasks] Hstep.
  destruct Hstep as [sys c now|sys n r now|sys n now].
  - destruct (run_sync_heap_in (configured_environment env)
                (program env c) now (store sys) Hheap
                (program_allocates env c)) as [Hheap' Hs].
    split; cbn; [exact Hheap'|]. constructor; assumption.
  - unfold answer. destruct (tasks sys !! n) as [s|] eqn:Hn; [|split; assumption].
    pose proof (Forall_lookup_1 _ _ _ _ Htasks Hn) as Hs.
    assert (heap_in (configured_environment env)
              (resume_fetch s r now (store sys)).1
            ∧ suspended_in (configured_environment env)
                (resume_fetch s r now (store sys)).2) as [Hheap' Hs'].
    { destruct s as [res|req k|resp k]; cbn.
      - split; [exact Hheap|exact I].
      - apply run_sync_heap_in; [exact Hheap|apply Hs].
      - split; [exact Hheap|exact Hs]. }
    split; cbn; [exact Hheap'|]. apply Forall_insert; assumption.
  - unfold settle. destruct (tasks sys !! n) as [s|] eqn:Hn; [|split; assumption].
    pose proof (Forall_lookup_1 _ _ _ _ Htasks Hn) as Hs.
    assert (heap_in (configured_environment env)
              (resume_json s now (store sys)).1
            ∧ suspended_in (configured_environment env)
                (resume_json s now (store sys)).2) as [Hheap' Hs'].
    { destruct s as [res|req k|resp k]; cbn.
      - split; [exact Hheap|exact I].
      - split; [exact Hheap|exact Hs].
      - apply run_sync_heap_in; [exact Hheap|apply Hs]. }
    split; cbn; [exact Hheap'|]. apply Forall_insert; assumption.
Qed.

Lemma reachable_consistent (env : ProcessEnv) (sys : System) :
  reachable env sys → consistent (configured_environment env) sys.
Proof.
  induction 1 as [|sys sys' _ IH Hstep].
  - split; cbn; [|constructor]. intros l td Hl. cbn in Hl.
    rewrite lookup_empty in Hl. discriminate.
  - exact (step_consistent env sys sys' IH Hstep).
Qed.

Lemma record_environment (E : string) (st : State) (realmId : string)
    (td : TokenData) :
  heap_in E st → record_of st realmId = Some td → Token.environment td = E.
Proof.
  intros Hheap Hrecord. unfold record_of in Hrecord.
  destruct (tokenStore st !! realmId) as [l|]; [|discriminate].
  exact (Hheap l td Hrecord).
Qed.

(** C9: in every state the process can reach, a refresh never changes
    the environment of a tenant's record.  Whatever the provider
    answers, if the tenant has a record after [POST /refresh],
    [GET /token] or [getAccessToken] has run, that record has the
    environment of the record the tenant had before; and the same holds
    across every single turn of the event loop, so also for a refresh
    that is interleaved with other requests. *)
Theorem C9_refresh_preserves_environment (env : ProcessEnv) (sys : System)
    (realmId : string) (old : TokenData)
    (net : FetchReq → FetchResult) (clock : nat → Z) (i : nat) :
  reachable env sys →
  record_of (store sys) realmId = Some old →
  (∀ new,
     record_of (final (exec (refresh env realmId) net clock i (store sys)))
               realmId = Some new →
     Token.environment new = Token.environment old)
  ∧ (∀ new,
     record_of (final (exec (get_token env realmId) net clock i (store sys)))
               realmId = Some new →
     Token.environment new = Token.environment old)
  ∧ (∀ new,
     record_of (final (exec (getAccessToken env realmId) net clock i
                            (store sys)))
               realmId = Some new →
     Token.environment new = Token.environment old)
  ∧ (∀ sys' new,
     step env sys sys' →
     record_of (store sys') realmId = Some new →
     Token.environment new = Token.environment old).
Proof.
  intros Hreach Hold.
  pose proof (reachable_consistent env sys Hreach) as Hsys.
  pose proof Hsys as [Hheap _].
  rewrite (record_environment _ _ _ _ Hheap Hold).
  pose proof (program_allocates env (CallRefresh realmId)) as Hrefresh.
  pose proof (program_allocates env (CallToken realmId)) as Htoken.
  pose proof (program_allocates env (CallGetAccessToken realmId)) as Hmanager.
  repeat split; intros.
  - eapply record_environment; [|eassumption].
    rewrite <- (exec_fmap_final (@inl Reply Granted.t)).
    apply exec_heap_in; [exact Hheap|exact Hrefresh].
  - eapply record_environment; [|eassumption].
    rewrite <- (exec_fmap_final (@inl Reply Granted.t)).
    apply exec_heap_in; [exact Hheap|exact Htoken].
  - eapply record_environment; [|eassumption].
    rewrite <- (exec_fmap_final (@inr Reply Granted.t)).
    apply exec_heap_in; [exact Hheap|exact Hmanager].
  - eapply record_environment; [|eassumption].
    eapply step_consistent; eassumption.
Qed.

Lemma demo_running_reachable : reachable Demo.env Demo.running.
Proof.
  unfold Demo.running.
  eapply reachable_step; [|apply step_settle].
  eapply reachable_step; [|apply step_answer].
  eapply reachable_step; [|apply step_enter].
  eapply reachable_step; [|apply step_enter].
  apply reachable_boot.
Qed.

Lemma demo_running_record :
  record_of (store Demo.running) "co-1" = Some Demo.first_record.
Proof. vm_compute. reflexivity. Qed.

Lemma demo_running_refreshed :
  record_of
    (final (exec (refresh Demo.env "co-1") Demo.provider
                 (Demo.at_time Demo.stale_time) 0 (store Demo.running)))
    "co-1"
  = Some {| Token.accessToken := "access-2";
            Token.refreshToken := Some "refresh-2";
            Token.expiresAt := 7001000;
            Token.refreshTokenExpiresAt := Some 8729801000;
            Token.realmId := "co-1";
            Token.environment := "sandbox";
            Token.updatedAt := 3401000;
            Token.isRefreshing := None |}.
Proof. vm_compute. reflexivity. Qed.

Lemma C9_refresh_preserves_environment_witness :
  record_of (store Demo.running) "co-1" = Some Demo.first_record
  ∧ ∃ new,
      record_of
        (final (exec (refresh Demo.env "co-1") Demo.provider
                     (Demo.at_time Demo.stale_time) 0 (store Demo.running)))
        "co-1" = Some new
      ∧ Token.accessToken new = "access-2"
      ∧ Token.environment new = Token.environment Demo.first_record.
Proof.
  split; [exact demo_running_record|].
  eexists. split; [exact demo_running_refreshed|]. split; [reflexivity|].
  exact (proj1 (C9_refresh_preserves_environment Demo.env Demo.running
                  "co-1" Demo.first_record Demo.provider
                  (Demo.at_time Demo.stale_time) 0
                  demo_running_reachable demo_running_record)
               _ demo_running_refreshed).
Defined.

(* ===================================================================== *)
(** ** Concurrent calls of [getAccessToken] *)


(** So does [GET /token], which tests the same flag of the same
    object: while a refresh is in flight it answers 200 with the stored
    access token. *)
Lemma get_token_while_refreshing (env : ProcessEnv) (realmId : string)
    (st : State) (l : loc) (td : TokenData) (now : Z) :
  truthy realmId = true →
  tokenStore st !! realmId = Some l →
  heap st !! l = Some td →
  flag_set td = true →
  run_sync (get_token env realmId) now st =
    (st, Finished (Returned (SendJson 200
           [("success", JBool true);
            ("accessToken", JStr (Token.accessToken td));
            ("realmId", JStr (Token.realmId td));
            ("expiresAt", JNum (Token.expiresAt td));
            ("expiresIn",
             JNum (Z.max 0 ((Token.expiresAt td - now) `div` 1000)))]))).
Proof.
  intros Htruthy Hstore Hheap Hflag.
  unfold get_token. rewrite Htruthy. cbn. rewrite Hstore. cbn.
  rewrite (read_object _ _ _ Hheap), Hflag, andb_false_r. cbn.
  rewrite (read_object _ _ _ Hheap). reflexivity.
Qed.


(** The first call on a stale record nobody is refreshing raises the
    flag and suspends on the refresh request. *)
Lemma getAccessToken_starts_refresh (env : ProcessEnv) (realmId : string)
    (st : State) (l : loc) (td : TokenData) (now : Z) :
  truthy realmId = true →
  tokenStore st !! realmId = Some l →
  heap st !! l = Some td →
  flag_set td = false →
  Token.expiresAt td - 5 * 60 * 1000 ≤ now →
  let first := run_sync (getAccessToken env realmId) now st in
  first.1 = flag_raised st l td
  ∧ observe first.2 =
      AwaitingFetch (RefreshGrant TOKEN_URL (QUICKBOOKS_CLIENT_ID env)
                       (QUICKBOOKS_CLIENT_SECRET env) (Token.refreshToken td))
  ∧ (∀ resp body t1 t2,
       ok resp = true → json resp = Some body →
       let fetched :=
         resume_fetch first.2 (FetchResponse resp) t1 (flag_raised st l td) in
       let settled := resume_json fetched.2 t2 fetched.1 in
       observe fetched.2 = AwaitingJson
       ∧ observe settled.2 =
           Resolved (Returned
             {| Granted.accessToken := Json.access_token body;
                Granted.realmId := realmId |})
       ∧ Token.accessToken <$> record_of settled.1 realmId
           = Some (Json.access_token body))
  ∧ (∀ resp t1 t2,
       ok resp = false →
       let fetched :=
         resume_fetch first.2 (FetchResponse resp) t1 (flag_raised st l td) in
       let settled := resume_json fetched.2 t2 fetched.1 in
       observe fetched.2 = AwaitingJson
       ∧ observe settled.2 = Resolved (Threw (refusal resp))
       ∧ settled.1 = flag_cleared st l td)
  ∧ (∀ message t1,
       let fetched :=
         resume_fetch first.2 (FetchRejects message) t1 (flag_raised st l td) in
       observe fetched.2 = Resolved (Threw message)
       ∧ fetched.1 = flag_cleared st l td).
Proof.
  intros Htruthy Hstore Hheap Hflag Hstale first. subst first.
  unfold getAccessToken. rewrite Htruthy. cbn. rewrite Hstore. cbn.
  rewrite (read_object _ _ _ Hheap), Hflag.
  replace (Token.expiresAt td - 5 * 60 * 1000 <=? now) with true
    by (symmetry; apply Z.leb_le; done).
  cbn. rewrite (alter_flag _ _ _ _ Hheap), lookup_total_insert_eq. cbn.
  rewrite (insert_id _ _ _ Hstore).
  replace (if String.eqb (configured_environment env) "production"
           then "https://oauth.platform.intuit.com/oauth2/v1/tokens/bearer"
           else "https://oauth.platform.intuit.com/oauth2/v1/tokens/bearer")
    with TOKEN_URL by (destruct (String.eqb _ _); reflexivity).
  split; [reflexivity|]. split; [reflexivity|]. split; [|split].
  - intros resp body t1 t2 Hok Hjson. cbn. rewrite Hok. cbn.
    split; [reflexivity|]. rewrite Hjson. cbn.
    rewrite !lookup_total_insert_eq. cbn. split; [reflexivity|].
    unfold record_of. cbn. rewrite lookup_insert_eq. cbn.
    rewrite lookup_insert_eq. reflexivity.
  - intros resp t1 t2 Hok. cbn. rewrite Hok. cbn.
    split; [reflexivity|]. unfold refusal, flag_cleared.
    destruct (json resp); cbn;
      rewrite !alter_insert_eq, !(insert_id _ _ _ Hstore); split; reflexivity.
  - intros message t1. cbn. split; [reflexivity|].
    unfold flag_cleared. rewrite alter_insert_eq. reflexivity.
Qed.




(* ===================================================================== *)
(** ** Requests that are turned away *)

(** X1: a request without [realmId] (missing or empty) never reaches
    the store: [POST /refresh], [GET /token] and [POST /revoke] answer
    400, [getAccessToken] throws, [GET /status] answers
    [connected: false], and the middleware calls [next()] without a
    token; nothing is sent and nothing changes. *)
Theorem missing_realm_is_refused (env : ProcessEnv) (st : State)
    (net : FetchReq → FetchResult) (clock : nat → Z) (i : nat) :
  let refused := Returned (SendJson 400
        [("success", JBool false); ("error", JStr "realmId is required")]) in
  exec (refresh env "") net clock i st
    = {| final := st; result := refused; requests := [] |}
  ∧ exec (get_token env "") net clock i st
    = {| final := st; result := refused; requests := [] |}
  ∧ exec (revoke env "") net clock i st
    = {| final := st; result := refused; requests := [] |}
  ∧ exec (getAccessToken env "") net clock i st
    = {| final := st; result := Threw "realmId is required"; requests := [] |}
  ∧ exec (get_status "") net clock i st
    = {| final := st;
         result := Returned (SendJson 200
           [("success", JBool true); ("connected", JBool false);
            ("message", JStr "No realmId provided")]);
         requests := [] |}
  ∧ exec (injectOAuthToken env "" "") net clock i st
    = {| final := st; result := Returned (Next ""); requests := [] |}.
Proof. repeat split. Qed.

(** X2: [POST /refresh] for a tenant that has no record, or whose
    record holds no refresh token (absent or empty), answers 404; the
    record, if any, stays, whatever its expiries, and nothing is
    sent. *)
Theorem refresh_without_refresh_token (env : ProcessEnv) (realmId : string)
    (st : State) (net : FetchReq → FetchResult) (clock : nat → Z) (i : nat) :
  truthy realmId = true →
  match tokenStore st !! realmId with
  | None => True
  | Some l =>
      ∃ td, heap st !! l = Some td
            ∧ truthy_opt (Token.refreshToken td) = false
  end →
  exec (refresh env realmId) net clock i st =
    {| final := st;
       result := Returned (SendJson 404
         [("success", JBool false);
          ("error", JStr "No refresh token found for this realmId")]);
       requests := [] |}.
Proof.
  intros Htruthy Hrecord. unfold refresh. rewrite Htruthy. cbn.
  destruct (tokenStore st !! realmId) as [l|]; cbn; [|reflexivity].
  destruct Hrecord as (td & Hheap & Hnone).
  rewrite (read_object _ _ _ Hheap), Hnone. reflexivity.
Qed.

Lemma refresh_without_refresh_token_witness :
  exec (refresh Demo.env "co-1") Demo.provider (Demo.at_time 500) 0
       Demo.authorizing =
    {| final := Demo.authorizing;
       result := Returned (SendJson 404
         [("success", JBool false);
          ("error", JStr "No refresh token found for this realmId")]);
       requests := [] |}.
Proof.
  apply refresh_without_refresh_token; [reflexivity|].
  rewrite demo_authorizing_store. exact I.
Defined.

(** X3: a callback that carries the provider's [error], or lacks the
    code or the state, is redirected with that error by both routes
    before the state store is read: the state it names, valid or not,
    is not consumed, and nothing is sent. *)
Theorem callback_turned_away (env : ProcessEnv) (errorBase : string)
    (route : string → string → string → string → Proc Reply)
    (code state realmId error : string) (st : State)
    (net : FetchReq → FetchResult) (clock : nat → Z) (i : nat) :
  (errorBase, route) ∈ callback_routes env →
  truthy error = true ∨ truthy code = false ∨ truthy state = false →
  exec (route code state realmId error) net clock i st =
    {| final := st;
       result := Returned (Redirect errorBase
         [("oauth_error",
           if truthy error then error
           else "Missing authorization code or state")]);
       requests := [] |}.
Proof.
  intros Hroute Hbad. destruct (callback_routes_body _ _ _ Hroute) as [url ->].
  unfold callback_body. cbn.
  destruct (truthy error); [reflexivity|].
  destruct Hbad as [Hbad|[-> | ->]]; [discriminate|reflexivity|].
  rewrite orb_true_r. reflexivity.
Qed.

Lemma callback_turned_away_witness :
  oauthStateStore Demo.authorizing !! "state-1" ≠ None
  ∧ exec (app_callback Demo.env "code-1" "state-1" "co-1" "access_denied")
         Demo.provider (Demo.at_time 500) 0 Demo.authorizing =
    {| final := Demo.authorizing;
       result := Returned (Redirect "http://localhost:5173/"
                   [("oauth_error", "access_denied")]);
       requests := [] |}.
Proof.
  split; [rewrite demo_authorizing_state; discriminate|].
  exact (callback_turned_away Demo.env (frontend Demo.env)
           (app_callback Demo.env) "code-1" "state-1" "co-1" "access_denied"
           Demo.authorizing Demo.provider (Demo.at_time 500) 0
           ltac:(right; left) (or_introl eq_refl)).
Defined.

(** X4: when the code exchange does not yield tokens (the request
    fails, the provider answers with a non-ok status, or the body of an
    ok answer does not parse), both callback routes redirect with an
    error; the state has been consumed all the same, one request has
    been sent, and no token record has been created or changed.  The
    router's route reads the token URL from [OAUTH_CONFIG]: for it,
    [QUICKBOOKS_ENVIRONMENT] is taken not to name a property the
    configuration object inherits. *)
Theorem callback_exchange_failure (env : ProcessEnv) (errorBase : string)
    (route : string → string → string → string → Proc Reply)
    (code state realmId : string) (sd : StateData) (st : State)
    (net : FetchReq → FetchResult) (clock : nat → Z) (i : nat) :
  let req := ExchangeCode TOKEN_URL (QUICKBOOKS_CLIENT_ID env)
               (QUICKBOOKS_CLIENT_SECRET env) code
               (OAuthState.redirectUri sd) in
  (errorBase, route) ∈ callback_routes env →
  (route = router_callback env →
   inherited (configured_environment env) = false) →
  truthy code = true → truthy state = true →
  oauthStateStore st !! state = Some sd →
  match net req with
  | FetchRejects _ => True
  | FetchResponse resp => ok resp = false ∨ json resp = None
  end →
  let r := exec (route code state realmId "") net clock i st in
  (∃ message,
     result r = Returned (Redirect errorBase [("oauth_error", message)])
     ∧ match net req with
       | FetchRejects reason => message = "OAuth callback failed: " +:+ reason
       | FetchResponse resp =>
           ok resp = false →
           message = "Failed to exchange authorization code for tokens"
       end)
  ∧ requests r = [req]
  ∧ final r = {| heap := heap st; nextLoc := nextLoc st;
                 tokenStore := tokenStore st;
                 oauthStateStore := delete state (oauthStateStore st) |}.
Proof.
  intros req Hroute Hown Hcode Hstate Hsd Hfails r. subst r req.
  rewrite (callback_routes_url _ _ _ Hroute Hown).
  unfold callback_body. cbn. rewrite Hcode, Hstate. cbn. rewrite Hsd. cbn.
  destruct (net _) as [resp|reason]; cbn.
  - destruct (ok resp) eqn:Hok; cbn.
    + destruct Hfails as [Hfails|Hjson]; [discriminate|].
      rewrite Hjson. cbn. split; [|split; reflexivity].
      eexists. split; [reflexivity|]. discriminate.
    + destruct (json resp); cbn; (split; [|split; reflexivity]);
        eexists; (split; [reflexivity|]); reflexivity.
  - split; [|split; reflexivity]. eexists. split; reflexivity.
Qed.

Lemma callback_exchange_failure_witness :
  oauthStateStore Demo.authorizing !! "state-1" ≠ None
  ∧ (let r := exec (router_callback Demo.env "code-1" "state-1" "co-1" "")
                   Demo.rejecting (Demo.at_time 1000) 0 Demo.authorizing in
     oauthStateStore (final r) !! "state-1" = None
     ∧ tokenStore (final r) = tokenStore Demo.authorizing).
Proof.
  split; [rewrite demo_authorizing_state; discriminate|].
  destruct (callback_exchange_failure Demo.env "/" (router_callback Demo.env)
              "code-1" "state-1" "co-1" _ Demo.authorizing
              Demo.rejecting (Demo.at_time 1000) 0
              ltac:(left) (λ _, eq_refl) eq_refl eq_refl
              demo_authorizing_state (or_introl eq_refl))
    as (_ & _ & Hfinal).
  cbv zeta. rewrite Hfinal. cbn. split; [apply lookup_delete_eq|reflexivity].
Defined.

(** X5: without a client id or a client secret (unset or empty),
    [GET /authorize] answers 500 and issues no state: the state store
    is as it was. *)
Theorem authorize_unconfigured (env : ProcessEnv)
    (protocol host randomState : string) (st : State)
    (net : FetchReq → FetchResult) (clock : nat → Z) (i : nat) :
  truthy_opt (QUICKBOOKS_CLIENT_ID env) = false
  ∨ truthy_opt (QUICKBOOKS_CLIENT_SECRET env) = false →
  exec (authorize env protocol host randomState) net clock i st =
    {| final := st;
       result := Returned (SendJson 500
         [("success", JBool false);
          ("error", JStr "QuickBooks OAuth credentials not configured. Please set QUICKBOOKS_CLIENT_ID and QUICKBOOKS_CLIENT_SECRET in your .env file.")]);
       requests := [] |}.
Proof.
  intros Hmissing. unfold authorize. cbn.
  destruct Hmissing as [-> | ->]; cbn; [reflexivity|].
  rewrite orb_true_r. reflexivity.
Qed.

Lemma authorize_unconfigured_witness :
  result (exec (authorize
                  {| QUICKBOOKS_CLIENT_ID := Some "client-id";
                     QUICKBOOKS_CLIENT_SECRET := Some "";
                     QUICKBOOKS_REDIRECT_URI := None;
                     QUICKBOOKS_ENVIRONMENT := None;
                     QUICKBOOKS_SCOPE := None;
                     FRONTEND_URL := None |}
                  "http" "localhost:3001" "state-1")
               Demo.provider (Demo.at_time 0) 0 initial_state)
  = Returned (SendJson 500
      [("success", JBool false);
       ("error", JStr "QuickBooks OAuth credentials not configured. Please set QUICKBOOKS_CLIENT_ID and QUICKBOOKS_CLIENT_SECRET in your .env file.")]).
Proof.
  rewrite authorize_unconfigured; [reflexivity|]. right. reflexivity.
Defined.

(* ===================================================================== *)
(** ** Issuing and sweeping states *)

Lemma swept_cons (threshold : Z) (key : string) (value : StateData)
    (entries : list (string * StateData)) (m : gmap string StateData) :
  swept threshold ((key, value) :: entries) m =
    swept threshold entries
      (if OAuthState.createdAt value <? threshold then delete key m else m).
Proof. reflexivity. Qed.

Lemma swept_absent (threshold : Z) (entries : list (string * StateData))
    (m : gmap string StateData) (k : string) :
  m !! k = None → swept threshold entries m !! k = None.
Proof.
  revert m. induction entries as [|[key value] entries IH]; intros m Hm.
  - exact Hm.
  - rewrite swept_cons. apply IH.
    destruct (OAuthState.createdAt value <? threshold); [|exact Hm].
    destruct (decide (key = k)) as [->|Hne].
    + apply lookup_delete_eq.
    + rewrite lookup_delete_ne by done. exact Hm.
Qed.

Lemma swept_old (threshold : Z) (entries : list (string * StateData))
    (m : gmap string StateData) (k : string) (v : StateData) :
  (k, v) ∈ entries →
  (OAuthState.createdAt v <? threshold) = true →
  swept threshold entries m !! k = None.
Proof.
  revert m. induction entries as [|[key value] entries IH]; intros m Hin Hold.
  - apply elem_of_nil in Hin. destruct Hin.
  - rewrite swept_cons. apply elem_of_cons in Hin as [[= <- <-]|Hin].
    + rewrite Hold. apply swept_absent, lookup_delete_eq.
    + apply IH; assumption.
Qed.

Lemma swept_kept (threshold : Z) (entries : list (string * StateData))
    (m : gmap string StateData) (k : string) :
  (∀ v, (k, v) ∈ entries → (OAuthState.createdAt v <? threshold) = false) →
  swept threshold entries m !! k = m !! k.
Proof.
  revert m. induction entries as [|[key value] entries IH]; intros m Hkept.
  - reflexivity.
  - rewrite swept_cons, IH.
    + destruct (OAuthState.createdAt value <? threshold) eqn:Hold;
        [|reflexivity].
      apply lookup_delete_ne. intros ->.
      rewrite (Hkept value) in Hold; [discriminate|]. left.
    + intros v Hin. apply Hkept. right. exact Hin.
Qed.

(** Sweeping a map over its own entries keeps exactly the entries that
    are not older than the threshold. *)
Lemma swept_lookup (threshold : Z) (m : gmap string StateData) (k : string) :
  swept threshold (map_to_list m) m !! k =
    match m !! k with
    | Some v =>
        if OAuthState.createdAt v <? threshold then None else Some v
    | None => None
    end.
Proof.
  destruct (m !! k) as [v|] eqn:Hk.
  - destruct (OAuthState.createdAt v <? threshold) eqn:Hold.
    + apply (swept_old _ _ _ _ v); [|exact Hold].
      apply elem_of_map_to_list. exact Hk.
    + rewrite swept_kept; [exact Hk|].
      intros v' Hin. apply elem_of_map_to_list in Hin.
      rewrite Hk in Hin. injection Hin as <-. exact Hold.
  - apply swept_absent. exact Hk.
Qed.

(** The loop of [GET /authorize], run inside its [try]. *)
Lemma exec_sweep {A} (threshold : Z) (entries : list (string * StateData))
    (rest : unit → Proc A) (handler : string → Proc A)
    (net : FetchReq → FetchResult) (clock : nat → Z) (i : nat) (st : State) :
  exec (try_catch
          (bind (for_each entries (λ '(key, value),
                   if OAuthState.createdAt value <? threshold
                   then do (StateDelete key) else Ret tt))
                rest)
          handler) net clock i st
  = exec (try_catch (rest tt) handler) net clock i
      {| heap := heap st; nextLoc := nextLoc st; tokenStore := tokenStore st;
         oauthStateStore := swept threshold entries (oauthStateStore st) |}.
Proof.
  revert st. induction entries as [|[key value] entries IH]; intros st.
  - cbn. destruct st; reflexivity.
  - rewrite swept_cons. cbn [for_each]. unfold mbind, Proc_bind.
    destruct (OAuthState.createdAt value <? threshold) eqn:Hold;
      cbn; rewrite IH; reflexivity.
Qed.

(** What a configured [GET /authorize] answers and leaves in the store,
    in full. *)
Lemma authorize_run (env : ProcessEnv)
    (protocol host randomState : string) (st : State)
    (net : FetchReq → FetchResult) (clock : nat → Z) (i : nat) :
  truthy_opt (QUICKBOOKS_CLIENT_ID env) = true →
  truthy_opt (QUICKBOOKS_CLIENT_SECRET env) = true →
  let redirectUri :=
    or_default (QUICKBOOKS_REDIRECT_URI env)
               (protocol +:+ "://" +:+ host +:+ "/api/oauth/callback") in
  exec (authorize env protocol host randomState) net clock i st =
    {| final :=
         {| heap := heap st; nextLoc := nextLoc st;
            tokenStore := tokenStore st;
            oauthStateStore :=
              swept (clock i - 10 * 60 * 1000)
                (map_to_list
                   (<[randomState :=
                        {| OAuthState.createdAt := clock i;
                           OAuthState.redirectUri := redirectUri |}]>
                      (oauthStateStore st)))
                (<[randomState :=
                     {| OAuthState.createdAt := clock i;
                        OAuthState.redirectUri := redirectUri |}]>
                   (oauthStateStore st)) |};
       result := Returned
         (if inherited (configured_environment env) then
            SendJson 500
              [("success", JBool false);
               ("error",
                JStr "Failed to generate authorization URL: Invalid URL")]
          else
            SendJson 200
              [("success", JBool true);
               ("authUrl", JUrl "https://appcenter.intuit.com/connect/oauth2"
                  [("client_id", interpolate (QUICKBOOKS_CLIENT_ID env));
                   ("response_type", "code");
                   ("scope", or_default (QUICKBOOKS_SCOPE env)
                                        "com.intuit.quickbooks.accounting");
                   ("redirect_uri", redirectUri);
                   ("state", randomState)]);
               ("state", JStr randomState)]);
       requests := [] |}.
Proof.
  intros Hid Hsecret redirectUri. subst redirectUri.
  unfold authorize. rewrite Hid, Hsecret, config_cases.
  destruct (inherited (configured_environment env)); cbn;
    unfold mbind, Proc_bind; rewrite exec_sweep; reflexivity.
Qed.

(** The state just issued is in the store, bound to the redirect URI
    the authorization URL carries. *)
Lemma authorize_issued (env : ProcessEnv)
    (protocol host randomState : string) (st : State)
    (net : FetchReq → FetchResult) (clock : nat → Z) (i : nat) :
  inherited (configured_environment env) = false →
  truthy_opt (QUICKBOOKS_CLIENT_ID env) = true →
  truthy_opt (QUICKBOOKS_CLIENT_SECRET env) = true →
  let issued := exec (authorize env protocol host randomState) net clock i st in
  let redirectUri :=
    or_default (QUICKBOOKS_REDIRECT_URI env)
               (protocol +:+ "://" +:+ host +:+ "/api/oauth/callback") in
  answered "authUrl" (result issued) =
    Some (JUrl "https://appcenter.intuit.com/connect/oauth2"
            [("client_id", interpolate (QUICKBOOKS_CLIENT_ID env));
             ("response_type", "code");
             ("scope", or_default (QUICKBOOKS_SCOPE env)
                                  "com.intuit.quickbooks.accounting");
             ("redirect_uri", redirectUri);
             ("state", randomState)])
  ∧ oauthStateStore (final issued) !! randomState =
      Some {| OAuthState.createdAt := clock i;
              OAuthState.redirectUri := redirectUri |}.
Proof.
  intros Hown Hid Hsecret issued redirectUri. subst issued redirectUri.
  rewrite (authorize_run env protocol host randomState st net clock i
             Hid Hsecret).
  rewrite Hown. cbn. split; [reflexivity|].
  rewrite swept_lookup, lookup_insert_eq. cbn.
  replace (clock i <? clock i - 10 * 60 * 1000) with false
    by (symmetry; apply Z.ltb_ge; lia).
  reflexivity.
Qed.

(** X6: with client id and secret configured, [GET /authorize] sends
    nothing and leaves the state store holding exactly: the new state,
    created now and bound to the redirect URI of this request, and
    every older state that was created less than, or exactly, ten
    minutes ago.  Token records are not touched.  It answers with the
    state it was given by the random source, unless
    [QUICKBOOKS_ENVIRONMENT] names a property the configuration object
    inherits: then the configuration has no [authUrl], [new URL]
    throws, and the answer is a 500, with the state stored all the
    same. *)
Theorem authorize_issues_and_sweeps (env : ProcessEnv)
    (protocol host randomState : string) (st : State)
    (net : FetchReq → FetchResult) (clock : nat → Z) (i : nat) :
  truthy_opt (QUICKBOOKS_CLIENT_ID env) = true →
  truthy_opt (QUICKBOOKS_CLIENT_SECRET env) = true →
  let r := exec (authorize env protocol host randomState) net clock i st in
  let redirectUri :=
    or_default (QUICKBOOKS_REDIRECT_URI env)
               (protocol +:+ "://" +:+ host +:+ "/api/oauth/callback") in
  (inherited (configured_environment env) = false →
   answered "success" (result r) = Some (JBool true)
   ∧ answered "state" (result r) = Some (JStr randomState))
  ∧ (inherited (configured_environment env) = true →
     result r = Returned (SendJson 500
       [("success", JBool false);
        ("error",
         JStr "Failed to generate authorization URL: Invalid URL")]))
  ∧ requests r = []
  ∧ tokenStore (final r) = tokenStore st
  ∧ heap (final r) = heap st
  ∧ ∀ k,
      oauthStateStore (final r) !! k =
        if decide (k = randomState) then
          Some {| OAuthState.createdAt := clock i;
                  OAuthState.redirectUri := redirectUri |}
        else
          match oauthStateStore st !! k with
          | Some v =>
              if OAuthState.createdAt v <? clock i - 10 * 60 * 1000
              then None else Some v
          | None => None
          end.
Proof.
  intros Hid Hsecret r redirectUri. subst r redirectUri.
  rewrite (authorize_run env protocol host randomState st net clock i
             Hid Hsecret).
  cbn. split; [intros ->; split; reflexivity|].
  split; [intros ->; reflexivity|].
  repeat (split; [reflexivity|]).
  intros k. rewrite swept_lookup.
  destruct (decide (k = randomState)) as [->|Hne].
  - rewrite lookup_insert_eq. cbn.
    replace (clock i <? clock i - 10 * 60 * 1000) with false
      by (symmetry; apply Z.ltb_ge; lia).
    reflexivity.
  - rewrite lookup_insert_ne by done. reflexivity.
Qed.

Lemma authorize_issues_and_sweeps_witness :
  oauthStateStore Demo.authorizing !! "state-1" ≠ None
  ∧ (let r := exec (authorize Demo.env "http" "localhost:3001" "state-2")
                   Demo.provider (Demo.at_time 600001) 0 Demo.authorizing in
     oauthStateStore (final r) !! "state-1" = None
     ∧ oauthStateStore (final r) !! "state-2" =
         Some {| OAuthState.createdAt := 600001;
                 OAuthState.redirectUri :=
                   "http://localhost:3001/api/oauth/callback" |}).
Proof.
  split; [rewrite demo_authorizing_state; discriminate|].
  destruct (authorize_issues_and_sweeps Demo.env "http" "localhost:3001"
              "state-2" Demo.authorizing Demo.provider
              (Demo.at_time 600001) 0 eq_refl eq_refl)
    as (_ & _ & _ & _ & _ & Hstates).
  cbv zeta. rewrite !Hstates, demo_authorizing_state. split; reflexivity.
Defined.

(** Whatever the provider answers, a callback whose state is in the
    store sends exactly the exchange request, with the redirect URI
    recorded under that state. *)
Lemma callback_body_requests (env : ProcessEnv) (errorBase : string)
    (url : Url)
    (code state realmId : string) (sd : StateData) (st : State)
    (net : FetchReq → FetchResult) (clock : nat → Z) (i : nat) :
  truthy code = true → truthy state = true →
  oauthStateStore st !! state = Some sd →
  requests (exec (callback_body env errorBase url code state realmId "")
                 net clock i st)
  = [ExchangeCode url (QUICKBOOKS_CLIENT_ID env)
       (QUICKBOOKS_CLIENT_SECRET env) code (OAuthState.redirectUri sd)].
Proof.
  intros Hcode Hstate Hsd. unfold callback_body. cbn.
  rewrite Hcode, Hstate. cbn. rewrite Hsd. cbn.
  destruct (net _) as [resp|message]; cbn; [|reflexivity].
  destruct (ok resp); cbn; [|destruct (json resp); reflexivity].
  destruct (json resp) as [body|]; cbn; [|reflexivity].
  destruct (truthy realmId); reflexivity.
Qed.

(** X7: the redirect URI travels with the state.  When
    [QUICKBOOKS_ENVIRONMENT] does not name a property the configuration
    object inherits, and [GET /authorize] has issued a state, a
    callback presenting it, at any later time and on either route, is
    not turned away as unknown: it sends exactly one request, the code
    exchange, whose [redirect_uri] is the one the authorization URL
    carried. *)
Theorem authorize_then_callback (env : ProcessEnv) (errorBase : string)
    (route : string → string → string → string → Proc Reply)
    (protocol host randomState code realmId : string) (st : State)
    (net net' : FetchReq → FetchResult) (clock clock' : nat → Z) (i j : nat) :
  (errorBase, route) ∈ callback_routes env →
  inherited (configured_environment env) = false →
  truthy_opt (QUICKBOOKS_CLIENT_ID env) = true →
  truthy_opt (QUICKBOOKS_CLIENT_SECRET env) = true →
  truthy randomState = true → truthy code = true →
  let issued := exec (authorize env protocol host randomState) net clock i st in
  let redirectUri :=
    or_default (QUICKBOOKS_REDIRECT_URI env)
               (protocol +:+ "://" +:+ host +:+ "/api/oauth/callback") in
  answered "authUrl" (result issued) =
    Some (JUrl "https://appcenter.intuit.com/connect/oauth2"
            [("client_id", interpolate (QUICKBOOKS_CLIENT_ID env));
             ("response_type", "code");
             ("scope", or_default (QUICKBOOKS_SCOPE env)
                                  "com.intuit.quickbooks.accounting");
             ("redirect_uri", redirectUri);
             ("state", randomState)])
  ∧ requests (exec (route code randomState realmId "") net' clock' j
                   (final issued))
    = [ExchangeCode TOKEN_URL (QUICKBOOKS_CLIENT_ID env)
         (QUICKBOOKS_CLIENT_SECRET env) code redirectUri].
Proof.
  intros Hroute Hown Hid Hsecret Hstate Hcode issued redirectUri.
  destruct (authorize_issued env protocol host randomState st net clock i
              Hown Hid Hsecret) as (Hurl & Hlookup).
  fold issued in Hurl, Hlookup. split; [exact Hurl|].
  rewrite (callback_routes_url _ _ _ Hroute (λ _, Hown)).
  rewrite (callback_body_requests env errorBase TOKEN_URL code randomState
             realmId _ (final issued) net' clock' j Hcode Hstate Hlookup).
  reflexivity.
Qed.

Lemma authorize_then_callback_witness :
  requests (exec (router_callback Demo.env "code-1" "state-1" "co-1" "")
                 Demo.unreachable (Demo.at_time 900) 0 Demo.authorizing)
  = [ExchangeCode TOKEN_URL (Some "client-id") (Some "client-secret")
       "code-1" "http://localhost:3001/api/oauth/callback"].
Proof.
  exact (proj2 (authorize_then_callback Demo.env "/"
                  (router_callback Demo.env) "http" "localhost:3001"
                  "state-1" "code-1" "co-1" initial_state
                  Demo.provider Demo.unreachable
                  (Demo.at_time 0) (Demo.at_time 900) 0 0
                  ltac:(left) eq_refl eq_refl eq_refl eq_refl eq_refl)).
Defined.

(* ===================================================================== *)
(** ** What [GET /status] reports *)

(** X8: for a tenant with a record, [GET /status] is a pure read that
    answers [connected: true] with [expiresIn] the whole seconds left,
    never negative.  An expired token always needs a refresh and has 0
    seconds left; a token that does not need a refresh has at least 300
    seconds left. *)
Theorem status_of_connected_tenant (realmId : string) (st : State)
    (l : loc) (td : TokenData)
    (net : FetchReq → FetchResult) (clock : nat → Z) (i : nat) :
  truthy realmId = true →
  tokenStore st !! realmId = Some l →
  heap st !! l = Some td →
  let now := clock i in
  let expiresIn := Z.max 0 ((Token.expiresAt td - now) `div` 1000) in
  let needsRefresh := Token.expiresAt td - 5 * 60 * 1000 <=? now in
  let isExpired := Token.expiresAt td <=? now in
  exec (get_status realmId) net clock i st =
    {| final := st;
       result := Returned (SendJson 200
         [("success", JBool true); ("connected", JBool true);
          ("realmId", JStr (Token.realmId td));
          ("environment", JStr (Token.environment td));
          ("expiresAt", JNum (Token.expiresAt td));
          ("expiresIn", JNum expiresIn);
          ("needsRefresh", JBool needsRefresh);
          ("isExpired", JBool isExpired)]);
       requests := [] |}
  ∧ 0 ≤ expiresIn
  ∧ (isExpired = true → needsRefresh = true ∧ expiresIn = 0)
  ∧ (needsRefresh = false → 300 ≤ expiresIn)
  ∧ (isExpired = false →
       expiresIn * 1000 ≤ Token.expiresAt td - now < (expiresIn + 1) * 1000).
Proof.
  intros Htruthy Hstore Hheap now expiresIn needsRefresh isExpired.
  split.
  { unfold get_status. rewrite Htruthy. cbn. rewrite Hstore. cbn.
    rewrite (read_object _ _ _ Hheap). reflexivity. }
  subst expiresIn needsRefresh isExpired.
  pose proof (Z.div_mod (Token.expiresAt td - now) 1000 ltac:(lia)) as Hdiv.
  pose proof (Z.mod_pos_bound (Token.expiresAt td - now) 1000 ltac:(lia))
    as Hmod.
  split; [lia|]. split; [|split].
  - intros Hexpired. apply Z.leb_le in Hexpired. split; [|lia].
    apply Z.leb_le. lia.
  - intros Hfresh. apply Z.leb_gt in Hfresh. lia.
  - intros Hvalid. apply Z.leb_gt in Hvalid. lia.
Qed.

Lemma status_of_connected_tenant_witness :
  answered "expiresIn"
    (result (exec (get_status "co-1") Demo.provider
                  (Demo.at_time Demo.stale_time) 0 Demo.connected))
  = Some (JNum 200).
Proof.
  rewrite (proj1 (status_of_connected_tenant "co-1" Demo.connected 0%nat
                    Demo.first_record Demo.provider
                    (Demo.at_time Demo.stale_time) 0
                    eq_refl demo_connected_store demo_connected_heap)).
  reflexivity.
Defined.

(* ===================================================================== *)
(** ** Tokens that are still fresh *)

(** X9: while the access token is more than five minutes from its
    expiry, [getAccessToken] and [GET /token] hand out the stored token
    as it is: no request is sent and the state is not touched, whether
    or not the record's [isRefreshing] flag is raised. *)
Theorem fresh_token_is_returned (env : ProcessEnv) (realmId : string)
    (st : State) (l : loc) (td : TokenData)
    (net : FetchReq → FetchResult) (clock : nat → Z) (i : nat) :
  truthy realmId = true →
  tokenStore st !! realmId = Some l →
  heap st !! l = Some td →
  clock i < Token.expiresAt td - 5 * 60 * 1000 →
  exec (getAccessToken env realmId) net clock i st =
    {| final := st;
       result := Returned {| Granted.accessToken := Token.accessToken td;
                             Granted.realmId := Token.realmId td |};
       requests := [] |}
  ∧ exec (get_token env realmId) net clock i st =
    {| final := st;
       result := Returned (SendJson 200
         [("success", JBool true);
          ("accessToken", JStr (Token.accessToken td));
          ("realmId", JStr (Token.realmId td));
          ("expiresAt", JNum (Token.expiresAt td));
          ("expiresIn",
           JNum (Z.max 0 ((Token.expiresAt td - clock i) `div` 1000)))]);
       requests := [] |}.
Proof.
  intros Htruthy Hstore Hheap Hfresh.
  assert (Hcmp : (Token.expiresAt td - 5 * 60 * 1000 <=? clock i) = false)
    by (apply Z.leb_gt; exact Hfresh).
  split.
  - unfold getAccessToken. rewrite Htruthy. cbn. rewrite Hstore. cbn.
    rewrite (read_object _ _ _ Hheap), Hcmp. cbn.
    rewrite (read_object _ _ _ Hheap). reflexivity.
  - unfold get_token. rewrite Htruthy. cbn. rewrite Hstore. cbn.
    rewrite (read_object _ _ _ Hheap), Hcmp. cbn.
    rewrite (read_object _ _ _ Hheap). reflexivity.
Qed.

Lemma fresh_token_is_returned_witness :
  exec (getAccessToken Demo.env "co-1") Demo.unreachable
       (Demo.at_time 2000) 0 Demo.connected =
    {| final := Demo.connected;
       result := Returned {| Granted.accessToken := "access-1";
                             Granted.realmId := "co-1" |};
       requests := [] |}.
Proof.
  exact (proj1 (fresh_token_is_returned Demo.env "co-1" Demo.connected 0%nat
                  Demo.first_record Demo.unreachable (Demo.at_time 2000) 0
                  eq_refl demo_connected_store demo_connected_heap
                  ltac:(vm_compute; reflexivity))).
Defined.

(* ===================================================================== *)
(** ** Refreshes the provider grants *)

(** The refresh token a granted refresh stores: the provider's new one
    when it sent a non-empty one, the old one otherwise; likewise for
    the refresh token's expiry, which is recomputed only from a
    lifetime that is present and not 0. *)
Lemma refreshed_record_rotation (old : TokenData) (body : TokenJson)
    (realmId environment : string) (now : Z) (flag : option bool) :
  let new := refreshed_record old body realmId environment now flag in
  (truthy_opt (Json.refresh_token body) = true →
     Token.refreshToken new = Json.refresh_token body)
  ∧ (truthy_opt (Json.refresh_token body) = false →
     Token.refreshToken new = Token.refreshToken old)
  ∧ (∀ s, Json.x_refresh_token_expires_in body = Some s → s ≠ 0 →
     Token.refreshTokenExpiresAt new = Some (now + s * 1000))
  ∧ (Json.x_refresh_token_expires_in body = None
     ∨ Json.x_refresh_token_expires_in body = Some 0 →
     Token.refreshTokenExpiresAt new = Token.refreshTokenExpiresAt old).
Proof.
  cbn. unfold or_else. repeat split.
  - intros ->. reflexivity.
  - intros ->. reflexivity.
  - intros s -> Hs. cbn. destruct (s =? 0) eqn:Hz; [|reflexivity].
    apply Z.eqb_eq in Hz. contradiction.
  - intros [-> | ->]; reflexivity.
Qed.

(** X10: when the provider grants it, [POST /refresh] sends one request
    carrying the stored refresh token, answers with the new lifetime,
    and puts a new record in place of the old one: the new access token
    expiring [expires_in] seconds after the time of storing, and the
    refresh token rotated only if the provider sent a new one.  No
    other tenant's entry changes.  The route reads the token URL from
    [OAUTH_CONFIG]: [QUICKBOOKS_ENVIRONMENT] is taken not to name a
    property the configuration object inherits. *)
Theorem refresh_granted (env : ProcessEnv) (realmId : string)
    (st : State) (l : loc) (td : TokenData)
    (net : FetchReq → FetchResult) (clock : nat → Z) (i : nat)
    (resp : Response) (body : TokenJson) :
  let req := RefreshGrant TOKEN_URL (QUICKBOOKS_CLIENT_ID env)
               (QUICKBOOKS_CLIENT_SECRET env) (Token.refreshToken td) in
  inherited (configured_environment env) = false →
  truthy realmId = true →
  tokenStore st !! realmId = Some l →
  heap st !! l = Some td →
  truthy_opt (Token.refreshToken td) = true →
  js_ge (clock i) (Token.refreshTokenExpiresAt td) = false →
  net req = FetchResponse resp →
  ok resp = true → json resp = Some body →
  let r := exec (refresh env realmId) net clock i st in
  let new := refreshed_record td body realmId (configured_environment env)
               (clock (S (S i))) None in
  result r = Returned (SendJson 200
      [("success", JBool true);
       ("message", JStr "Token refreshed successfully");
       ("expiresIn", JNum (Json.expires_in body))])
  ∧ requests r = [req]
  ∧ record_of (final r) realmId = Some new
  ∧ (truthy_opt (Json.refresh_token body) = false →
       Token.refreshToken new = Token.refreshToken td)
  ∧ (truthy_opt (Json.refresh_token body) = true →
       Token.refreshToken new = Json.refresh_token body)
  ∧ (∀ other, other ≠ realmId →
       tokenStore (final r) !! other = tokenStore st !! other)
  ∧ oauthStateStore (final r) = oauthStateStore st.
Proof.
  intros req Hown Htruthy Hstore Hheap Hrefresh Hvalid Hnet Hok Hjson r new.
  subst r req new.
  unfold refresh. rewrite Htruthy. cbn. rewrite Hstore. cbn.
  rewrite (read_object _ _ _ Hheap), Hrefresh. cbn. rewrite Hvalid. cbn.
  rewrite (token_url_fixed _ Hown), Hnet. cbn. rewrite Hok. cbn.
  rewrite Hjson. cbn.
  rewrite (read_object _ _ _ Hheap).
  split; [reflexivity|]. split; [reflexivity|]. split.
  { unfold record_of. cbn. rewrite lookup_insert_eq. cbn.
    rewrite lookup_insert_eq. reflexivity. }
  destruct (refreshed_record_rotation td body realmId
              (configured_environment env) (clock (S (S i))) None)
    as (Hrotated & Hkept & _).
  split; [exact Hkept|]. split; [exact Hrotated|].
  split; [|reflexivity].
  intros other Hother. apply lookup_insert_ne. congruence.
Qed.

Lemma refresh_granted_witness :
  Token.accessToken <$>
    record_of (final (exec (refresh Demo.env "co-1") Demo.provider
                           (Demo.at_time Demo.stale_time) 0 Demo.connected))
              "co-1"
  = Some "access-2".
Proof.
  destruct (refresh_granted Demo.env "co-1" Demo.connected 0%nat
              Demo.first_record Demo.provider
              (Demo.at_time Demo.stale_time) 0
              (Demo.granted Demo.second_grant) Demo.second_grant
              eq_refl eq_refl demo_connected_store demo_connected_heap
              eq_refl ltac:(vm_compute; reflexivity) eq_refl eq_refl eq_refl)
    as (_ & _ & Hrecord & _).
  rewrite Hrecord. reflexivity.
Defined.

(** X11: when [getAccessToken] or [GET /token] finds the token stale
    and no refresh in progress, and the provider grants the refresh,
    the call sends that one request and resolves with the new access
    token; the tenant's record is then the refreshed one, with
    [isRefreshing] false, and [GET /token] reports the full new
    lifetime.  [GET /token] reads the token URL from [OAUTH_CONFIG]:
    for it, [QUICKBOOKS_ENVIRONMENT] is taken not to name a property
    the configuration object inherits. *)
Theorem stale_token_is_refreshed (env : ProcessEnv) (realmId : string)
    (st : State) (l : loc) (td : TokenData)
    (net : FetchReq → FetchResult) (clock : nat → Z) (i : nat)
    (resp : Response) (body : TokenJson) :
  let req := RefreshGrant TOKEN_URL (QUICKBOOKS_CLIENT_ID env)
               (QUICKBOOKS_CLIENT_SECRET env) (Token.refreshToken td) in
  truthy realmId = true →
  tokenStore st !! realmId = Some l →
  heap st !! l = Some td →
  Token.expiresAt td - 5 * 60 * 1000 ≤ clock i →
  flag_set td = false →
  net req = FetchResponse resp →
  ok resp = true → json resp = Some body →
  let new := refreshed_record td body realmId (configured_environment env)
               (clock (S (S i))) (Some false) in
  let r := exec (getAccessToken env realmId) net clock i st in
  let r' := exec (get_token env realmId) net clock i st in
  result r = Returned {| Granted.accessToken := Json.access_token body;
                         Granted.realmId := realmId |}
  ∧ requests r = [req]
  ∧ record_of (final r) realmId = Some new
  ∧ (inherited (configured_environment env) = false →
     result r' = Returned (SendJson 200
       [("success", JBool true);
        ("accessToken", JStr (Json.access_token body));
        ("realmId", JStr realmId);
        ("expiresAt", JNum (Token.expiresAt new));
        ("expiresIn", JNum (Z.max 0 (Json.expires_in body)))])
     ∧ requests r' = [req]
     ∧ final r' = final r)
  ∧ (∀ other, other ≠ realmId →
       tokenStore (final r) !! other = tokenStore st !! other).
Proof.
  intros req Htruthy Hstore Hheap Hstale Hflag Hnet Hok Hjson new r r'.
  subst req new r.
  assert (Hcmp : (Token.expiresAt td - 5 * 60 * 1000 <=? clock i) = true)
    by (apply Z.leb_le; exact Hstale).
  assert (Hurl : (if String.eqb (configured_environment env) "production"
                  then "https://oauth.platform.intuit.com/oauth2/v1/tokens/bearer"
                  else "https://oauth.platform.intuit.com/oauth2/v1/tokens/bearer")
                 = TOKEN_URL) by (destruct (String.eqb _ _); reflexivity).
  unfold getAccessToken. rewrite Htruthy. cbn. rewrite Hstore. cbn.
  rewrite (read_object _ _ _ Hheap), Hflag, Hcmp. cbn.
  rewrite (alter_flag _ _ _ _ Hheap), !lookup_total_insert_eq. cbn.
  rewrite Hurl, Hnet. cbn. rewrite Hok. cbn.
  rewrite Hjson. cbn. rewrite !lookup_total_insert_eq. cbn.
  split; [reflexivity|]. split; [reflexivity|]. split.
  { unfold record_of. cbn. rewrite lookup_insert_eq. cbn.
    rewrite lookup_insert_eq. reflexivity. }
  split.
  - intros Hown. subst r'.
    unfold get_token. rewrite Htruthy. cbn. rewrite Hstore. cbn.
    rewrite (read_object _ _ _ Hheap), Hflag, Hcmp. cbn.
    rewrite (alter_flag _ _ _ _ Hheap), !lookup_total_insert_eq. cbn.
    rewrite (token_url_fixed _ Hown), Hnet. cbn. rewrite Hok. cbn.
    rewrite Hjson. cbn. rewrite !lookup_total_insert_eq. cbn.
    replace ((clock (S (S i)) + Json.expires_in body * 1000
              - clock (S (S i))) `div` 1000)
      with (Json.expires_in body)
      by (replace (clock (S (S i)) + Json.expires_in body * 1000
                   - clock (S (S i)))
            with (Json.expires_in body * 1000) by lia;
          symmetry; apply Z.div_mul; lia).
    repeat split.
  - intros other Hother. cbn.
    rewrite lookup_insert_ne by congruence.
    apply lookup_insert_ne. congruence.
Qed.

Lemma stale_token_is_refreshed_witness :
  result (exec (getAccessToken Demo.env "co-1") Demo.provider
               (Demo.at_time Demo.stale_time) 0 Demo.connected)
  = Returned {| Granted.accessToken := "access-2";
                Granted.realmId := "co-1" |}.
Proof.
  exact (proj1 (stale_token_is_refreshed Demo.env "co-1" Demo.connected
                  0%nat Demo.first_record Demo.provider
                  (Demo.at_time Demo.stale_time) 0
                  (Demo.granted Demo.second_grant) Demo.second_grant
                  eq_refl demo_connected_store demo_connected_heap
                  ltac:(vm_compute; discriminate) eq_refl
                  eq_refl eq_refl eq_refl)).
Defined.

(* ===================================================================== *)
(** ** Requests that overlap a refresh in flight *)

Lemma revoke_url_cases (environment : string) :
  revokeUrl (OAUTH_CONFIG environment) =
    if inherited environment then Undefined
    else Href "https://developer.api.intuit.com/v2/oauth2/tokens/revoke".
Proof.
  rewrite config_cases. destruct (inherited environment); reflexivity.
Qed.

(** [POST /revoke] for a tenant with a record, in full. *)
Lemma revoke_run (env : ProcessEnv) (realmId : string)
    (st : State) (l : loc) (td : TokenData)
    (net : FetchReq → FetchResult) (clock : nat → Z) (i : nat) :
  truthy realmId = true →
  tokenStore st !! realmId = Some l →
  heap st !! l = Some td →
  exec (revoke env realmId) net clock i st =
    {| final := {| heap := heap st; nextLoc := nextLoc st;
                   tokenStore := delete realmId (tokenStore st);
                   oauthStateStore := oauthStateStore st |};
       result := Returned (SendJson 200
         [("success", JBool true);
          ("message", JStr "Tokens revoked successfully")]);
       requests :=
         [RevokeToken
            (if inherited (configured_environment env) then Undefined
             else
               Href "https://developer.api.intuit.com/v2/oauth2/tokens/revoke")
            (QUICKBOOKS_CLIENT_ID env) (QUICKBOOKS_CLIENT_SECRET env)
            (Token.refreshToken td)] |}.
Proof.
  intros Htruthy Hstore Hheap. unfold revoke. rewrite Htruthy. cbn.
  rewrite Hstore. cbn. rewrite (read_object _ _ _ Hheap), revoke_url_cases.
  destruct (net _) as [resp|message]; reflexivity.
Qed.

(** X12: [POST /refresh] does not look at the [isRefreshing] flag.
    While a refresh started by [getAccessToken] is in flight, an
    explicit refresh for the same tenant sends a second refresh request
    carrying the same refresh token.  [POST /refresh] reads the token
    URL from [OAUTH_CONFIG]: [QUICKBOOKS_ENVIRONMENT] is taken not to
    name a property the configuration object inherits. *)
Theorem explicit_refresh_ignores_flag (env : ProcessEnv) (realmId : string)
    (st : State) (l : loc) (td : TokenData) (t0 t1 : Z) :
  let req := RefreshGrant TOKEN_URL (QUICKBOOKS_CLIENT_ID env)
               (QUICKBOOKS_CLIENT_SECRET env) (Token.refreshToken td) in
  inherited (configured_environment env) = false →
  truthy realmId = true →
  tokenStore st !! realmId = Some l →
  heap st !! l = Some td →
  flag_set td = false →
  Token.expiresAt td - 5 * 60 * 1000 ≤ t0 →
  truthy_opt (Token.refreshToken td) = true →
  js_ge t1 (Token.refreshTokenExpiresAt td) = false →
  let first := run_sync (getAccessToken env realmId) t0 st in
  let second := run_sync (refresh env realmId) t1 first.1 in
  observe first.2 = AwaitingFetch req
  ∧ flag_set <$> record_of first.1 realmId = Some true
  ∧ observe second.2 = AwaitingFetch req
  ∧ second.1 = first.1.
Proof.
  intros req Hown Htruthy Hstore Hheap Hflag Hstale Hrefresh Hvalid
    first second.
  destruct (getAccessToken_starts_refresh env realmId st l td t0
              Htruthy Hstore Hheap Hflag Hstale) as (Hfirst & Hrequest & _).
  fold first in Hfirst, Hrequest. subst second. rewrite Hfirst.
  split; [exact Hrequest|]. split.
  { unfold record_of. cbn. rewrite Hstore. cbn. rewrite lookup_insert_eq.
    reflexivity. }
  unfold refresh. rewrite Htruthy. cbn. rewrite Hstore. cbn.
  rewrite lookup_total_insert_eq. cbn. rewrite Hrefresh. cbn.
  rewrite Hvalid. cbn. rewrite (token_url_fixed _ Hown). split; reflexivity.
Qed.

Lemma explicit_refresh_ignores_flag_witness :
  observe
    (run_sync (refresh Demo.env "co-1") (Demo.stale_time + 1)
       (run_sync (getAccessToken Demo.env "co-1") Demo.stale_time
                 Demo.connected).1).2
  = AwaitingFetch (RefreshGrant TOKEN_URL (Some "client-id")
                     (Some "client-secret") (Some "refresh-1")).
Proof.
  destruct (explicit_refresh_ignores_flag Demo.env "co-1" Demo.connected
              0%nat Demo.first_record Demo.stale_time (Demo.stale_time + 1)
              eq_refl eq_refl demo_connected_store demo_connected_heap eq_refl
              ltac:(vm_compute; discriminate) eq_refl
              ltac:(vm_compute; reflexivity))
    as (_ & _ & Hsecond & _).
  exact Hsecond.
Defined.

(** X13: a revoke that overlaps a refresh is undone by it.  Let
    [getAccessToken] have started a refresh, and let [POST /revoke] for
    the same tenant then run to completion: it answers success and the
    tenant has no record.  When the provider's answer to the refresh
    arrives afterwards, the tenant has a record again: the old object,
    put back by the [catch] block, if the request failed; the refreshed
    one if it was granted. *)
Theorem revoke_during_refresh_is_undone (env : ProcessEnv) (realmId : string)
    (st : State) (l : loc) (td : TokenData) (t0 : Z)
    (net : FetchReq → FetchResult) (clock : nat → Z) (i : nat) :
  truthy realmId = true →
  tokenStore st !! realmId = Some l →
  heap st !! l = Some td →
  flag_set td = false →
  Token.expiresAt td - 5 * 60 * 1000 ≤ t0 →
  let first := run_sync (getAccessToken env realmId) t0 st in
  let revoked := exec (revoke env realmId) net clock i first.1 in
  result revoked = Returned (SendJson 200
      [("success", JBool true);
       ("message", JStr "Tokens revoked successfully")])
  ∧ record_of (final revoked) realmId = None
  ∧ (∀ message t1,
       let resumed :=
         resume_fetch first.2 (FetchRejects message) t1 (final revoked) in
       observe resumed.2 = Resolved (Threw message)
       ∧ record_of resumed.1 realmId = Some (set_isRefreshing false td))
  ∧ (∀ resp body t1 t2,
       ok resp = true → json resp = Some body →
       let fetched :=
         resume_fetch first.2 (FetchResponse resp) t1 (final revoked) in
       let settled := resume_json fetched.2 t2 fetched.1 in
       observe settled.2 =
         Resolved (Returned {| Granted.accessToken := Json.access_token body;
                               Granted.realmId := realmId |})
       ∧ record_of settled.1 realmId =
           Some (refreshed_record td body realmId
                   (configured_environment env) t2 (Some false))).
Proof.
  intros Htruthy Hstore Hheap Hflag Hstale first revoked.
  assert (Hfirst : first.1 = flag_raised st l td).
  { exact (proj1 (getAccessToken_starts_refresh env realmId st l td t0
                    Htruthy Hstore Hheap Hflag Hstale)). }
  assert (Hrevoked : revoked =
            {| final := {| heap := <[l := set_isRefreshing true td]> (heap st);
                           nextLoc := nextLoc st;
                           tokenStore := delete realmId (tokenStore st);
                           oauthStateStore := oauthStateStore st |};
               result := Returned (SendJson 200
                 [("success", JBool true);
                  ("message", JStr "Tokens revoked successfully")]);
               requests :=
                 [RevokeToken
                    (if inherited (configured_environment env) then Undefined
                     else
                       Href "https://developer.api.intuit.com/v2/oauth2/tokens/revoke")
                    (QUICKBOOKS_CLIENT_ID env) (QUICKBOOKS_CLIENT_SECRET env)
                    (Token.refreshToken td)] |}).
  { subst revoked. rewrite Hfirst.
    apply (revoke_run env realmId (flag_raised st l td) l
             (set_isRefreshing true td) net clock i Htruthy Hstore).
    cbn. apply lookup_insert_eq. }
  rewrite Hrevoked. cbn [final result].
  split; [reflexivity|]. split.
  { unfold record_of. cbn. rewrite lookup_delete_eq. reflexivity. }
  subst first. clear Hfirst Hrevoked revoked.
  unfold getAccessToken. rewrite Htruthy. cbn. rewrite Hstore. cbn.
  rewrite (read_object _ _ _ Hheap), Hflag.
  replace (Token.expiresAt td - 5 * 60 * 1000 <=? t0) with true
    by (symmetry; apply Z.leb_le; done).
  cbn. split.
  - intros message t1. split; [reflexivity|].
    unfold record_of. cbn. rewrite lookup_insert_eq. cbn.
    rewrite alter_insert_eq, lookup_insert_eq. reflexivity.
  - intros resp body t1 t2 Hok Hjson. rewrite Hok. cbn. rewrite Hjson. cbn.
    rewrite !lookup_total_insert_eq. cbn. split; [reflexivity|].
    unfold record_of. cbn. rewrite lookup_insert_eq. cbn.
    rewrite lookup_insert_eq. reflexivity.
Qed.

Lemma revoke_during_refresh_is_undone_witness :
  let first := run_sync (getAccessToken Demo.env "co-1") Demo.stale_time
                        Demo.connected in
  let revoked := exec (revoke Demo.env "co-1") Demo.provider
                      (Demo.at_time (Demo.stale_time + 1)) 0 first.1 in
  record_of (final revoked) "co-1" = None
  ∧ record_of
      (resume_fetch first.2 (FetchRejects "network timeout")
                    (Demo.stale_time + 2) (final revoked)).1 "co-1"
    = Some (set_isRefreshing false Demo.first_record).
Proof.
  destruct (revoke_during_refresh_is_undone Demo.env "co-1" Demo.connected
              0%nat Demo.first_record Demo.stale_time Demo.provider
              (Demo.at_time (Demo.stale_time + 1)) 0
              eq_refl demo_connected_store demo_connected_heap eq_refl
              ltac:(vm_compute; discriminate))
    as (_ & Hgone & Hback & _).
  split; [exact Hgone|].
  exact (proj2 (Hback "network timeout" (Demo.stale_time + 2))).
Defined.

(* ===================================================================== *)
(** ** The middleware *)

(** A handler whose result is mapped and whose exception is turned
    into a value does to the state and the network what it did
    before. *)
Lemma exec_settled {A B} (p : Proc A) (f : A → B) (h : string → B)
    (net : FetchReq → FetchResult) (clock : nat → Z) (i : nat) (st : State) :
  exec (try_catch (bind p (λ a, Ret (f a))) (λ e, Ret (h e))) net clock i st =
    {| final := final (exec p net clock i st);
       result := Returned match result (exec p net clock i st) with
                          | Returned a => f a
                          | Threw e => h e
                          end;
       requests := requests (exec p net clock i st) |}.
Proof.
  revert i st. induction p as [a|e|X op k IH|req k IH|resp k IH];
    intros i st; cbn; try reflexivity.
  - apply IH.
  - rewrite IH. reflexivity.
  - apply IH.
Qed.

(** The middleware, in terms of [getAccessToken]. *)
Lemma middleware_delegation (env : ProcessEnv) (realmId accessToken : string)
    (st : State) (net : FetchReq → FetchResult) (clock : nat → Z) (i : nat) :
  (truthy accessToken = true →
     exec (injectOAuthToken env realmId accessToken) net clock i st =
       {| final := st; result := Returned (Next accessToken);
          requests := [] |})
  ∧ (truthy accessToken = false → truthy realmId = true →
     let r := exec (getAccessToken env realmId) net clock i st in
     exec (injectOAuthToken env realmId accessToken) net clock i st =
       {| final := final r;
          result := Returned
            match result r with
            | Returned granted => Next (Granted.accessToken granted)
            | Threw message =>
                Respond (SendJson 401
                  [("success", JBool false);
                   ("error", JStr message);
                   ("requiresOAuth", JBool true)])
            end;
          requests := requests r |}).
Proof.
  split.
  - intros Htoken. unfold injectOAuthToken. rewrite Htoken. reflexivity.
  - intros Htoken Hrealm r. subst r. unfold injectOAuthToken.
    rewrite Htoken, Hrealm. cbn [andb negb].
    apply (exec_settled (getAccessToken env realmId)
             (λ granted, Next (Granted.accessToken granted))).
Qed.

(** X14: [injectOAuthToken] never lets an exception escape and never
    replaces a token the request brought: with an [accessToken] in the
    body it calls [next()] at once, without reading the store.
    Without one, and with a [realmId], it does to the store and the
    network exactly what [getAccessToken] does, calls [next()] with the
    token that resolves, and turns any failure into a 401 that carries
    the error's message and [requiresOAuth]. *)
Theorem middleware_delegates (env : ProcessEnv) (realmId accessToken : string)
    (st : State) (net : FetchReq → FetchResult) (clock : nat → Z) (i : nat) :
  (truthy accessToken = true →
     exec (injectOAuthToken env realmId accessToken) net clock i st =
       {| final := st; result := Returned (Next accessToken);
          requests := [] |})
  ∧ (truthy accessToken = false → truthy realmId = true →
     let r := exec (getAccessToken env realmId) net clock i st in
     exec (injectOAuthToken env realmId accessToken) net clock i st =
       {| final := final r;
          result := Returned
            match result r with
            | Returned granted => Next (Granted.accessToken granted)
            | Threw message =>
                Respond (SendJson 401
                  [("success", JBool false);
                   ("error", JStr message);
                   ("requiresOAuth", JBool true)])
            end;
          requests := requests r |}).
Proof.
  split.
  - intros Htoken. unfold injectOAuthToken. rewrite Htoken. reflexivity.
  - intros Htoken Hrealm r. subst r. unfold injectOAuthToken.
    rewrite Htoken, Hrealm. cbn [andb negb].
    apply (exec_settled (getAccessToken env realmId)
             (λ granted, Next (Granted.accessToken granted))).
Qed.

Lemma middleware_delegates_witness :
  exec (injectOAuthToken Demo.env "co-1" "manual") Demo.provider
       (Demo.at_time 0) 0 Demo.connected =
    {| final := Demo.connected; result := Returned (Next "manual");
       requests := [] |}.
Proof.
  exact (proj1 (middleware_delegates Demo.env "co-1" "manual" Demo.connected
                  Demo.provider (Demo.at_time 0) 0)
               eq_refl).
Defined.

(** X15: what a route behind the middleware sees.  A request that
    names an unknown tenant and brings no token is answered 401 with
    the not-connected message; one that names a tenant whose token is
    fresh goes on with the stored token; one whose stale token the
    provider refuses to refresh is answered 401 with the provider's
    reason, and the tenant keeps its record. *)
Theorem middleware_outcomes (env : ProcessEnv) (realmId : string)
    (st : State) (net : FetchReq → FetchResult) (clock : nat → Z) (i : nat) :
  truthy realmId = true →
  (tokenStore st !! realmId = None →
     exec (injectOAuthToken env realmId "") net clock i st =
       {| final := st;
          result := Returned (Respond (SendJson 401
            [("success", JBool false);
             ("error", JStr "No OAuth tokens found for this realmId. Please connect your QuickBooks account via OAuth.");
             ("requiresOAuth", JBool true)]));
          requests := [] |})
  ∧ (∀ l td,
       tokenStore st !! realmId = Some l → heap st !! l = Some td →
       (clock i < Token.expiresAt td - 5 * 60 * 1000 →
          exec (injectOAuthToken env realmId "") net clock i st =
            {| final := st;
               result := Returned (Next (Token.accessToken td));
               requests := [] |})
       ∧ (∀ resp,
            Token.expiresAt td - 5 * 60 * 1000 ≤ clock i →
            flag_set td = false →
            net (RefreshGrant TOKEN_URL (QUICKBOOKS_CLIENT_ID env)
                   (QUICKBOOKS_CLIENT_SECRET env) (Token.refreshToken td))
              = FetchResponse resp →
            ok resp = false →
            let r := exec (injectOAuthToken env realmId "") net clock i st in
            result r = Returned (Respond (SendJson 401
              [("success", JBool false);
               ("error", JStr (refusal resp));
               ("requiresOAuth", JBool true)]))
            ∧ final r = flag_cleared st l td)).
Proof.
  intros Htruthy.
  pose proof (proj2 (middleware_delegation env realmId "" st net clock i)
                eq_refl Htruthy) as Hrun.
  cbv zeta in Hrun. split.
  - intros Hnone. rewrite Hrun.
    unfold getAccessToken. rewrite Htruthy. cbn. rewrite Hnone. reflexivity.
  - intros l td Hstore Hheap. split.
    + intros Hfresh. rewrite Hrun.
      assert (Hcmp : (Token.expiresAt td - 5 * 60 * 1000 <=? clock i) = false)
        by (apply Z.leb_gt; exact Hfresh).
      unfold getAccessToken. rewrite Htruthy. cbn. rewrite Hstore. cbn.
      rewrite (read_object _ _ _ Hheap), Hcmp. cbn.
      rewrite (read_object _ _ _ Hheap). reflexivity.
    + intros resp Hstale Hflag Hnet Hok r. subst r. rewrite Hrun.
      rewrite (getAccessToken_not_granted env realmId st l td net clock i
                 Htruthy Hstore Hheap Hstale Hflag);
        [|rewrite Hnet; exact Hok].
      rewrite Hnet. split; reflexivity.
Qed.

Lemma middleware_outcomes_witness :
  exec (injectOAuthToken Demo.env "co-1" "") Demo.provider
       (Demo.at_time 500) 0 Demo.authorizing =
    {| final := Demo.authorizing;
       result := Returned (Respond (SendJson 401
         [("success", JBool false);
          ("error", JStr "No OAuth tokens found for this realmId. Please connect your QuickBooks account via OAuth.");
          ("requiresOAuth", JBool true)]));
       requests := [] |}.
Proof.
  exact (proj1 (middleware_outcomes Demo.env "co-1" Demo.authorizing
                  Demo.provider (Demo.at_time 500) 0 eq_refl)
               demo_authorizing_store).
Defined.

(* ===================================================================== *)
(** ** Field paths *)

Lemma Value_nested_ind (P : Value → Prop) :
  P VNull → (∀ b, P (VBool b)) → (∀ n, P (VNumber n)) →
  (∀ s, P (VString s)) →
  (∀ items, Forall P items → P (VArray items)) →
  (∀ fields, Forall (λ kv, P kv.2) fields → P (VObject fields)) →
  ∀ v, P v.
Proof.
  intros Hnull Hbool Hnum Hstr Harr Hobj.
  fix IH 1. intros [| b | n | s | items | fields].
  - exact Hnull.
  - apply Hbool.
  - apply Hnum.
  - apply Hstr.
  - apply Harr. induction items as [|v items IHitems]; constructor.
    + apply IH.
    + exact IHitems.
  - apply Hobj. induction fields as [|[k v] fields IHfields]; constructor.
    + apply IH.
    + exact IHfields.
Qed.

(** The three loops of [extractFieldPaths], as maps over the entries. *)
Lemma extract_object (fields : list (string * Value)) (prefix : string) :
  extractFieldPaths (VObject fields) prefix =
    flat_map (λ kv, visit extractFieldPaths kv.2 (join prefix kv.1)) fields.
Proof.
  induction fields as [|[key value] fields IH]; [reflexivity|].
  cbn [flat_map fst snd]. rewrite <- IH. reflexivity.
Qed.

Lemma extract_array_from (items : list Value) (prefix : string) (i : nat) :
  (fix each (i : nat) (items : list Value) : list string :=
     match items with
     | [] => []
     | value :: rest =>
         visit extractFieldPaths value (join prefix (pretty i))
           ++ each (S i) rest
     end) i items =
  concat (imap (λ j value,
            visit extractFieldPaths value (join prefix (pretty (i + j)%nat)))
          items).
Proof.
  revert i. induction items as [|value items IH]; intros i; [reflexivity|].
  rewrite imap_cons. cbn [concat]. rewrite Nat.add_0_r. f_equal.
  rewrite IH. f_equal. apply imap_ext. intros j x _. cbn. do 3 f_equal. lia.
Qed.

Lemma extract_array (items : list Value) (prefix : string) :
  extractFieldPaths (VArray items) prefix =
    concat (imap (λ j value,
              visit extractFieldPaths value (join prefix (pretty j))) items).
Proof. apply (extract_array_from items prefix 0). Qed.

Lemma extract_string_from (s : string) (prefix : string) (i : nat) :
  (fix each (i : nat) (s : string) : list string :=
     match s with
     | EmptyString => []
     | String _ rest => join prefix (pretty i) :: each (S i) rest
     end) i s =
  (λ j, join prefix (pretty (i + j)%nat)) <$> seq 0 (String.length s).
Proof.
  revert i. induction s as [|c s IH]; intros i; [reflexivity|].
  cbn [String.length seq fmap list_fmap]. rewrite Nat.add_0_r. f_equal.
  rewrite IH, <- seq_shift, <- list_fmap_compose.
  apply list_fmap_ext. intros _ j _. cbn. do 2 f_equal. lia.
Qed.

Lemma append_assoc (a b c : string) : (a +:+ b) +:+ c = a +:+ (b +:+ c).
Proof.
  induction a as [|x a IH]; [reflexivity|].
  change (String x ((a +:+ b) +:+ c) = String x (a +:+ (b +:+ c))).
  f_equal. exact IH.
Qed.

Lemma truthy_append (a b : string) : truthy a = true → truthy (a +:+ b) = true.
Proof. destruct a; [discriminate|]. reflexivity. Qed.

Lemma join_truthy (prefix key : string) :
  truthy prefix = true →
  join prefix key = prefix +:+ "." +:+ key ∧ truthy (join prefix key) = true.
Proof.
  intros Hprefix. unfold join. rewrite Hprefix. split; [reflexivity|].
  apply truthy_append. exact Hprefix.
Qed.

Lemma join_nested (P Q key : string) :
  truthy P = true → truthy Q = true →
  join (P +:+ "." +:+ Q) key = P +:+ "." +:+ join Q key.
Proof.
  intros HP HQ.
  rewrite (proj1 (join_truthy (P +:+ "." +:+ Q) key (truthy_append _ _ HP))).
  rewrite (proj1 (join_truthy Q key HQ)).
  rewrite append_assoc. reflexivity.
Qed.

Lemma visit_relocates (P : string) (value : Value) (Q : string) :
  relocates P value →
  (∀ first rest, value = VArray (first :: rest) → relocates P first) →
  truthy Q = true →
  visit extractFieldPaths value (P +:+ "." +:+ Q)
  = (λ q, P +:+ "." +:+ q) <$> visit extractFieldPaths value Q.
Proof.
  intros Hvalue Hfirst HQ. destruct value as [| | | |[|first rest]|fields];
    try reflexivity.
  - cbn. destruct (typeof_object first); [|reflexivity].
    apply (Hfirst first rest eq_refl Q HQ).
  - apply (Hvalue Q HQ).
Qed.

Lemma relocates_items (P : string) (name : nat → string)
    (items : list Value) (Q : string) :
  truthy P = true →
  Forall (λ v, relocates P v
               ∧ ∀ first rest, v = VArray (first :: rest) → relocates P first)
         items →
  truthy Q = true →
  concat (imap (λ j value,
            visit extractFieldPaths value (join (P +:+ "." +:+ Q) (name j)))
          items)
  = (λ q, P +:+ "." +:+ q) <$>
      concat (imap (λ j value,
                visit extractFieldPaths value (join Q (name j))) items).
Proof.
  intros HP Hitems HQ. revert name.
  induction Hitems as [|value items [Hvalue Hfirst] _ IHitems]; intros name;
    [reflexivity|].
  rewrite !imap_cons. cbn [concat]. rewrite fmap_app. f_equal.
  - rewrite join_nested by assumption.
    apply visit_relocates; [assumption..|].
    apply join_truthy. exact HQ.
  - apply (IHitems (name ∘ S)).
Qed.

Lemma relocates_all (P : string) :
  truthy P = true →
  ∀ v, relocates P v
       ∧ ∀ first rest, v = VArray (first :: rest) → relocates P first.
Proof.
  intros HP.
  induction v as [| b | n | s | items IH | fields IH] using Value_nested_ind;
    (split; [|try discriminate]).
  - intros Q HQ. reflexivity.
  - intros Q HQ. reflexivity.
  - intros Q HQ. reflexivity.
  - intros Q HQ. cbn [extractFieldPaths].
    rewrite !extract_string_from, <- list_fmap_compose.
    apply list_fmap_ext. intros _ j _. cbn. apply join_nested; assumption.
  - intros Q HQ. rewrite !extract_array.
    apply (relocates_items P (λ j, pretty j) items Q HP IH HQ).
  - intros first rest [= ->]. apply Forall_cons in IH as [[Hfirst _] _].
    exact Hfirst.
  - intros Q HQ. rewrite !extract_object.
    induction IH as [|[key value] fields [Hvalue Hfirst] _ IHfields];
      [reflexivity|].
    cbn [flat_map fst snd]. rewrite fmap_app. f_equal; [|exact IHfields].
    rewrite join_nested by assumption.
    apply visit_relocates; [assumption..|].
    apply join_truthy. exact HQ.
Qed.

(** Every path found under a non-empty prefix carries it. *)
Lemma extract_carries_prefix (v : Value) :
  ∀ P path, truthy P = true → path ∈ extractFieldPaths v P →
    ∃ q, path = P +:+ "." +:+ q.
Proof.
  assert (Hvisit : ∀ value,
            (∀ P path, truthy P = true → path ∈ extractFieldPaths value P →
               ∃ q, path = P +:+ "." +:+ q) →
            (∀ first rest, value = VArray (first :: rest) →
               ∀ P path, truthy P = true → path ∈ extractFieldPaths first P →
                 ∃ q, path = P +:+ "." +:+ q) →
            ∀ P key path, truthy P = true →
              path ∈ visit extractFieldPaths value (join P key) →
              ∃ q, path = P +:+ "." +:+ q).
  { intros value Hvalue Hfirst P key path HP Hin.
    destruct (join_truthy P key HP) as [Hjoin Htruthy].
    assert (Hleaf : path ∈ [join P key] → ∃ q, path = P +:+ "." +:+ q).
    { intros Hpath. apply list_elem_of_singleton in Hpath as ->.
      exists key. exact Hjoin. }
    assert (Hdeep : (∃ q, path = join P key +:+ "." +:+ q) →
                    ∃ q, path = P +:+ "." +:+ q).
    { intros [q ->]. exists (key +:+ "." +:+ q).
      rewrite Hjoin, append_assoc. reflexivity. }
    destruct value as [| | | |[|first rest]|fields]; try (apply Hleaf, Hin).
    - cbn in Hin. destruct (typeof_object first); [|apply Hleaf, Hin].
      apply Hdeep. apply (Hfirst first rest eq_refl _ _ Htruthy Hin).
    - apply Hdeep. apply (Hvalue _ _ Htruthy Hin). }
  enough (Hall : (∀ P path, truthy P = true → path ∈ extractFieldPaths v P →
                    ∃ q, path = P +:+ "." +:+ q)
                 ∧ (∀ first rest, v = VArray (first :: rest) →
                    ∀ P path, truthy P = true →
                      path ∈ extractFieldPaths first P →
                      ∃ q, path = P +:+ "." +:+ q)) by apply Hall.
  induction v as [| b | n | s | items IH | fields IH] using Value_nested_ind;
    (split; [|try discriminate]).
  - intros P path _ Hin. apply elem_of_nil in Hin. destruct Hin.
  - intros P path _ Hin. apply elem_of_nil in Hin. destruct Hin.
  - intros P path _ Hin. apply elem_of_nil in Hin. destruct Hin.
  - intros P path HP Hin. cbn [extractFieldPaths] in Hin.
    rewrite extract_string_from in Hin.
    apply list_elem_of_fmap in Hin as (j & -> & _).
    eexists. apply join_truthy. exact HP.
  - intros P path HP Hin. rewrite extract_array in Hin.
    assert (Hitems : ∀ name : nat → string,
              path ∈ concat (imap (λ j value,
                        visit extractFieldPaths value (join P (name j)))
                      items) →
              ∃ q, path = P +:+ "." +:+ q).
    { clear Hin.
      induction IH as [|value items [Hvalue Hfirst] _ IHitems];
        intros name Hin.
      - apply elem_of_nil in Hin. destruct Hin.
      - rewrite imap_cons in Hin. cbn [concat] in Hin.
        apply elem_of_app in Hin as [Hin|Hin].
        + exact (Hvisit value Hvalue Hfirst P (name 0%nat) path HP Hin).
        + exact (IHitems (name ∘ S) Hin). }
    exact (Hitems (λ j, pretty j) Hin).
  - intros first rest [= ->]. apply Forall_cons in IH as [[Hfirst _] _].
    exact Hfirst.
  - intros P path HP Hin. rewrite extract_object in Hin.
    induction IH as [|[key value] fields [Hvalue Hfirst] _ IHfields].
    + apply elem_of_nil in Hin. destruct Hin.
    + cbn [flat_map fst snd] in Hin.
      apply elem_of_app in Hin as [Hin|Hin].
      * exact (Hvisit value Hvalue Hfirst P key path HP Hin).
      * exact (IHfields Hin).
Qed.

(** X16: called with a non-empty prefix, [extractFieldPaths] returns
    only paths that begin with the prefix and a dot, whatever the
    value.  For an object whose own field names are not empty, they are
    exactly the paths found without a prefix, in the same order, each
    behind the prefix and a dot. *)
Theorem extract_under_prefix (P : string) :
  truthy P = true →
  (∀ v path, path ∈ extractFieldPaths v P → ∃ q, path = P +:+ "." +:+ q)
  ∧ (∀ fields,
       Forall (λ kv, truthy kv.1 = true) fields →
       extractFieldPaths (VObject fields) P
       = (λ q, P +:+ "." +:+ q) <$> extractFieldPaths (VObject fields) "").
Proof.
  intros HP. split.
  - intros v path Hin. exact (extract_carries_prefix v P path HP Hin).
  - intros fields Hkeys. rewrite !extract_object.
    induction Hkeys as [|[key value] fields Hkey _ IH]; [reflexivity|].
    cbn [flat_map fst snd]. rewrite fmap_app. f_equal; [|exact IH].
    rewrite (proj1 (join_truthy P key HP)).
    destruct (relocates_all P HP value) as [Hvalue Hfirst].
    exact (visit_relocates P value key Hvalue Hfirst Hkey).
Qed.

Lemma extract_under_prefix_witness :
  extractFieldPaths
    (VObject [("Id", VString "7");
              ("Line", VArray [VObject [("Amount", VNumber 12)]])]) "Bill"
  = ["Bill.Id"; "Bill.Line.Amount"].
Proof.
  rewrite (proj2 (extract_under_prefix "Bill" eq_refl));
    [reflexivity|repeat constructor].
Defined.

(** X17: what one field contributes.  The paths of an object are the
    paths of its fields, in order.  A field whose value is an empty
    object, or an array that begins with [null], contributes no path at
    all; an array contributes what its first element does, whatever
    follows it. *)
Theorem extract_field_by_field (prefix key : string)
    (before after : list (string * Value)) (value first : Value)
    (rest rest' : list Value) :
  extractFieldPaths (VObject (before ++ (key, value) :: after)) prefix
  = extractFieldPaths (VObject before) prefix
    ++ visit extractFieldPaths value (join prefix key)
    ++ extractFieldPaths (VObject after) prefix
  ∧ extractFieldPaths (VObject (before ++ (key, VObject []) :: after)) prefix
    = extractFieldPaths (VObject (before ++ after)) prefix
  ∧ extractFieldPaths
      (VObject (before ++ (key, VArray (VNull :: rest)) :: after)) prefix
    = extractFieldPaths (VObject (before ++ after)) prefix
  ∧ extractFieldPaths
      (VObject (before ++ (key, VArray (first :: rest)) :: after)) prefix
    = extractFieldPaths
        (VObject (before ++ (key, VArray (first :: rest')) :: after)) prefix.
Proof.
  rewrite !extract_object, !flat_map_app. cbn [flat_map fst snd].
  repeat split.
Qed.

(** X18: an object none of whose values is itself an object or an
    array of objects yields one path per field, in the order of the
    fields: the field's name behind the prefix. *)
Theorem extract_flat_record (fields : list (string * Value))
    (prefix : string) :
  Forall (λ kv, is_leaf kv.2 = true) fields →
  extractFieldPaths (VObject fields) prefix
  = (λ kv, join prefix kv.1) <$> fields.
Proof.
  intros Hflat. rewrite extract_object.
  induction Hflat as [|[key value] fields Hleaf _ IH]; [reflexivity|].
  cbn [flat_map fst snd fmap list_fmap]. rewrite IH.
  destruct value as [| | | |[|first rest]|fs]; try reflexivity.
  - cbn in Hleaf. cbn. destruct (typeof_object first); [discriminate|].
    reflexivity.
  - discriminate.
Qed.

Lemma extract_flat_record_witness :
  extractFieldPaths
    (VObject [("Id", VString "7"); ("Tags", VArray [VString "a"]);
              ("Memo", VNull); ("Lines", VArray [])]) ""
  = ["Id"; "Tags"; "Memo"; "Lines"].
Proof.
  rewrite extract_flat_record; [reflexivity|repeat constructor].
Defined.

(* ===================================================================== *)
(** ** Credentials in the browser *)

(** X19: saving and loading.  On a usable storage, credentials with a
    tenant id load back as they were saved, except that an empty
    [entity] reads as ["Expense"]; credentials without a tenant id are
    written but do not load, so that [hasCredentials] is false right
    after saving them.  Clearing leaves nothing to load.  On a storage
    that throws, saving changes nothing and loading finds nothing. *)
Theorem storage_round_trip (credentials : Credentials.t) (ls : LocalStorage) :
  (usable ls = true →
     QuickBooksStorage.loadCredentials
       (QuickBooksStorage.saveCredentials credentials ls)
     = (if truthy (Credentials.realmId credentials) then
          Some {| Credentials.realmId := Credentials.realmId credentials;
                  Credentials.accessToken :=
                    Credentials.accessToken credentials;
                  Credentials.entity :=
                    or_default (Some (Credentials.entity credentials))
                               "Expense";
                  Credentials.oauthConnected :=
                    Credentials.oauthConnected credentials |}
        else None)
     ∧ QuickBooksStorage.hasCredentials
         (QuickBooksStorage.saveCredentials credentials ls)
       = truthy (Credentials.realmId credentials)
     ∧ QuickBooksStorage.hasCredentials
         (QuickBooksStorage.clearCredentials
            (QuickBooksStorage.saveCredentials credentials ls)) = false)
  ∧ (usable ls = false →
     QuickBooksStorage.saveCredentials credentials ls = ls
     ∧ QuickBooksStorage.clearCredentials ls = ls
     ∧ QuickBooksStorage.loadCredentials ls = None).
Proof.
  unfold QuickBooksStorage.hasCredentials, QuickBooksStorage.clearCredentials,
    QuickBooksStorage.loadCredentials, QuickBooksStorage.saveCredentials.
  split; intros ->; cbn; [|repeat split].
  destruct credentials as [realm token entity connected]; cbn.
  destruct (truthy realm); [|repeat split].
  destruct (truthy entity); repeat split.
Qed.

Lemma storage_round_trip_witness :
  QuickBooksStorage.loadCredentials
    (QuickBooksStorage.saveCredentials
       {| Credentials.realmId := "co-1"; Credentials.accessToken := "";
          Credentials.entity := ""; Credentials.oauthConnected := Some true |}
       {| usable := true; item := None |})
  = Some {| Credentials.realmId := "co-1"; Credentials.accessToken := "";
            Credentials.entity := "Expense";
            Credentials.oauthConnected := Some true |}.
Proof.
  exact (proj1 (proj1 (storage_round_trip
                         {| Credentials.realmId := "co-1";
                            Credentials.accessToken := "";
                            Credentials.entity := "";
                            Credentials.oauthConnected := Some true |}
                         {| usable := true; item := None |}) eq_refl)).
Defined.

(** X20: recording an OAuth connection.  On a usable storage,
    [saveOAuthConnection(realmId, entity)] makes [isOAuthConnected]
    true exactly when [realmId] is not empty, and then the stored
    credentials carry that tenant and entity and the access token that
    could be loaded before (none: the empty string). *)
Theorem storage_oauth_connection (realmId : string) (entity : option string)
    (ls : LocalStorage) :
  usable ls = true →
  let after := QuickBooksStorage.saveOAuthConnection realmId entity ls in
  QuickBooksStorage.isOAuthConnected after = truthy realmId
  ∧ (truthy realmId = true →
       QuickBooksStorage.loadCredentials after =
         Some {| Credentials.realmId := realmId;
                 Credentials.accessToken :=
                   match QuickBooksStorage.loadCredentials ls with
                   | Some before => Credentials.accessToken before
                   | None => ""
                   end;
                 Credentials.entity :=
                   or_default (Some (default "Expense" entity)) "Expense";
                 Credentials.oauthConnected := Some true |}).
Proof.
  intros Husable after. subst after.
  unfold QuickBooksStorage.isOAuthConnected,
    QuickBooksStorage.saveOAuthConnection, QuickBooksStorage.saveCredentials.
  rewrite Husable.
  destruct (QuickBooksStorage.loadCredentials ls) as [before|];
    unfold QuickBooksStorage.loadCredentials; cbn;
    destruct (truthy realmId) eqn:Hrealm; cbn; rewrite ?Hrealm;
    destruct (truthy (default "Expense" entity)); cbn; rewrite ?Hrealm;
    (split; [reflexivity|]); try discriminate; intros _; reflexivity.
Qed.

Lemma storage_oauth_connection_witness :
  QuickBooksStorage.isOAuthConnected
    (QuickBooksStorage.saveOAuthConnection "co-1" None
       {| usable := true; item := None |}) = true.
Proof.
  exact (proj1 (storage_oauth_connection "co-1" None
                  {| usable := true; item := None |} eq_refl)).
Defined.

(** X21: updates that precede the tenant id are lost.  When nothing
    loadable is stored, [updateCredential('accessToken', token)] writes
    credentials that do not load, so a following
    [updateCredential('realmId', realmId)] starts from the defaults
    again and the token is gone; made in the other order, both updates
    are kept. *)
Theorem storage_update_order (token realmId : string) (ls : LocalStorage) :
  usable ls = true →
  QuickBooksStorage.loadCredentials ls = None →
  truthy realmId = true →
  QuickBooksStorage.hasCredentials
    (QuickBooksStorage.updateCredential
       (QuickBooksStorage.SetAccessToken token) ls) = false
  ∧ QuickBooksStorage.loadCredentials
      (QuickBooksStorage.updateCredential
         (QuickBooksStorage.SetRealmId realmId)
         (QuickBooksStorage.updateCredential
            (QuickBooksStorage.SetAccessToken token) ls))
    = Some {| Credentials.realmId := realmId;
              Credentials.accessToken := "";
              Credentials.entity := "Expense";
              Credentials.oauthConnected := None |}
  ∧ QuickBooksStorage.loadCredentials
      (QuickBooksStorage.updateCredential
         (QuickBooksStorage.SetAccessToken token)
         (QuickBooksStorage.updateCredential
            (QuickBooksStorage.SetRealmId realmId) ls))
    = Some {| Credentials.realmId := realmId;
              Credentials.accessToken := token;
              Credentials.entity := "Expense";
              Credentials.oauthConnected := None |}.
Proof.
  intros Husable Hnone Hrealm.
  unfold QuickBooksStorage.hasCredentials, QuickBooksStorage.updateCredential.
  rewrite Hnone. cbn.
  unfold QuickBooksStorage.saveCredentials. rewrite Husable.
  unfold QuickBooksStorage.loadCredentials. cbn. rewrite Hrealm. cbn.
  rewrite Hrealm. repeat split.
Qed.

Lemma storage_update_order_witness :
  Credentials.accessToken <$>
    QuickBooksStorage.loadCredentials
      (QuickBooksStorage.updateCredential
         (QuickBooksStorage.SetRealmId "co-1")
         (QuickBooksStorage.updateCredential
            (QuickBooksStorage.SetAccessToken "manual-token")
            {| usable := true; item := None |}))
  = Some "".
Proof.
  rewrite (proj1 (proj2 (storage_update_order "manual-token" "co-1"
                           {| usable := true; item := None |}
                           eq_refl eq_refl eq_refl))).
  reflexivity.
Defined.

(* ===================================================================== *)
(** ** The selection of rules *)

Lemma includes_elem_of (ruleId : string) (prev : list string) :
  includes ruleId prev = true ↔ ruleId ∈ prev.
Proof.
  unfold includes. rewrite existsb_exists. split.
  - intros (id & Hin & Heq). apply String.eqb_eq in Heq as <-.
    apply list_elem_of_In. exact Hin.
  - intros Hin. exists ruleId. split; [apply list_elem_of_In; exact Hin|].
    apply String.eqb_refl.
Qed.

Lemma elem_of_removed (ruleId other : string) (prev : list string) :
  other ∈ List.filter (λ id, negb (String.eqb id ruleId)) prev
  ↔ other ∈ prev ∧ other ≠ ruleId.
Proof.
  rewrite !list_elem_of_In, filter_In.
  rewrite negb_true_iff, String.eqb_neq. reflexivity.
Qed.

(** X22: [handleRuleSelection] toggles one rule and no other: the rule
    is selected afterwards exactly if it was not before (every
    occurrence of it is dropped), the membership of every other rule is
    as it was, and a selection without repetitions stays without
    repetitions.  Selecting and then deselecting a rule gives back the
    list as it was. *)
Theorem selection_toggles (ruleId : string) (prev : list string) :
  (ruleId ∈ handleRuleSelection ruleId prev ↔ ruleId ∉ prev)
  ∧ (∀ other, other ≠ ruleId →
       (other ∈ handleRuleSelection ruleId prev ↔ other ∈ prev))
  ∧ (NoDup prev → NoDup (handleRuleSelection ruleId prev))
  ∧ (ruleId ∉ prev →
       handleRuleSelection ruleId (handleRuleSelection ruleId prev) = prev).
Proof.
  unfold handleRuleSelection at 1 2 3.
  destruct (includes ruleId prev) eqn:Hin.
  - apply includes_elem_of in Hin. repeat split.
    + intros Hstill. apply elem_of_removed in Hstill as [_ Hne].
      contradiction.
    + intros Hnot. contradiction.
    + intros Hother. apply elem_of_removed in Hother as [Hother _].
      exact Hother.
    + intros Hother. apply elem_of_removed. split; assumption.
    + intros Hnodup. apply NoDup_ListNoDup, List.NoDup_filter,
        NoDup_ListNoDup. exact Hnodup.
    + intros Hnot. contradiction.
  - assert (Hnot : ruleId ∉ prev).
    { intros Hyes. apply includes_elem_of in Hyes. congruence. }
    repeat split.
    + intros _. exact Hnot.
    + intros _. apply elem_of_app. right. left.
    + intros Hother. apply elem_of_app in Hother as [Hother|Hother];
        [exact Hother|].
      apply list_elem_of_singleton in Hother. contradiction.
    + intros Hother. apply elem_of_app. left. exact Hother.
    + intros Hnodup. apply NoDup_app. repeat split.
      * exact Hnodup.
      * intros id Hid Hsingle. apply list_elem_of_singleton in Hsingle as ->.
        contradiction.
      * apply NoDup_singleton.
    + intros _. unfold handleRuleSelection. rewrite Hin.
      assert (Hnow : includes ruleId (prev ++ [ruleId]) = true)
        by (apply includes_elem_of, elem_of_app; right; left).
      rewrite Hnow, List.filter_app. cbn. rewrite String.eqb_refl. cbn.
      rewrite app_nil_r. apply forallb_filter_id.
      apply forallb_forall. intros id Hid.
      apply negb_true_iff, String.eqb_neq. intros ->.
      apply Hnot, list_elem_of_In. exact Hid.
Qed.

Lemma selection_toggles_witness :
  handleRuleSelection "rule-2"
    (handleRuleSelection "rule-2" ["rule-1"; "rule-3"])
  = ["rule-1"; "rule-3"].
Proof.
  apply (proj2 (proj2 (proj2 (selection_toggles "rule-2"
                                ["rule-1"; "rule-3"])))).
  intros Hin. apply includes_elem_of in Hin. discriminate.
Defined.

(* ===================================================================== *)
(** ** Tenants are kept apart *)

Lemma has_realm_alter (h : gmap nat TokenData) (l l' : loc) (key : string)
    (b : bool) :
  has_realm h l key → has_realm (alter (set_isRefreshing b) l' h) l key.
Proof.
  intros (td & Hl & Hkey). destruct (decide (l' = l)) as [->|Hne].
  - exists (set_isRefreshing b td). split; [|exact Hkey].
    rewrite lookup_alter_eq, Hl. reflexivity.
  - exists td. split; [|exact Hkey]. rewrite lookup_alter_ne; assumption.
Qed.

Lemma has_realm_new (h : gmap nat TokenData) (n : loc) (o : TokenData)
    (key : string) :
  Token.realmId o = key → has_realm (<[n := o]> h) n key.
Proof.
  intros Hkey. exists o. split; [apply lookup_insert_eq|exact Hkey].
Qed.

Lemma has_realm_unique (h : gmap nat TokenData) (l : loc) (k k' : string) :
  has_realm h l k → has_realm h l k' → k = k'.
Proof.
  intros (td & Hl & <-) (td' & Hl' & <-). congruence.
Qed.

Lemma extends_refl (st : State) : extends st st.
Proof. intros l k H. exact H. Qed.

Lemma extends_heap (st st' : State) : heap st' = heap st → extends st st'.
Proof. intros Hheap l k H. rewrite Hheap. exact H. Qed.

Lemma extends_trans (st1 st2 st3 : State) :
  extends st1 st2 → extends st2 st3 → extends st1 st3.
Proof. intros H12 H23 l k H. apply H23, H12, H. Qed.

Lemma same_elsewhere_refl (T : string) (st : State) : same_elsewhere T st st.
Proof. intros other _. reflexivity. Qed.

Lemma same_elsewhere_trans (T : string) (st1 st2 st3 : State) :
  same_elsewhere T st1 st2 → same_elsewhere T st2 st3 →
  same_elsewhere T st1 st3.
Proof.
  intros H12 H23 other Hother. rewrite (H23 other Hother). apply H12, Hother.
Qed.

(** An effect that stays with [T] keeps the store in order, keeps every
    object with its tenant, and leaves the other tenants' records as
    they are. *)
Lemma perform_confined (T : string) {X} (op : Op X) (now : Z) (st : State) :
  realm_ok st → confined_op T op st →
  realm_ok (perform op now st).1
  ∧ extends st (perform op now st).1
  ∧ same_elsewhere T st (perform op now st).1.
Proof.
  intros [Hstore Hbound] Hop.
  destruct op as [|key|key l|key|o|l|l b|key|key v|key|]; cbn in *;
    try (split; [split; assumption|];
         split; [apply extends_heap; reflexivity|];
         intros other _; reflexivity).
  - destruct Hop as [-> Hl]. split; [split; [|exact Hbound]|split].
    + intros k l' Hk. cbn in Hk.
      apply lookup_insert_Some in Hk as [[<- <-]|[_ Hk]];
        [exact Hl|exact (Hstore _ _ Hk)].
    + apply extends_heap. reflexivity.
    + intros other Hother. unfold record_of. cbn.
      rewrite lookup_insert_ne; [reflexivity|congruence].
  - subst key. split; [split; [|exact Hbound]|split].
    + intros k l' Hk. cbn in Hk.
      apply lookup_delete_Some in Hk as [_ Hk]. exact (Hstore _ _ Hk).
    + apply extends_heap. reflexivity.
    + intros other Hother. unfold record_of. cbn.
      rewrite lookup_delete_ne; [reflexivity|congruence].
  - assert (Hold : ∀ l k, has_realm (heap st) l k →
                     has_realm (<[nextLoc st := o]> (heap st)) l k).
    { intros l k (td & Hl & Hk). exists td. split; [|exact Hk].
      rewrite lookup_insert_ne; [exact Hl|].
      specialize (Hbound _ _ Hl). lia. }
    split; [split|split].
    + intros k l Hk. cbn in *. apply Hold, Hstore, Hk.
    + intros l td Hl. cbn in *.
      apply lookup_insert_Some in Hl as [[<- _]|[_ Hl]]; [lia|].
      specialize (Hbound _ _ Hl). lia.
    + exact Hold.
    + intros other _. unfold record_of. cbn.
      destruct (tokenStore st !! other) as [l|] eqn:Hl; [|reflexivity]. cbn.
      destruct (Hstore _ _ Hl) as (td & Htd & _).
      rewrite lookup_insert_ne; [reflexivity|].
      specialize (Hbound _ _ Htd). lia.
  - split; [split|split].
    + intros k l' Hk. cbn in *. apply has_realm_alter, Hstore, Hk.
    + intros l' td Hl'. cbn in *.
      apply lookup_alter_Some in Hl' as [(_ & td0 & Htd0 & _)|[_ Hl']];
        eapply Hbound; eassumption.
    + intros l' k Hl'. cbn. apply has_realm_alter, Hl'.
    + intros other Hother. unfold record_of. cbn.
      destruct (tokenStore st !! other) as [l'|] eqn:Hl'; [|reflexivity]. cbn.
      rewrite lookup_alter_ne; [reflexivity|]. intros <-.
      apply Hother. exact (has_realm_unique _ _ _ _ (Hstore _ _ Hl') Hop).
Qed.

(** A synchronous segment of a handler that stays with [T]. *)
Lemma run_sync_confined (T : string) {A} (p : Proc A) (now : Z) (st : State) :
  realm_ok st → confined T p st →
  realm_ok (run_sync p now st).1
  ∧ extends st (run_sync p now st).1
  ∧ same_elsewhere T st (run_sync p now st).1
  ∧ suspended_confined T (run_sync p now st).2 (run_sync p now st).1.
Proof.
  revert st. induction p as [a|e|X op k IH|req k IH|resp k IH];
    intros st Hok Hp; cbn in *;
    try (split; [exact Hok|];
         split; [apply extends_refl|];
         split; [apply same_elsewhere_refl|]; first [exact I|exact Hp]).
  destruct Hp as [Hop Hk].
  destruct (perform_confined T op now st Hok Hop) as (Hok1 & Hext1 & Hsame1).
  destruct (IH _ _ Hok1 (Hk now)) as (Hok2 & Hext2 & Hsame2 & Hs).
  split; [exact Hok2|].
  split; [exact (extends_trans _ _ _ Hext1 Hext2)|].
  split; [exact (same_elsewhere_trans _ _ _ _ Hsame1 Hsame2)|exact Hs].
Qed.

(** A whole run of a handler that stays with [T]. *)
Lemma exec_confined (T : string) {A} (p : Proc A)
    (net : FetchReq → FetchResult) (clock : nat → Z) (i : nat) (st : State) :
  realm_ok st → confined T p st →
  realm_ok (final (exec p net clock i st))
  ∧ same_elsewhere T st (final (exec p net clock i st)).
Proof.
  revert st i. induction p as [a|e|X op k IH|req k IH|resp k IH];
    intros st i Hok Hp; cbn in *;
    try (split; [exact Hok|apply same_elsewhere_refl]).
  - destruct Hp as [Hop Hk].
    destruct (perform_confined T op (clock i) st Hok Hop)
      as (Hok1 & _ & Hsame1).
    destruct (IH _ _ i Hok1 (Hk (clock i))) as (Hok2 & Hsame2).
    split; [exact Hok2|].
    exact (same_elsewhere_trans _ _ _ _ Hsame1 Hsame2).
  - apply IH; [exact Hok|]. apply Hp; [apply extends_refl|exact Hok].
  - apply IH; [exact Hok|]. apply Hp; [apply extends_refl|exact Hok].
Qed.

Lemma quiet_bind {A B} (p : Proc A) (f : A → Proc B) :
  quiet p → (∀ a, quiet (f a)) → quiet (bind p f).
Proof.
  intros Hp Hf. induction p as [a|e|X op k IH|req k IH|resp k IH]; cbn in *.
  - apply Hf.
  - exact I.
  - destruct Hp as [Hop Hk]. split; [exact Hop|]. intros x. apply IH, Hk.
  - intros r. apply IH, Hp.
  - intros j. apply IH, Hp.
Qed.

Lemma quiet_try_catch {A} (p : Proc A) (handler : string → Proc A) :
  quiet p → (∀ e, quiet (handler e)) → quiet (try_catch p handler).
Proof.
  intros Hp Hh. induction p as [a|e|X op k IH|req k IH|resp k IH]; cbn in *.
  - exact I.
  - apply Hh.
  - destruct Hp as [Hop Hk]. split; [exact Hop|]. intros x. apply IH, Hk.
  - intros r. apply IH, Hp.
  - intros j. apply IH, Hp.
Qed.

Lemma quiet_for_each {X} (l : list X) (body : X → Proc unit) :
  (∀ x, quiet (body x)) → quiet (for_each l body).
Proof.
  intros Hbody. induction l as [|x l IH]; cbn; [exact I|].
  apply quiet_bind; [apply Hbody|]. intros _. exact IH.
Qed.

Lemma authorize_quiet (env : ProcessEnv) (protocol host randomState : string) :
  quiet (authorize env protocol host randomState).
Proof.
  unfold authorize.
  apply quiet_try_catch; [|allocation].
  cbn. case_match; [exact I|].
  allocation;
    (apply quiet_bind; [|allocation]);
    apply quiet_for_each; intros [key value]; allocation.
Qed.

Lemma get_status_quiet (realmId : string) : quiet (get_status realmId).
Proof. unfold get_status. allocation. Qed.

Lemma quiet_confined (T : string) {A} (p : Proc A) (st : State) :
  quiet p → confined T p st.
Proof.
  revert st. induction p as [a|e|X op k IH|req k IH|resp k IH];
    intros st Hp; cbn in *; try exact I.
  - destruct Hp as [Hop Hk]. split.
    + destruct op; cbn; first [exact I|contradiction].
    + intros now. apply IH, Hk.
  - intros r st' _ _. apply IH, Hp.
  - intros j st' _ _. apply IH, Hp.
Qed.

(** Solves [has_realm] goals from what the segment did to the heap. *)
Ltac realm :=
  cbn;
  first
    [ eassumption
    | apply has_realm_new; reflexivity
    | apply has_realm_alter; realm
    | match goal with
      | Hok : realm_ok ?st, H : tokenStore ?st !! ?k = Some ?l
        |- has_realm (heap ?st) ?l ?k => exact (proj1 Hok k l H)
      | Hext : extends _ ?st' |- has_realm (heap ?st') _ _ =>
          apply Hext; realm
      end ].

Ltac confinement :=
  repeat first
    [ progress cbn
    | progress intros
    | exact I
    | reflexivity
    | solve [realm]
    | split
    | case_match ].

(** Every handler stays with the tenant it is invoked for. *)
Lemma program_confined (env : ProcessEnv) (c : Call) (st : State) :
  realm_ok st → confined (realm_of_call c) (program env c) st.
Proof.
  intros Hok.
  destruct c;
    [apply quiet_confined, quiet_bind;
       [apply authorize_quiet|intros a; exact I]|..];
    unfold program, router_callback, app_callback, callback_body,
      get_status, refresh, get_token, revoke, getAccessToken;
    confinement.
Qed.

Lemma initial_state_ok : realm_ok initial_state.
Proof.
  split.
  - intros k l Hk. cbn in Hk. rewrite lookup_empty in Hk. discriminate.
  - intros l td Hl. cbn in Hl. rewrite lookup_empty in Hl. discriminate.
Qed.

Lemma resume_fetch_confined (T : string) {A} (s : Suspended A)
    (r : FetchResult) (now : Z) (st0 st : State) :
  realm_ok st → extends st0 st → suspended_confined T s st0 →
  realm_ok (resume_fetch s r now st).1
  ∧ extends st (resume_fetch s r now st).1
  ∧ same_elsewhere T st (resume_fetch s r now st).1
  ∧ ∃ st1, extends st1 (resume_fetch s r now st).1
           ∧ suspended_confined T (resume_fetch s r now st).2 st1.
Proof.
  intros Hok Hext Hs. destruct s as [res|req k|resp k]; cbn in *.
  - split; [exact Hok|]. split; [apply extends_refl|].
    split; [apply same_elsewhere_refl|]. exists st.
    split; [apply extends_refl|exact I].
  - destruct (run_sync_confined T (k r) now st Hok (Hs r st Hext Hok))
      as (Hok' & Hext' & Hsame' & Hs').
    split; [exact Hok'|]. split; [exact Hext'|]. split; [exact Hsame'|].
    eexists. split; [apply extends_refl|exact Hs'].
  - split; [exact Hok|]. split; [apply extends_refl|].
    split; [apply same_elsewhere_refl|]. exists st0.
    split; [exact Hext|exact Hs].
Qed.

Lemma resume_json_confined (T : string) {A} (s : Suspended A)
    (now : Z) (st0 st : State) :
  realm_ok st → extends st0 st → suspended_confined T s st0 →
  realm_ok (resume_json s now st).1
  ∧ extends st (resume_json s now st).1
  ∧ same_elsewhere T st (resume_json s now st).1
  ∧ ∃ st1, extends st1 (resume_json s now st).1
           ∧ suspended_confined T (resume_json s now st).2 st1.
Proof.
  intros Hok Hext Hs. destruct s as [res|req k|resp k]; cbn in *.
  - split; [exact Hok|]. split; [apply extends_refl|].
    split; [apply same_elsewhere_refl|]. exists st.
    split; [apply extends_refl|exact I].
  - split; [exact Hok|]. split; [apply extends_refl|].
    split; [apply same_elsewhere_refl|]. exists st0.
    split; [exact Hext|exact Hs].
  - destruct (run_sync_confined T (k (json resp)) now st Hok
                (Hs (json resp) st Hext Hok))
      as (Hok' & Hext' & Hsame' & Hs').
    split; [exact Hok'|]. split; [exact Hext'|]. split; [exact Hsame'|].
    eexists. split; [apply extends_refl|exact Hs'].
Qed.

(** The tasks in flight stay confined when the state moves on. *)
Lemma tasks_move_on (st st' : State)
    (ts : list (Suspended (Reply + Granted.t))) :
  extends st st' →
  Forall (λ s, ∃ T st0, extends st0 st ∧ suspended_confined T s st0) ts →
  Forall (λ s, ∃ T st0, extends st0 st' ∧ suspended_confined T s st0) ts.
Proof.
  intros Hext Hts. eapply Forall_impl; [exact Hts|].
  intros s (T & st0 & Hext0 & Hs). exists T, st0. split; [exact (extends_trans _ _ _ Hext0 Hext)|exact Hs].
Qed.

(** One turn of the event loop keeps the process orderly and changes
    the record of at most one tenant. *)
Lemma step_orderly (env : ProcessEnv) (sys sys' : System) :
  orderly sys → step env sys sys' →
  orderly sys' ∧ ∃ T, same_elsewhere T (store sys) (store sys').
Proof.
  intros [Hok Htasks] Hstep.
  destruct Hstep as [sys c now|sys n r now|sys n now].
  - destruct (run_sync_confined (realm_of_call c) (program env c) now
                (store sys) Hok (program_confined env c _ Hok))
      as (Hok' & Hext' & Hsame' & Hs').
    split; [|exists (realm_of_call c); exact Hsame'].
    split; cbn; [exact Hok'|]. constructor.
    + eexists _, _. split; [apply extends_refl|exact Hs'].
    + exact (tasks_move_on _ _ _ Hext' Htasks).
  - unfold answer. destruct (tasks sys !! n) as [s|] eqn:Hn.
    2: { split; [split; assumption|].
         exists "". apply same_elsewhere_refl. }
    destruct (Forall_lookup_1 _ _ _ _ Htasks Hn) as (T & st0 & Hext0 & Hs).
    destruct (resume_fetch_confined T s r now st0 (store sys) Hok Hext0 Hs)
      as (Hok' & Hext' & Hsame' & st1 & Hext1 & Hs').
    split; [|exists T; exact Hsame'].
    split; cbn; [exact Hok'|]. apply Forall_insert.
    + exact (tasks_move_on _ _ _ Hext' Htasks).
    + exists T, st1. split; assumption.
  - unfold settle. destruct (tasks sys !! n) as [s|] eqn:Hn.
    2: { split; [split; assumption|].
         exists "". apply same_elsewhere_refl. }
    destruct (Forall_lookup_1 _ _ _ _ Htasks Hn) as (T & st0 & Hext0 & Hs).
    destruct (resume_json_confined T s now st0 (store sys) Hok Hext0 Hs)
      as (Hok' & Hext' & Hsame' & st1 & Hext1 & Hs').
    split; [|exists T; exact Hsame'].
    split; cbn; [exact Hok'|]. apply Forall_insert.
    + exact (tasks_move_on _ _ _ Hext' Htasks).
    + exists T, st1. split; assumption.
Qed.

Lemma reachable_orderly (env : ProcessEnv) (sys : System) :
  reachable env sys → orderly sys.
Proof.
  induction 1 as [|sys sys' _ IH Hstep].
  - split; cbn; [exact initial_state_ok|constructor].
  - exact (proj1 (step_orderly env sys sys' IH Hstep)).
Qed.

Lemma record_of_realm (st : State) (realmId : string) (td : TokenData) :
  realm_ok st → record_of st realmId = Some td → Token.realmId td = realmId.
Proof.
  intros [Hstore _] Hrecord. unfold record_of in Hrecord.
  destruct (tokenStore st !! realmId) as [l|] eqn:Hl; [|discriminate].
  cbn in Hrecord. destruct (Hstore _ _ Hl) as (td' & Htd' & Hkey).
  congruence.
Qed.

(** Reads off the tenant named in an answer along every path of a
    run. *)
Ltac named_tenant Htd Hkey :=
  repeat (case_match; cbn);
  try discriminate;
  try (intros v [= <-]);
  cbn;
  rewrite ?lookup_total_insert_eq, ?(read_object _ _ _ Htd);
  cbn;
  rewrite ?Hkey;
  reflexivity.

Lemma getAccessToken_names_tenant (env : ProcessEnv) (realmId : string)
    (net : FetchReq → FetchResult) (clock : nat → Z) (i : nat) (st : State)
    (g : Granted.t) :
  realm_ok st →
  result (exec (getAccessToken env realmId) net clock i st) = Returned g →
  Granted.realmId g = realmId.
Proof.
  intros [Hstore _]. revert g. unfold getAccessToken.
  destruct (truthy realmId); cbn; [|discriminate].
  destruct (tokenStore st !! realmId) as [l|] eqn:Hl; cbn; [|discriminate].
  destruct (Hstore _ _ Hl) as (td & Htd & Hkey).
  rewrite (read_object _ _ _ Htd).
  named_tenant Htd Hkey.
Qed.

Lemma get_token_names_tenant (env : ProcessEnv) (realmId : string)
    (net : FetchReq → FetchResult) (clock : nat → Z) (i : nat) (st : State)
    (v : jval) :
  realm_ok st →
  answered "realmId" (result (exec (get_token env realmId) net clock i st))
  = Some v →
  v = JStr realmId.
Proof.
  intros [Hstore _]. revert v. unfold get_token.
  destruct (truthy realmId); cbn; [|discriminate].
  destruct (tokenStore st !! realmId) as [l|] eqn:Hl; cbn; [|discriminate].
  destruct (Hstore _ _ Hl) as (td & Htd & Hkey).
  rewrite (read_object _ _ _ Htd).
  named_tenant Htd Hkey.
Qed.

Lemma get_status_names_tenant (realmId : string)
    (net : FetchReq → FetchResult) (clock : nat → Z) (i : nat) (st : State)
    (v : jval) :
  realm_ok st →
  answered "realmId" (result (exec (get_status realmId) net clock i st))
  = Some v →
  v = JStr realmId.
Proof.
  intros [Hstore _]. revert v. unfold get_status.
  destruct (truthy realmId); cbn; [|discriminate].
  destruct (tokenStore st !! realmId) as [l|] eqn:Hl; cbn; [|discriminate].
  destruct (Hstore _ _ Hl) as (td & Htd & Hkey).
  rewrite (read_object _ _ _ Htd).
  named_tenant Htd Hkey.
Qed.

Lemma exec_quiet {A} (p : Proc A) (net : FetchReq → FetchResult)
    (clock : nat → Z) (i : nat) (st : State) :
  quiet p →
  tokenStore (final (exec p net clock i st)) = tokenStore st
  ∧ heap (final (exec p net clock i st)) = heap st.
Proof.
  revert st i. induction p as [a|e|X op k IH|req k IH|resp k IH];
    intros st i Hp; cbn in *; try (split; reflexivity).
  - destruct Hp as [Hop Hk].
    destruct (IH (perform op (clock i) st).2 (perform op (clock i) st).1 i
                 (Hk _)) as [Hstore Hheap].
    rewrite Hstore, Hheap.
    destruct op; cbn; first [split; reflexivity|contradiction].
  - apply IH, Hp.
  - apply IH, Hp.
Qed.

Lemma demo_running_granted :
  result (exec (getAccessToken Demo.env "co-1") Demo.provider
               (Demo.at_time Demo.stale_time) 0 (store Demo.running))
  = Returned {| Granted.accessToken := "access-2";
                Granted.realmId := "co-1" |}.
Proof. vm_compute. reflexivity. Qed.

(** X23: in every state the process can reach, the record filed for a
    tenant carries that tenant's realm id, and every tenant filed in
    the token store has a record. *)
Theorem records_are_filed_under_their_tenant (env : ProcessEnv)
    (sys : System) :
  reachable env sys →
  (∀ realmId td,
     record_of (store sys) realmId = Some td → Token.realmId td = realmId)
  ∧ (∀ realmId,
       is_Some (tokenStore (store sys) !! realmId)
       ↔ is_Some (record_of (store sys) realmId)).
Proof.
  intros Hreach. destruct (reachable_orderly env sys Hreach) as [Hok _].
  split.
  - intros realmId td. apply record_of_realm, Hok.
  - intros realmId. unfold record_of.
    destruct (tokenStore (store sys) !! realmId) as [l|] eqn:Hl; cbn.
    + destruct (proj1 Hok _ _ Hl) as (td & Htd & _). rewrite Htd.
      split; intros _; eexists; reflexivity.
    + split; intros [x Hx]; discriminate.
Qed.

Lemma records_are_filed_under_their_tenant_witness :
  Token.realmId Demo.first_record = "co-1".
Proof.
  exact (proj1 (records_are_filed_under_their_tenant Demo.env Demo.running
                  demo_running_reachable)
               "co-1" Demo.first_record demo_running_record).
Defined.

(** X24: in every state the process can reach, whatever the provider
    answers, a token that [getAccessToken(realmId)] resolves to, and
    the [realmId] field of a reply of [GET /token] or [GET /status],
    names the tenant that was asked for. *)
Theorem answers_name_the_tenant (env : ProcessEnv) (sys : System)
    (realmId : string) (net : FetchReq → FetchResult) (clock : nat → Z)
    (i : nat) :
  reachable env sys →
  (∀ g, result (exec (getAccessToken env realmId) net clock i (store sys))
        = Returned g →
        Granted.realmId g = realmId)
  ∧ (∀ v, answered "realmId"
            (result (exec (get_token env realmId) net clock i (store sys)))
          = Some v →
          v = JStr realmId)
  ∧ (∀ v, answered "realmId"
            (result (exec (get_status realmId) net clock i (store sys)))
          = Some v →
          v = JStr realmId).
Proof.
  intros Hreach. destruct (reachable_orderly env sys Hreach) as [Hok _].
  split; [|split].
  - intros g. apply getAccessToken_names_tenant, Hok.
  - intros v. apply get_token_names_tenant, Hok.
  - intros v. apply get_status_names_tenant, Hok.
Qed.

Lemma answers_name_the_tenant_witness :
  Granted.realmId {| Granted.accessToken := "access-2";
                     Granted.realmId := "co-1" |} = "co-1".
Proof.
  exact (proj1 (answers_name_the_tenant Demo.env Demo.running "co-1"
                  Demo.provider (Demo.at_time Demo.stale_time) 0
                  demo_running_reachable)
               _ demo_running_granted).
Defined.

(** X25: tenants are kept apart.  In every state the process can
    reach, a handler invoked for one tenant and run to completion
    leaves the record of every other tenant as it was, whatever the
    provider answers; and so does every single turn of the event loop,
    however the invocations in flight are interleaved: a turn changes
    the record of at most one tenant. *)
Theorem tenants_are_kept_apart (env : ProcessEnv) (sys : System) :
  reachable env sys →
  (∀ c net clock i other,
     other ≠ realm_of_call c →
     record_of (final (exec (program env c) net clock i (store sys))) other
     = record_of (store sys) other)
  ∧ (∀ sys', step env sys sys' →
       ∃ T, ∀ other, other ≠ T →
         record_of (store sys') other = record_of (store sys) other).
Proof.
  intros Hreach. pose proof (reachable_orderly env sys Hreach) as Horderly.
  split.
  - intros c net clock i other Hother.
    apply (exec_confined (realm_of_call c) (program env c) net clock i
             (store sys) (proj1 Horderly)
             (program_confined env c _ (proj1 Horderly))).
    exact Hother.
  - intros sys' Hstep.
    exact (proj2 (step_orderly env sys sys' Horderly Hstep)).
Qed.

Lemma tenants_are_kept_apart_witness :
  record_of
    (final (exec (program Demo.env (CallRevoke "co-2")) Demo.provider
                 (Demo.at_time Demo.stale_time) 0 (store Demo.running)))
    "co-1"
  = record_of (store Demo.running) "co-1".
Proof.
  apply (proj1 (tenants_are_kept_apart Demo.env Demo.running
                  demo_running_reachable)).
  discriminate.
Defined.

(** X26: [GET /authorize] and [GET /status] only read the tokens: from
    any state and whatever happens, the token store and the token
    objects are afterwards what they were. *)
Theorem authorize_and_status_only_read (env : ProcessEnv)
    (protocol host randomState realmId : string)
    (net : FetchReq → FetchResult) (clock : nat → Z) (i : nat) (st : State) :
  let authorized :=
    final (exec (authorize env protocol host randomState) net clock i st) in
  let asked := final (exec (get_status realmId) net clock i st) in
  tokenStore authorized = tokenStore st ∧ heap authorized = heap st
  ∧ tokenStore asked = tokenStore st ∧ heap asked = heap st.
Proof.
  cbn.
  destruct (exec_quiet (authorize env protocol host randomState) net clock i
              st (authorize_quiet env protocol host randomState))
    as [Hstore Hheap].
  destruct (exec_quiet (get_status realmId) net clock i st
              (get_status_quiet realmId)) as [Hstore' Hheap'].
  repeat split; assumption.
Qed.

(* ===================================================================== *)
(** ** An environment the configuration inherits *)

(** X27: when [QUICKBOOKS_ENVIRONMENT] names a property the
    configuration object inherits ([constructor], [toString], ...), the
    routes that read their URL from [OAUTH_CONFIG] find none and never
    reach the provider.  [fetch] being node-fetch, which rejects a call
    without a URL: [POST /refresh] answers 500 and leaves the state as
    it was, record included; [GET /token] on a stale token answers 500
    and keeps the record, with its flag cleared; the router's callback
    consumes the state, stores nothing and redirects with
    [OAuth callback failed]. *)
Theorem inherited_environment_reaches_no_provider (env : ProcessEnv)
    (realmId : string) (st : State) (l : loc) (td : TokenData)
    (net : FetchReq → FetchResult) (clock : nat → Z) (i : nat) :
  inherited (configured_environment env) = true →
  node_fetch net →
  truthy realmId = true →
  tokenStore st !! realmId = Some l →
  heap st !! l = Some td →
  (truthy_opt (Token.refreshToken td) = true →
   js_ge (clock i) (Token.refreshTokenExpiresAt td) = false →
   ∃ message,
     exec (refresh env realmId) net clock i st =
       {| final := st;
          result := Returned (SendJson 500
            [("success", JBool false);
             ("error", JStr ("Failed to refresh token: " +:+ message))]);
          requests :=
            [RefreshGrant Undefined (QUICKBOOKS_CLIENT_ID env)
               (QUICKBOOKS_CLIENT_SECRET env) (Token.refreshToken td)] |})
  ∧ (Token.expiresAt td - 5 * 60 * 1000 ≤ clock i →
     flag_set td = false →
     ∃ message,
       exec (get_token env realmId) net clock i st =
         {| final := flag_cleared st l td;
            result := Returned (SendJson 500
              [("success", JBool false);
               ("error", JStr ("Failed to get token: " +:+ message))]);
            requests :=
              [RefreshGrant Undefined (QUICKBOOKS_CLIENT_ID env)
                 (QUICKBOOKS_CLIENT_SECRET env) (Token.refreshToken td)] |})
  ∧ (∀ code state sd,
       truthy code = true → truthy state = true →
       oauthStateStore st !! state = Some sd →
       ∃ message,
         exec (router_callback env code state realmId "") net clock i st =
           {| final := {| heap := heap st; nextLoc := nextLoc st;
                          tokenStore := tokenStore st;
                          oauthStateStore :=
                            delete state (oauthStateStore st) |};
              result := Returned (Redirect "/"
                [("oauth_error", "OAuth callback failed: " +:+ message)]);
              requests :=
                [ExchangeCode Undefined (QUICKBOOKS_CLIENT_ID env)
                   (QUICKBOOKS_CLIENT_SECRET env) code
                   (OAuthState.redirectUri sd)] |}).
Proof.
  intros Hinherited Hfetch Htruthy Hstore Hheap. split; [|split].
  - intros Hrefresh Hvalid.
    destruct (Hfetch (RefreshGrant Undefined (QUICKBOOKS_CLIENT_ID env)
                        (QUICKBOOKS_CLIENT_SECRET env) (Token.refreshToken td))
                     eq_refl) as [message Hnet].
    exists message.
    unfold refresh. rewrite Htruthy. cbn. rewrite Hstore. cbn.
    rewrite (read_object _ _ _ Hheap), Hrefresh. cbn. rewrite Hvalid. cbn.
    rewrite (token_url_missing _ Hinherited), Hnet. cbn.
    destruct st; reflexivity.
  - intros Hstale Hflag.
    destruct (Hfetch (RefreshGrant Undefined (QUICKBOOKS_CLIENT_ID env)
                        (QUICKBOOKS_CLIENT_SECRET env) (Token.refreshToken td))
                     eq_refl) as [message Hnet].
    exists message.
    unfold get_token. rewrite Htruthy. cbn. rewrite Hstore. cbn.
    rewrite (read_object _ _ _ Hheap), Hflag.
    replace (Token.expiresAt td - 5 * 60 * 1000 <=? clock i) with true
      by (symmetry; apply Z.leb_le; done).
    cbn. rewrite (alter_flag _ _ _ _ Hheap), lookup_total_insert_eq. cbn.
    rewrite (token_url_missing _ Hinherited), Hnet. cbn.
    unfold flag_cleared.
    rewrite !alter_insert_eq, !(insert_id _ _ _ Hstore). reflexivity.
  - intros code state sd Hcode Hstate Hsd.
    destruct (Hfetch (ExchangeCode Undefined (QUICKBOOKS_CLIENT_ID env)
                        (QUICKBOOKS_CLIENT_SECRET env) code
                        (OAuthState.redirectUri sd))
                     eq_refl) as [message Hnet].
    exists message.
    unfold router_callback, callback_body. cbn.
    rewrite Hcode, Hstate. cbn. rewrite Hsd. cbn.
    rewrite (token_url_missing _ Hinherited), Hnet. reflexivity.
Qed.

Lemma inherited_environment_reaches_no_provider_witness :
  record_of Demo.connected "co-1" = Some Demo.first_record
  ∧ record_of
      (final (exec (refresh Demo.misconfigured "co-1") Demo.unreachable
                   (Demo.at_time Demo.stale_time) 0 Demo.connected)) "co-1"
    = Some Demo.first_record.
Proof.
  split; [exact demo_connected_record|].
  destruct (inherited_environment_reaches_no_provider Demo.misconfigured
              "co-1" Demo.connected 0%nat Demo.first_record Demo.unreachable
              (Demo.at_time Demo.stale_time) 0 eq_refl
              ltac:(intros req _; exists "network timeout"; reflexivity)
              eq_refl demo_connected_store demo_connected_heap)
    as [Hrefresh _].
  destruct (Hrefresh eq_refl ltac:(vm_compute; reflexivity))
    as [message Hrun].
  rewrite Hrun. exact demo_connected_record.
Defined.
